(** * release-script: the release pipeline of [src/release.js]

    A shallow embedding of the release script (the current variant of
    [release.js], and the start-up code of its two sibling variants) together
    with the properties of its version resolution, its dry-run gateway, its
    rollback on a failed gate and its satellite-mirror protocol.

    The script is a sequence of shell interactions.  Pure code (version
    resolution, option handling, URL parsing) is embedded as Rocq functions;
    effectful code is embedded in a state monad over an abstract world whose
    operations are the [shelljs] primitives the script calls. *)

From Stdlib Require Import ZArith NArith Ascii String List Bool Lia.
From Stdlib Require Import DecimalString DecimalN DecimalPos DecimalFacts.
From stdpp Require Import base option list strings gmap.

Local Open Scope string_scope.

(** ** Strings the way the script uses them *)

Module Str.

(** The double quote character, which the script's command templates use. *)
Definition dq : string := String (ascii_of_nat 34) EmptyString.

Definition is_digit (a : ascii) : bool :=
  (Ascii.leb "0" a && Ascii.leb a "9")%char.

Definition is_upper (a : ascii) : bool :=
  (Ascii.leb "A" a && Ascii.leb a "Z")%char.

Definition is_lower (a : ascii) : bool :=
  (Ascii.leb "a" a && Ascii.leb a "z")%char.

Fixpoint all_chars (p : ascii -> bool) (s : string) : bool :=
  match s with
  | EmptyString => true
  | String a r => p a && all_chars p r
  end.

Definition nonempty (s : string) : bool :=
  match s with EmptyString => false | String _ _ => true end.

(** [s.split(c)] for a one-character separator. *)
Fixpoint split_on (c : ascii) (s : string) : list string :=
  match s with
  | EmptyString => [EmptyString]
  | String a r =>
      if Ascii.eqb a c then EmptyString :: split_on c r
      else match split_on c r with
           | h :: t => String a h :: t
           | [] => [String a EmptyString]
           end
  end.

(** The text before the first [c], and the text after it when there is one. *)
Fixpoint cut_at (c : ascii) (s : string) : string * option string :=
  match s with
  | EmptyString => (EmptyString, None)
  | String a r =>
      if Ascii.eqb a c then (EmptyString, Some r)
      else let '(h, t) := cut_at c r in (String a h, t)
  end.

(** [l.join(sep)]. *)
Fixpoint join (sep : string) (l : list string) : string :=
  match l with
  | [] => EmptyString
  | [x] => x
  | x :: r => x +:+ sep +:+ join sep r
  end.

(** A string-valued JavaScript value that may be [undefined]: it is truthy
    when it is a non-empty string. *)
Definition truthy (o : option string) : option string :=
  match o with
  | Some s => if nonempty s then Some s else None
  | None => None
  end.

Definition is_truthy (o : option string) : bool :=
  match truthy o with Some _ => true | None => false end.

(** A value inside a template string. *)
Definition js_str (o : option string) : string :=
  match o with Some s => s | None => "undefined" end.

Definition nl : string := String (ascii_of_nat 10) EmptyString.

(** No line terminator: what [.] of a regular expression matches. *)
Definition is_dot (a : ascii) : bool :=
  negb (Ascii.eqb a (ascii_of_nat 10)) && negb (Ascii.eqb a (ascii_of_nat 13)).

(** [s] without the prefix [p], when it starts with it. *)
Fixpoint strip_prefix (p s : string) : option string :=
  match p, s with
  | EmptyString, _ => Some s
  | String a p', String b s' =>
      if Ascii.eqb a b then strip_prefix p' s' else None
  | String _ _, EmptyString => None
  end.

Definition rev_string (s : string) : string :=
  string_of_list_ascii (rev (list_ascii_of_string s)).

(** [s] without the suffix [p], when it ends with it. *)
Definition strip_suffix (p s : string) : option string :=
  rev_string <$> strip_prefix (rev_string p) (rev_string s).

(** [c] does not occur in [s]. *)
Definition lacks (c : ascii) (s : string) : bool :=
  all_chars (fun a => negb (Ascii.eqb a c)) s.

End Str.

(** ** The version-arithmetic library

    [release.js] imports [semver] and calls [semver.inc] only.  The library
    is not part of the repository; the definitions below follow the published
    source of node-semver (the 4.x/5.x line the script was written against):
    the strict pattern, the constructor with its limits ([MAX_LENGTH] and
    [MAX_SAFE_INTEGER]) and its [trim], [SemVer.prototype.inc] for the release
    types the script passes ([major], [minor], [patch], [pre]) and
    [SemVer.prototype.compare].  A string is a sequence of code units below
    256.  The numbers of a version are JavaScript numbers in the library; the
    constructor keeps them at or below [MAX_SAFE_INTEGER], where the numbers
    of the language are the naturals, and they are naturals here. *)

Module Semver.
Import Str.

Definition MAX_LENGTH : nat := 256.
Definition MAX_SAFE_INTEGER : N := 9007199254740991.

(** A pre-release identifier is a number or a string. *)
Inductive Ident :=
| INum (n : N)
| IStr (s : string).

Record SemVer := mkSemVer {
  major : N;
  minor : N;
  patch : N;
  prerelease : list Ident;
  build : list string
}.

Inductive ReleaseType := RMajor | RMinor | RPatch | RPre.

Definition format_num (n : N) : string :=
  NilEmpty.string_of_uint (N.to_uint n).

(** *** [String.prototype.trim]

    White space and line terminators, among the code units below 256: tab,
    line feed, vertical tab, form feed, carriage return, space and the
    no-break space. *)
Definition is_space (a : ascii) : bool :=
  let n := nat_of_ascii a in
  ((9 <=? n) && (n <=? 13) || (n =? 32) || (n =? 160))%nat.

Fixpoint trim_start (s : string) : string :=
  match s with
  | EmptyString => EmptyString
  | String a r => if is_space a then trim_start r else s
  end.

Fixpoint trim_end (s : string) : string :=
  match s with
  | EmptyString => EmptyString
  | String a r =>
      match trim_end r with
      | EmptyString => if is_space a then EmptyString else String a EmptyString
      | r' => String a r'
      end
  end.

Definition trim (s : string) : string := trim_end (trim_start s).

Definition no_space (a : ascii) : bool := negb (is_space a).

(** *** [+s] on a string of digits

    The number of the language nearest to the number the digits denote, ties
    to the even one: a natural below 2^53 is itself. *)
Definition to_double (n : N) : N :=
  let k := (N.size n - 53)%N in
  if (k =? 0)%N then n
  else
    let q := N.shiftr n k in
    let r := N.land n (N.ones k) in
    let half := N.shiftl 1 (k - 1) in
    let q' := if (half <? r)%N || ((r =? half)%N && N.odd q) then (q + 1)%N else q in
    N.shiftl q' k.

(** [0|[1-9]\d*]: the number the digits denote. *)
Definition parse_num (s : string) : option N :=
  match s with
  | EmptyString => None
  | String a r =>
      if all_chars is_digit s
      then if Ascii.eqb a "0" && nonempty r then None
           else N.of_uint <$> NilEmpty.uint_of_string s
      else None
  end.

(** One of the three numbers: [this.major = +m[1]], and the constructor
    throws when it is above [MAX_SAFE_INTEGER]. *)
Definition parse_main (s : string) : option N :=
  match parse_num s with
  | Some n =>
      let num := to_double n in
      if (MAX_SAFE_INTEGER <? num)%N then None else Some num
  | None => None
  end.

Definition is_ident_char (a : ascii) : bool :=
  is_digit a || is_upper a || is_lower a || Ascii.eqb a "-".

(** [0|[1-9]\d*|\d*[a-zA-Z-][a-zA-Z0-9-]*]; an identifier of digits becomes
    a number when that number is below [MAX_SAFE_INTEGER], and stays a string
    otherwise. *)
Definition parse_pre_ident (s : string) : option Ident :=
  if nonempty s && all_chars is_digit s then
    match parse_num s with
    | Some n =>
        let num := to_double n in
        if (num <? MAX_SAFE_INTEGER)%N then Some (INum num) else Some (IStr s)
    | None => None
    end
  else if nonempty s && all_chars is_ident_char s then Some (IStr s)
  else None.

(** [[0-9A-Za-z-]+] *)
Definition parse_build_ident (s : string) : option string :=
  if nonempty s && all_chars is_ident_char s then Some s else None.

Fixpoint parse_all {A} (f : string -> option A) (l : list string) : option (list A) :=
  match l with
  | [] => Some []
  | x :: r =>
      match f x, parse_all f r with
      | Some y, Some r' => Some (y :: r')
      | _, _ => None
      end
  end.

Definition strip_v (s : string) : string :=
  match s with
  | String "v" r => r
  | _ => s
  end.

(** The match of the strict pattern on [s], and what the constructor makes
    of the groups: [None] where the pattern does not match or the
    constructor throws. *)
Definition read (s : string) : option SemVer :=
  let '(rest, b) := cut_at "+" (strip_v s) in
  let '(main, p) := cut_at "-" rest in
  match split_on "." main with
  | [x; y; z] =>
      match parse_main x, parse_main y, parse_main z with
      | Some ma, Some mi, Some pa =>
          match
            match p with
            | None => Some []
            | Some ps => parse_all parse_pre_ident (split_on "." ps)
            end,
            match b with
            | None => Some []
            | Some bs => parse_all parse_build_ident (split_on "." bs)
            end
          with
          | Some pre, Some bld => Some (mkSemVer ma mi pa pre bld)
          | _, _ => None
          end
      | _, _, _ => None
      end
  | _ => None
  end.

(** [new SemVer(version)] in strict mode: [None] where the constructor
    throws.  The length is that of the version as given; the pattern is
    matched on the trimmed version. *)
Definition construct (version : string) : option SemVer :=
  if (MAX_LENGTH <? String.length version)%nat then None
  else read (trim version).

(** [semver.parse(version)]: the pattern is tested on the version as given,
    then the constructor runs.  A version the pattern accepts has no white
    space at its ends, so the constructor reads what was tested. *)
Definition parse (version : string) : option SemVer :=
  if (MAX_LENGTH <? String.length version)%nat then None
  else read version.

(** [semver.valid(version)], as a truth value. *)
Definition valid (s : string) : bool :=
  match parse s with Some _ => true | None => false end.

Definition ident_string (i : Ident) : string :=
  match i with
  | INum n => format_num n
  | IStr s => s
  end.

(** [SemVer.prototype.format]: the build metadata is not printed. *)
Definition format (v : SemVer) : string :=
  format_num (major v) +:+ "." +:+ format_num (minor v) +:+ "." +:+
  format_num (patch v) +:+
  match prerelease v with
  | [] => EmptyString
  | pre => "-" +:+ join "." (map ident_string pre)
  end.

(** *** JavaScript's [isNaN] on a pre-release identifier

    [inc] tests [isNaN(this.prerelease[1])].  A string identifier converts
    to a number when it is a numeric literal of the language; over the
    identifier alphabet those are the forms below. *)

Definition is_hex (a : ascii) : bool :=
  is_digit a || (Ascii.leb "a" a && Ascii.leb a "f")%char
             || (Ascii.leb "A" a && Ascii.leb a "F")%char.
Definition is_oct (a : ascii) : bool := (Ascii.leb "0" a && Ascii.leb a "7")%char.
Definition is_bin (a : ascii) : bool := (Ascii.eqb a "0" || Ascii.eqb a "1")%char.

Definition digits1 (s : string) : bool := nonempty s && all_chars is_digit s.

(** The text before the first exponent mark, and the text after it. *)
Fixpoint cut_exp (s : string) : string * option string :=
  match s with
  | EmptyString => (EmptyString, None)
  | String a r =>
      if (Ascii.eqb a "e" || Ascii.eqb a "E")%char then (EmptyString, Some r)
      else let '(h, t) := cut_exp r in (String a h, t)
  end.

Definition unsigned_decimal (s : string) : bool :=
  if String.eqb s "Infinity" then true
  else
    match cut_exp s with
    | (m, Some e) =>
        digits1 m && digits1 (match e with String "-" e' => e' | _ => e end)
    | (m, None) => digits1 m
    end.

Definition numeric_literal (s : string) : bool :=
  match s with
  | String "0" (String "x" r) | String "0" (String "X" r) =>
      nonempty r && all_chars is_hex r
  | String "0" (String "o" r) | String "0" (String "O" r) =>
      nonempty r && all_chars is_oct r
  | String "0" (String "b" r) | String "0" (String "B" r) =>
      nonempty r && all_chars is_bin r
  | String "-" r => unsigned_decimal r
  | _ => unsigned_decimal s
  end.

Definition isNaN (i : option Ident) : bool :=
  match i with
  | None => true
  | Some (INum _) => false
  | Some (IStr s) => negb (numeric_literal s)
  end.

(** *** [SemVer.prototype.inc] *)

(** The loop of the [pre] case: the rightmost number is incremented. *)
Fixpoint bump_last_num (l : list Ident) : option (list Ident) :=
  match l with
  | [] => None
  | x :: r =>
      match bump_last_num r with
      | Some r' => Some (x :: r')
      | None =>
          match x with
          | INum n => Some (INum (n + 1) :: r)
          | IStr _ => None
          end
      end
  end.

Definition inc_pre (pre : list Ident) (identifier : option string) : list Ident :=
  let pre1 :=
    match pre with
    | [] => [INum 0]
    | _ => match bump_last_num pre with
           | Some p => p
           | None => (pre ++ [INum 0])%list
           end
    end in
  match truthy identifier with
  | Some id =>
      match pre1 with
      | IStr s :: rest =>
          if String.eqb s id
          then if isNaN (head rest) then [IStr id; INum 0] else pre1
          else [IStr id; INum 0]
      | _ => [IStr id; INum 0]
      end
  | None => pre1
  end.

Definition inc_version (v : SemVer) (release : ReleaseType)
    (identifier : option string) : SemVer :=
  match release with
  | RMajor =>
      let ma :=
        if negb (N.eqb (minor v) 0) || negb (N.eqb (patch v) 0)
           || Nat.eqb (length (prerelease v)) 0
        then (major v + 1)%N else major v in
      mkSemVer ma 0 0 [] (build v)
  | RMinor =>
      let mi :=
        if negb (N.eqb (patch v) 0) || Nat.eqb (length (prerelease v)) 0
        then (minor v + 1)%N else minor v in
      mkSemVer (major v) mi 0 [] (build v)
  | RPatch =>
      let pa :=
        if Nat.eqb (length (prerelease v)) 0
        then (patch v + 1)%N else patch v in
      mkSemVer (major v) (minor v) pa [] (build v)
  | RPre =>
      mkSemVer (major v) (minor v) (patch v)
               (inc_pre (prerelease v) identifier) (build v)
  end.

(** [semver.inc(version, release, identifier)]: the formatted version, or
    [None] for the [null] the library returns on a version the constructor
    does not take.  The result is printed as it is: the library does not
    read it back. *)
Definition inc (version : string) (release : ReleaseType)
    (identifier : option string) : option string :=
  match construct version with
  | Some v => Some (format (inc_version v release identifier))
  | None => None
  end.

(** *** [SemVer.prototype.compare] *)

(** [numeric.test(a)] and [+a]: an identifier of digits, as a number of the
    language. *)
Definition ident_numeric (i : Ident) : option N :=
  match i with
  | INum n => Some n
  | IStr s =>
      if digits1 s then (fun n => to_double (N.of_uint n)) <$> NilEmpty.uint_of_string s
      else None
  end.

Definition compareIdentifiers (a b : Ident) : comparison :=
  match ident_numeric a, ident_numeric b with
  | Some x, Some y => N.compare x y
  | Some _, None => Lt
  | None, Some _ => Gt
  | None, None => String.compare (ident_string a) (ident_string b)
  end.

(** [a === b] on identifiers. *)
Definition ident_eqb (a b : Ident) : bool :=
  match a, b with
  | INum x, INum y => N.eqb x y
  | IStr x, IStr y => String.eqb x y
  | _, _ => false
  end.

Definition lex (c d : comparison) : comparison :=
  match c with Eq => d | _ => c end.

Definition compareMain (a b : SemVer) : comparison :=
  lex (N.compare (major a) (major b))
      (lex (N.compare (minor a) (minor b)) (N.compare (patch a) (patch b))).

Fixpoint comparePre_loop (a b : list Ident) : comparison :=
  match a, b with
  | [], [] => Eq
  | _ :: _, [] => Gt
  | [], _ :: _ => Lt
  | x :: a', y :: b' =>
      if ident_eqb x y then comparePre_loop a' b' else compareIdentifiers x y
  end.

Definition comparePre (a b : SemVer) : comparison :=
  match prerelease a, prerelease b with
  | _ :: _, [] => Lt
  | [], _ :: _ => Gt
  | [], [] => Eq
  | pa, pb => comparePre_loop pa pb
  end.

Definition compare (a b : SemVer) : comparison :=
  lex (compareMain a b) (comparePre a b).

(** [semver.gt(a, b)] on version strings; [false] when the constructor does
    not take one of them (the library throws there). *)
Definition gt (a b : string) : bool :=
  match construct a, construct b with
  | Some x, Some y => match compare x y with Gt => true | _ => false end
  | _, _ => false
  end.

(** *** Versions that print and read back

    The identifiers of the pre-release part that [format] prints in a form
    the pattern accepts, the numbers the constructor takes, and the two
    parts of the printed version. *)

(** The string of an identifier reads back as an identifier when the
    identifier is a number or an accepted string. *)
Definition wf_ident (i : Ident) : Prop :=
  match i with
  | INum _ => True
  | IStr s => is_Some (parse_pre_ident s)
  end.

Definition wf (v : SemVer) : Prop := Forall wf_ident (prerelease v).

(** The three numbers are numbers the constructor takes. *)
Definition in_range (v : SemVer) : bool :=
  (major v <=? MAX_SAFE_INTEGER)%N && (minor v <=? MAX_SAFE_INTEGER)%N &&
  (patch v <=? MAX_SAFE_INTEGER)%N.

(** The increment [release] raises one of the numbers of [v]; otherwise [v]
    is a pre-release of the level the increment goes to, and the increment
    drops its pre-release part only. *)
Definition raises (v : SemVer) (release : ReleaseType) : bool :=
  match release with
  | RMajor =>
      negb (N.eqb (minor v) 0) || negb (N.eqb (patch v) 0)
      || Nat.eqb (length (prerelease v)) 0
  | RMinor => negb (N.eqb (patch v) 0) || Nat.eqb (length (prerelease v)) 0
  | RPatch => Nat.eqb (length (prerelease v)) 0
  | RPre => false
  end.

Definition is_Gt (c : comparison) : bool :=
  match c with Gt => true | _ => false end.

Definition main_string (a b c : N) : string :=
  format_num a +:+ "." +:+ format_num b +:+ "." +:+ format_num c.

Definition pre_suffix (pre : list Ident) : string :=
  match pre with
  | [] => EmptyString
  | _ => String "-" (join "." (map ident_string pre))
  end.

End Semver.

(** ** The package manifest and the command line *)

Module Manifest.

Record DevDeps := mkDevDeps {
  rf_changelog : bool;
  mt_changelog : bool
}.

(** The entries of [scripts] the script tests for presence. *)
Record Scripts := mkScripts {
  script_test : bool;
  script_build : bool;
  script_docs_build : bool
}.

(** The [release-script] section of the manifest. *)
Record Options := mkOptions {
  o_bowerRoot : option string;
  o_tmpBowerRepo : option string;
  o_bowerRepo : option string;
  o_docsRoot : option string;
  o_tmpDocsRepo : option string;
  o_docsRepo : option string;
  o_altPkgRootFolder : option string;
  o_skipBuildStep : bool;
  o_defaultDryRun : option string
}.

Definition no_options : Options :=
  mkOptions None None None None None None None false None.

Inductive Repository :=
| RepoMissing
| RepoString (s : string)
| RepoObject (url : option string).

(** [npmjson]: the parsed [package.json], as far as the script reads it. *)
Record Npm := mkNpm {
  name : option string;
  version : option string;
  private : bool;
  devDependencies : option DevDeps;
  scripts : option Scripts;
  release_script : option Options;
  repository : Repository;
  main : option string;
  files : bool
}.

Definition set_version (v : option string) (n : Npm) : Npm :=
  mkNpm (name n) v (private n) (devDependencies n) (scripts n)
        (release_script n) (repository n) (main n) (files n).

(** The four [delete]s before the manifest of the alternative package root
    is written. *)
Definition delete_build_fields (n : Npm) : Npm :=
  mkNpm (name n) (version n) (private n) None None None (repository n)
        (main n) false.

Definition set_main (m : string) (n : Npm) : Npm :=
  mkNpm (name n) (version n) (private n) (devDependencies n) (scripts n)
        (release_script n) (repository n) (Some m) (files n).

(** [yargs.argv]: the positional argument and the flags of all variants. *)
Record Argv := mkArgv {
  a_positional : option string;
  a_preid : option string;
  a_tag : option string;
  a_onlyDocs : bool;
  a_run : bool;
  a_dryRun : bool;
  a_verbose : bool;
  a_notes : option string;
  a_skipTests : bool;
  a_skipVersionBumping : bool
}.

Record VersionBumpOptions := mkVersionBumpOptions {
  type : option string;
  preid : option string;
  npmTagName : option string
}.

End Manifest.

(** ** The shell

    The script runs on [shelljs]: [exec], [rm], [ls], [cp], [pushd], [popd],
    [test], [which], [cat], [pwd], [String.prototype.to], and on [request],
    [JSON], [path] and [yargs].  They are the operations of an abstract
    world; what a property needs of them is stated where it is used. *)

Module Shell.
Import Str Manifest.

(** An argument of a [shelljs] call: a string or an array of strings. *)
Inductive JsArg :=
| AStr (s : string)
| AArr (l : list string).

(** The POST to the releases endpoint. *)
Record Request := mkRequest {
  uri : string;
  tag_name : string;
  release_name : string;
  body : option string;
  draft : bool;
  prerelease_flag : bool;
  authorization : string;
  user_agent : string
}.

(** What the callback of [request] receives: [err], or [res] and [body].
    Of [body] the callback reads [body.html_url] inside a template: [body]
    is the text this gives, and there is none when the answer comes without
    a body, where reading [html_url] throws. *)
Inductive Response :=
| RespError (err : string)
| RespStatus (statusMessage : string) (body : option string).

Class Host (W : Type) := {
  sh_exec : string -> W -> (Z * string) * W;
  sh_rm : list JsArg -> W -> W;
  sh_ls : string -> W -> list string;
  sh_cp : string -> string -> string -> W -> W;
  sh_pushd : string -> W -> W;
  sh_popd : W -> W;
  sh_test : string -> string -> W -> bool;
  sh_which : string -> W -> bool;
  sh_cat : string -> W -> string;
  sh_pwd : W -> string;
  sh_to : string -> string -> W -> W;
  http_response : Request -> W -> Response;
  json_parse : string -> option Npm;
  json_stringify : Npm -> string;
  path_join : string -> string -> string;
  regexp_replace : string -> string -> option string;
  yargs_help : string -> string
}.

(** What the run leaves behind, in order: console lines, the commands handed
    to [exec] with their exit codes, and the other calls that act on the
    world. *)
Inductive Event :=
| EvLog (s : string)
| EvError (s : string)
| EvExec (command : string) (code : Z)
| EvRm (args : list JsArg)
| EvCp (opts src dst : string)
| EvPushd (dir : string)
| EvPopd
| EvTo (path content : string)
| EvRequest (r : Request).

(** How a run stops early: [exit(code)], or an uncaught exception. *)
Inductive Halt :=
| Exit (code : Z)
| Crash.

Inductive Outcome (A : Type) :=
| Ret (a : A)
| Stop (h : Halt).
Arguments Ret {A} a.
Arguments Stop {A} h.

(** The exit status of the process: 0 when the script runs to its end. *)
Definition exit_status {A} (o : Outcome A) : Z :=
  match o with
  | Ret _ => 0
  | Stop (Exit c) => c
  | Stop Crash => 1
  end.

Section Monad.
Context {W : Type} `{Host W}.

(** The world and the script's mutable globals. *)
Record State := mkState {
  world : W;
  npmjson : Npm;
  notesForRelease : option string;
  silent : bool
}.

Record Result (A : Type) := mkResult {
  outcome : Outcome A;
  final : State;
  events : list Event
}.
Arguments mkResult {A} outcome final events.
Arguments outcome {A} r.
Arguments final {A} r.
Arguments events {A} r.

Definition M (A : Type) : Type := State -> Result A.

Definition ret {A} (a : A) : M A := fun s => mkResult (Ret a) s [].

Definition bind {A B} (m : M A) (k : A -> M B) : M B := fun s =>
  let r := m s in
  match outcome r with
  | Ret a =>
      let r' := k a (final r) in
      mkResult (outcome r') (final r') (events r ++ events r')%list
  | Stop h => mkResult (Stop h) (final r) (events r)
  end.

Definition exit {A} (code : Z) : M A := fun s => mkResult (Stop (Exit code)) s [].
Definition throw {A} : M A := fun s => mkResult (Stop Crash) s [].

Definition gets {A} (f : State -> A) : M A := fun s => mkResult (Ret (f s)) s [].
Definition modify (f : State -> State) : M unit := fun s => mkResult (Ret tt) (f s) [].

Definition set_world (w : W) (s : State) : State :=
  mkState w (npmjson s) (notesForRelease s) (silent s).
Definition set_npmjson (n : Npm) (s : State) : State :=
  mkState (world s) n (notesForRelease s) (silent s).
Definition set_notesForRelease (n : option string) (s : State) : State :=
  mkState (world s) (npmjson s) n (silent s).
Definition set_silent (b : bool) (s : State) : State :=
  mkState (world s) (npmjson s) (notesForRelease s) b.

(** An operation that changes the world and leaves one event. *)
Definition act (f : W -> W) (e : Event) : M unit := fun s =>
  mkResult (Ret tt) (set_world (f (world s)) s) [e].

Definition console_log (line : string) : M unit := fun s => mkResult (Ret tt) s [EvLog line].
Definition console_info (line : string) : M unit := console_log line.
Definition console_error (line : string) : M unit := fun s => mkResult (Ret tt) s [EvError line].

Definition exec (command : string) : M (Z * string) := fun s =>
  let '(r, w) := sh_exec command (world s) in
  mkResult (Ret r) (set_world w s) [EvExec command (fst r)].

Definition rm (args : list JsArg) : M unit := act (sh_rm args) (EvRm args).
Definition cp (opts src dst : string) : M unit := act (sh_cp opts src dst) (EvCp opts src dst).
Definition pushd (dir : string) : M unit := act (sh_pushd dir) (EvPushd dir).
Definition popd : M unit := act sh_popd EvPopd.
Definition to (content path : string) : M unit := act (sh_to path content) (EvTo path content).
Definition ls (dir : string) : M (list string) := gets (fun s => sh_ls dir (world s)).
Definition test (opt path : string) : M bool := gets (fun s => sh_test opt path (world s)).
Definition which (prog : string) : M bool := gets (fun s => sh_which prog (world s)).
Definition cat (path : string) : M string := gets (fun s => sh_cat path (world s)).
Definition pwd : M string := gets (fun s => sh_pwd (world s)).
Definition request (r : Request) : M unit := fun s => mkResult (Ret tt) s [EvRequest r].

Definition when (b : bool) (m : M unit) : M unit := if b then m else ret tt.

End Monad.

Arguments State W : clear implicits.
Arguments Result W A : clear implicits.
Arguments M W A : clear implicits.
Arguments mkResult {W A} outcome final events.
Arguments outcome {W A} r.
Arguments final {W A} r.
Arguments events {W A} r.

Declare Scope sh_scope.
Delimit Scope sh_scope with sh.
Notation "x ← y ; z" := (bind y (fun x => z))
  (at level 20, y at level 100, z at level 200, only parsing) : sh_scope.
Notation "' x ← y ; z" := (bind y (fun x => z))
  (at level 20, x pattern, y at level 100, z at level 200, only parsing) : sh_scope.
Notation "x ;; z" := (bind x (fun _ => z))
  (at level 100, z at level 200, only parsing, right associativity) : sh_scope.

End Shell.

(** ** [release.js], the current variant *)

Module V1.
Import Str Semver Manifest Shell.
Local Open Scope sh_scope.

(** *** The version bump (the block under [// version bump]) *)

(** [['major', 'minor', 'patch'].indexOf(type) >= 0] *)
Definition bump_kind (t : string) : option ReleaseType :=
  if String.eqb t "major" then Some RMajor
  else if String.eqb t "minor" then Some RMinor
  else if String.eqb t "patch" then Some RPatch
  else None.

(** [semver.inc] of a value that may be [undefined] or [null]. *)
Definition semver_inc (version : option string) (release : ReleaseType)
    (identifier : option string) : option string :=
  match version with
  | Some v => Semver.inc v release identifier
  | None => None
  end.

Definition newVersion (oldVersion type preid : option string) : option string :=
  let newVersion :=
    match type with
    | None => oldVersion
    | Some t =>
        match bump_kind t with
        | Some k => semver_inc oldVersion k None
        | None => Some t
        end
    end in
  match truthy preid with
  | Some id => semver_inc newVersion RPre (Some id)
  | None => newVersion
  end.

(** *** Patterns *)

(** The pattern of [getOwnerAndRepo]: [url] is [pre], any text without a
    line end, and [.git]; the result is that text (the captured group). *)
Definition git_url_match (pre url : string) : option string :=
  match strip_prefix pre url with
  | Some rest =>
      match strip_suffix ".git" rest with
      | Some g => if all_chars is_dot g then Some g else None
      | None => None
      end
  | None => None
  end.

Definition getOwnerAndRepo (url : string) : list string :=
  let m :=
    match git_url_match "git@github.com:" url with
    | Some g => Some g
    | None => git_url_match "git+https://github.com/" url
    end in
  split_on "/" (match truthy m with Some g => g | None => url end).

(** The text of a line up to its end. *)
Fixpoint line_head (s : string) : string :=
  match s with
  | EmptyString => EmptyString
  | String a r => if is_dot a then String a (line_head r) else EmptyString
  end.

(** The text before the last [c] of [s]. *)
Fixpoint before_last (c : ascii) (s : string) : option string :=
  match s with
  | EmptyString => None
  | String a r =>
      match before_last c r with
      | Some t => Some (String a t)
      | None => if Ascii.eqb a c then Some EmptyString else None
      end
  end.

(** The pattern of the upstream check: the word behind, a space, any text
    of the line, and a closing bracket; the result is [RegExp.$1] of the
    leftmost match, the text up to the last bracket of that line. *)
Fixpoint behind (s : string) : option string :=
  match
    match strip_prefix "behind " s with
    | Some rest => before_last "]" (line_head rest)
    | None => None
    end
  with
  | Some n => Some n
  | None =>
      match s with
      | EmptyString => None
      | String _ r => behind r
      end
  end.

Definition dry_line (command : string) : string :=
  "[" +:+ command +:+ "] DRY RUN".

(** *** The constants computed when the script starts *)

Record Config := mkConfig {
  repoRoot : string;
  packagePath : string;
  isPrivate : bool;
  isCommitsChangelogUsed : bool;
  isWithinMtChangelog : bool;
  bowerRoot : string;
  tmpBowerRepo : string;
  bowerRepo : option string;
  docsRoot : string;
  tmpDocsRepo : string;
  docsRepo : option string;
  docsBuild : bool;
  githubToken : option string;
  altPkgRootFolder : option string;
  skipBuildStep : bool;
  defaultDryRun : bool;
  argv : Argv;
  dryRunMode : bool
}.

Definition with_dryRunMode (b : bool) (c : Config) : Config :=
  mkConfig (repoRoot c) (packagePath c) (isPrivate c) (isCommitsChangelogUsed c)
    (isWithinMtChangelog c) (bowerRoot c) (tmpBowerRepo c) (bowerRepo c)
    (docsRoot c) (tmpDocsRepo c) (docsRepo c) (docsBuild c) (githubToken c)
    (altPkgRootFolder c) (skipBuildStep c) (defaultDryRun c) (argv c) b.

Definition with_githubToken (t : option string) (c : Config) : Config :=
  mkConfig (repoRoot c) (packagePath c) (isPrivate c) (isCommitsChangelogUsed c)
    (isWithinMtChangelog c) (bowerRoot c) (tmpBowerRepo c) (bowerRepo c)
    (docsRoot c) (tmpDocsRepo c) (docsRepo c) (docsBuild c) t
    (altPkgRootFolder c) (skipBuildStep c) (defaultDryRun c) (argv c) (dryRunMode c).

Definition usage : string :=
  "Usage: $0 <version> --run [--preid <identifier>]" +:+ nl +:+ "or" +:+ nl +:+
  "Usage: $0 --only-docs --run".

Definition versionBumpOptions (argv : Argv) : VersionBumpOptions :=
  mkVersionBumpOptions
    (a_positional argv)
    (if a_onlyDocs argv then Some "docs" else a_preid argv)
    (match truthy (a_tag argv) with Some t => Some t | None => a_preid argv end).

Section Script.
Context {W : Type} `{Host W}.

Definition printErrorAndExit {A} (error : string) : M W A :=
  console_error error ;; exit 1.

Definition run (command : string) : M W string :=
  '(code, output) ← exec command;
  (if negb (Z.eqb code 0) then printErrorAndExit output else ret tt) ;;
  ret output.

Definition safeRun (cfg : Config) (command : string) : M W (option string) :=
  if dryRunMode cfg then
    console_log (dry_line command) ;; ret None
  else
    output ← run command; ret (Some output).

Definition safeRm (cfg : Config) (args : list string) : M W unit :=
  if dryRunMode cfg then console_log (dry_line ("rm " +:+ join " " args))
  else rm [AArr args].

Definition runAndGitRevertOnError (cmd : string) : M W unit :=
  '(code, output) ← exec cmd;
  if negb (Z.eqb code 0) then
    console_log (dq +:+ cmd +:+ dq +:+ " command failed, reverting version bump") ;;
    run "git reset HEAD ." ;;
    run "git checkout package.json" ;;
    console_log "Version bump reverted" ;;
    printErrorAndExit output
  else ret tt.

Definition releaseAdRepo (cfg : Config)
    (repo srcFolder tmpFolder vVersion : option string) : M W unit :=
  match truthy repo, truthy srcFolder, truthy tmpFolder, truthy vVersion with
  | Some repo, Some srcFolder, Some tmpFolder, Some vVersion =>
      rm [AStr "-rf"; AStr tmpFolder] ;;
      run ("git clone " +:+ repo +:+ " " +:+ tmpFolder) ;;
      pushd tmpFolder ;;
      entries ← ls tmpFolder;
      rm [AStr "-rf"; AArr (filter (fun file => file ≠ ".git") entries)] ;;
      cp "-R" srcFolder tmpFolder ;;
      safeRun cfg "git add -A ." ;;
      safeRun cfg ("git commit -m " +:+ dq +:+ "Release " +:+ vVersion +:+ dq) ;;
      safeRun cfg ("git tag -a --message=" +:+ vVersion +:+ " " +:+ vVersion) ;;
      safeRun cfg "git push --follow-tags" ;;
      popd ;;
      safeRm cfg ["-rf"; tmpFolder]
  | _, _, _, _ =>
      printErrorAndExit
        "Bug error. Create github issue: releaseAdRepo - One of parameters is not set."
  end.

(** The callback of the POST.  It writes to the console; on an answer that
    is neither an error nor Unauthorized it reads [body.html_url], which
    throws when the answer has no body. *)
Definition githubCallback (githubToken : option string) (resp : Response) : M W unit :=
  match resp with
  | RespError err =>
      console_log "API request to GitHub, error has occured:" ;;
      console_log err ;;
      console_log "Skip GitHub releasing"
  | RespStatus statusMessage body =>
      if String.eqb statusMessage "Unauthorized" then
        console_log ("GitHub token " +:+ js_str githubToken +:+ " is wrong") ;;
        console_log "Skip GitHub releasing"
      else
        match body with
        | Some html_url => console_log ("Published at " +:+ html_url)
        | None => throw
        end
  end.

Definition publishToGitHub (cfg : Config) (preid : option string)
    (vVersion : string) : M W unit :=
  match truthy (githubToken cfg) with
  | Some token =>
      console_log ("GitHub token found " +:+ token) ;;
      console_log ("Publishing to GitHub: " +:+ vVersion) ;;
      if dryRunMode cfg then console_log (dry_line "publishing to GitHub")
      else
        npm ← gets npmjson;
        url ← match repository npm with
              | RepoString s => ret s
              | RepoObject (Some u) => if nonempty u then ret u else throw
              | RepoObject None => throw
              | RepoMissing => throw
              end;
        let parts := getOwnerAndRepo url in
        let githubOwner := parts !! 0%nat in
        let githubRepo := parts !! 1%nat in
        notes ← gets notesForRelease;
        request (mkRequest
          ("https://api.github.com/repos/" +:+ js_str githubOwner +:+ "/" +:+
           js_str githubRepo +:+ "/releases")
          vVersion
          (js_str githubRepo +:+ " " +:+ vVersion)
          notes
          false
          (is_truthy preid)
          ("token " +:+ token)
          "release-script (https://github.com/alexkval/release-script)")
  | None => ret tt
  end.

(** [npmjson.main.replace(new RegExp(altPkgRootFolder + '\/?'), '')]:
    [None] where the expression throws. *)
Definition regexp_replace_target (alt : string) (m : option string) : option string :=
  match m with
  | Some m => regexp_replace (alt +:+ "\/?") m
  | None => None
  end.

Definition publishToNpm (cfg : Config) (preid npmTagName : option string) : M W unit :=
  if isPrivate cfg then
    console_log "Package is private, skipping npm release"
  else
    console_log "Releasing: npm package" ;;
    let npmPublishCmd :=
      if is_truthy preid then "npm publish --tag " +:+ js_str npmTagName
      else "npm publish" in
    match truthy (altPkgRootFolder cfg) with
    | Some alt =>
        modify (fun s => set_npmjson (delete_build_fields (npmjson s)) s) ;;
        npm ← gets npmjson;
        m ← match regexp_replace_target alt (main npm) with
            | Some m' => ret m'
            | None => throw
            end;
        modify (fun s => set_npmjson (set_main m (npmjson s)) s) ;;
        npm' ← gets npmjson;
        to (json_stringify npm' +:+ nl) (path_join alt "package.json") ;;
        pushd alt ;;
        safeRun cfg npmPublishCmd ;;
        popd
    | None => safeRun cfg npmPublishCmd ;; ret tt
    end ;;
    console_log "Released: npm package".

Definition publishToBower (cfg : Config) (vVersion : string) : M W unit :=
  if isPrivate cfg then
    console_log "Package is private, skipping bower release"
  else if is_truthy (bowerRepo cfg) then
    console_log "Releasing: bower package" ;;
    releaseAdRepo cfg (bowerRepo cfg) (Some (bowerRoot cfg))
                  (Some (tmpBowerRepo cfg)) (Some vVersion) ;;
    console_log "Released: bower package"
  else
    console_log ("The " +:+ dq +:+ "bowerRepo" +:+ dq +:+
                 " is not set in package.json. Not publishing bower.").


(** The documents site block at the end of [release]. *)
Definition publishDocs (cfg : Config) (preid : option string)
    (vVersion : string) : M W unit :=
  if negb (isPrivate cfg) && negb (is_truthy preid) && is_truthy (docsRepo cfg) then
    console_log "Releasing: documents site" ;;
    releaseAdRepo cfg (docsRepo cfg) (Some (docsRoot cfg))
                  (Some (tmpDocsRepo cfg)) (Some vVersion) ;;
    console_log "Documents site has been released"
  else ret tt.

(** The checks at the head of [release]: arguments, clean tree, upstream. *)
Definition preflight (opts : VersionBumpOptions) : M W unit :=
  when (match type opts with
        | None => negb (is_truthy (preid opts))
        | Some _ => false
        end)
       (printErrorAndExit "Must specify version type or preid") ;;
  '(_, output) ← exec "git diff-index --name-only HEAD --";
  when (nonempty output) (printErrorAndExit "Git repository must be clean") ;;
  console_info "No pending changes" ;;
  exec "git fetch" ;;
  '(_, status) ← exec "git status -sb";
  match behind status with
  | Some n => printErrorAndExit ("Your repo is behind by " +:+ n +:+ " commits")
  | None => ret tt
  end ;;
  console_info "Current with latest changes from remote".

(** The version bump: the new version is stored in [npmjson], the
    manifest is written and staged.  The result is the new version. *)
Definition versionBump (cfg : Config) (opts : VersionBumpOptions) : M W string :=
  npm ← gets npmjson;
  let oldVersion := version npm in
  let nv := newVersion oldVersion (type opts) (preid opts) in
  modify (fun s => set_npmjson (set_version nv (npmjson s)) s) ;;
  npm' ← gets npmjson;
  to (json_stringify npm' +:+ nl) (packagePath cfg) ;;
  match oldVersion, nv with
  | Some o, Some n =>
      console_log ("Version changed from " +:+ o +:+ " to " +:+ n) ;;
      safeRun cfg "git add package.json" ;;
      ret n
  | _, _ => throw
  end.

(** [npm run test], then the build. *)
Definition testAndBuild (cfg : Config) : M W unit :=
  console_log ("Running: " +:+ dq +:+ "npm run test" +:+ dq) ;;
  modify (set_silent (negb (skipBuildStep cfg))) ;;
  runAndGitRevertOnError "npm run test" ;;
  modify (set_silent (negb (a_verbose (argv cfg)))) ;;
  console_log ("Completed: " +:+ dq +:+ "npm run test" +:+ dq) ;;
  if a_onlyDocs (argv cfg) && docsBuild cfg then
    console_log "Running: docs-build" ;;
    runAndGitRevertOnError "npm run docs-build" ;;
    console_log "Completed: docs-build"
  else
    npm ← gets npmjson;
    match scripts npm with
    | Some sc =>
        if script_build sc && negb (skipBuildStep cfg) then
          console_log "Running: build" ;;
          runAndGitRevertOnError "npm run build" ;;
          console_log "Completed: build"
        else
          console_log ("Skipping " +:+ dq +:+ "npm run build" +:+ dq +:+ " step.")
    | None => throw
    end.

Definition changelogCmd (cfg : Config) : string :=
  if isWithinMtChangelog cfg then "./bin/changelog" else "changelog".

Definition changelogArgs (preid : option string) : string :=
  if is_truthy preid then EmptyString else "--exclude-pre-releases".

(** The block under [// generate changelog]. *)
Definition generateChangelog (cfg : Config) (preid : option string)
    (versionAndNotes : string) : M W unit :=
  let changelog := path_join (repoRoot cfg) "CHANGELOG.md" in
  let changelogAlpha := path_join (repoRoot cfg) "CHANGELOG-alpha.md" in
  let changelogOutput := if is_truthy preid then changelogAlpha else changelog in
  when (isCommitsChangelogUsed cfg)
    (present ← test "-e" changelogAlpha;
     changelogAlphaRemovedFlag ←
       (if present then rm [AStr "-rf"; AStr changelogAlpha] ;; ret true
        else ret false);
     run (changelogCmd cfg +:+ " --title=" +:+ dq +:+ versionAndNotes +:+ dq +:+
          " --out " +:+ changelogOutput +:+ " " +:+ changelogArgs preid) ;;
     safeRun cfg ("git add " +:+ changelog) ;;
     when (is_truthy preid || changelogAlphaRemovedFlag)
          (safeRun cfg ("git add -A " +:+ changelogAlpha) ;; ret tt) ;;
     console_log "Generated Changelog").

(** Commit, tag and push. *)
Definition commitTagPush (cfg : Config) (preid : option string)
    (vVersion versionAndNotes : string) : M W unit :=
  safeRun cfg ("git commit -m " +:+ dq +:+ "Release " +:+ vVersion +:+ dq) ;;
  console_log ("Tagging: " +:+ vVersion) ;;
  (if isCommitsChangelogUsed cfg then
     notes ← run (changelogCmd cfg +:+ " --title=" +:+ dq +:+ versionAndNotes +:+ dq +:+ " -s");
     modify (set_notesForRelease (Some notes)) ;;
     safeRun cfg ("changelog --title=" +:+ dq +:+ versionAndNotes +:+ dq +:+ " " +:+
                  changelogArgs preid +:+ " -s | git tag -a -F - " +:+ vVersion)
   else
     safeRun cfg ("git tag -a --message=" +:+ dq +:+ versionAndNotes +:+ dq +:+ " " +:+
                  vVersion)) ;;
  safeRun cfg "git push --follow-tags" ;;
  console_log ("Tagged: " +:+ vVersion).

Definition release (cfg : Config) (opts : VersionBumpOptions) : M W unit :=
  let preid := preid opts in
  preflight opts ;;
  nv ← versionBump cfg opts;
  testAndBuild cfg ;;
  let vVersion := "v" +:+ nv in
  notes ← gets notesForRelease;
  let versionAndNotes :=
    match truthy notes with
    | Some n => vVersion +:+ " " +:+ n
    | None => vVersion
    end in
  modify (set_notesForRelease (Some versionAndNotes)) ;;
  generateChangelog cfg preid versionAndNotes ;;
  commitTagPush cfg preid vVersion versionAndNotes ;;
  when (negb (a_onlyDocs (argv cfg)))
       (publishToGitHub cfg preid vVersion ;;
        publishToNpm cfg preid (npmTagName opts) ;;
        publishToBower cfg vVersion) ;;
  publishDocs cfg preid vVersion ;;
  console_log ("Version v" +:+ nv +:+ " released!").

(** The statements of the script before the call of [release]. *)
Definition startup (token : option string) (argv : Argv)
    : M W (Config * VersionBumpOptions) :=
  repoRoot ← pwd;
  let packagePath := path_join repoRoot "package.json" in
  raw ← cat packagePath;
  npm ← match json_parse raw with Some n => ret n | None => throw end;
  modify (set_npmjson npm) ;;
  let used :=
    match devDependencies npm with
    | Some d => rf_changelog d || mt_changelog d
    | None => false
    end in
  installed ← which "changelog";
  when (used && negb installed)
       (printErrorAndExit
          ("The " +:+ dq +:+ "[rf|mt]-changelog" +:+ dq +:+ " package is present in " +:+
           dq +:+ "devDependencies" +:+ dq +:+ ", but it is not installed.")) ;;
  let isWithinMtChangelog :=
    match name npm with Some n => String.eqb n "mt-changelog" | None => false end in
  let configOptions :=
    match release_script npm with Some o => o | None => no_options end in
  let or_else (o : option string) (d : string) :=
    match truthy o with Some x => x | None => d end in
  let defaultDryRun :=
    match o_defaultDryRun configOptions with
    | Some v => negb (String.eqb v "false")
    | None => true
    end in
  modify (set_silent (negb (a_verbose argv))) ;;
  let opts := versionBumpOptions argv in
  when (match type opts, preid opts with None, None => true | _, _ => false end)
       (console_log ("Must provide either a version bump type, " +:+ dq +:+ "preid" +:+
                     dq +:+ " or " +:+ dq +:+ "--only-docs" +:+ dq) ;;
        console_log (yargs_help usage) ;;
        exit 1) ;;
  modify (set_notesForRelease (a_notes argv)) ;;
  let dryRunMode :=
    if a_run argv then false else a_dryRun argv || defaultDryRun in
  when dryRunMode
       (console_log "DRY RUN" ;;
        when defaultDryRun
             (console_log ("For actual running of your command please add " +:+ dq +:+
                           "--run" +:+ dq +:+ " option"))) ;;
  when (is_truthy (a_preid argv))
       (console_log (dq +:+ "--preid" +:+ dq +:+
                     " detected. Documents will not be published")) ;;
  when (a_onlyDocs argv && negb (is_truthy (a_preid argv)))
       (console_log "Publish only documents") ;;
  ret (mkConfig
         repoRoot packagePath (private npm) (used || isWithinMtChangelog)
         isWithinMtChangelog
         (path_join repoRoot (or_else (o_bowerRoot configOptions) "amd/"))
         (path_join repoRoot (or_else (o_tmpBowerRepo configOptions) "tmp-bower-repo"))
         (o_bowerRepo configOptions)
         (path_join repoRoot (or_else (o_docsRoot configOptions) "docs-built/"))
         (path_join repoRoot (or_else (o_tmpDocsRepo configOptions) "tmp-docs-repo"))
         (o_docsRepo configOptions)
         (match scripts npm with Some sc => script_docs_build sc | None => false end)
         token
         (o_altPkgRootFolder configOptions)
         (o_skipBuildStep configOptions)
         defaultDryRun argv dryRunMode,
       opts).

(** The script from its first statement to the return of [release]. *)
Definition script (token : option string) (argv : Argv) : M W unit :=
  '(cfg, opts) ← startup token argv;
  release cfg opts.

Definition init_state (w : W) : State W :=
  mkState w (mkNpm None None false None None None RepoMissing None false) None false.

Definition requests (evs : list Event) : list Request :=
  omap (fun e => match e with EvRequest r => Some r | _ => None end) evs.

(** The callbacks of the requests, in the order of the requests, each on
    the answer of the host. *)
Fixpoint callbacks (token : option string) (qs : list Request) : M W unit :=
  match qs with
  | [] => ret tt
  | q :: rest =>
      resp ← gets (fun s => http_response q (world s));
      githubCallback token resp ;;
      callbacks token rest
  end.

(** The process: the script runs to its end, then the callbacks of the
    requests it made run.  An [exit] or an uncaught exception, of the script
    or of a callback, ends the process at once. *)
Definition process (token : option string) (argv : Argv) (w : W) : Result W unit :=
  let r := script token argv (init_state w) in
  match outcome r with
  | Ret _ =>
      let c := callbacks token (requests (events r)) (final r) in
      mkResult (outcome c) (final c) (events r ++ events c)%list
  | Stop h => mkResult (Stop h) (final r) (events r)
  end.

End Script.
End V1.

(** ** [release.js], the variant with [--skip-version-bumping]

    The statements of that variant before its call of [release]. *)

Module V3.
Import Str Manifest Shell.
Local Open Scope sh_scope.

Record Config := mkConfig {
  repoRoot : string;
  packagePath : string;
  bowerjsonPath : string;
  bowerjson : option Npm;
  isPrivate : bool;
  isCommitsChangelogUsed : bool;
  isWithinMtChangelog : bool;
  bowerRoot : string;
  tmpBowerRepo : string;
  bowerRepo : option string;
  docsRoot : string;
  tmpDocsRepo : string;
  docsRepo : option string;
  docsBuild : bool;
  githubToken : option string;
  altPkgRootFolder : option string;
  skipBuildStep : bool;
  argv : Argv;
  dryRunMode : bool
}.

Definition usage : string :=
  "Usage: $0 <version> [--preid <identifier>]" +:+ nl +:+ "or" +:+ nl +:+
  "Usage: $0 --only-docs".

Section Script.
Context {W : Type} `{Host W}.

Definition startup (token : option string) (argv : Argv)
    : M W (Config * VersionBumpOptions) :=
  repoRoot ← pwd;
  let packagePath := path_join repoRoot "package.json" in
  let bowerjsonPath := path_join repoRoot "bower.json" in
  raw ← cat packagePath;
  npm ← match json_parse raw with Some n => ret n | None => throw end;
  modify (set_npmjson npm) ;;
  hasBower ← test "-f" bowerjsonPath;
  bowerjson ←
    (if hasBower then
       rawBower ← cat bowerjsonPath;
       match json_parse rawBower with Some b => ret (Some b) | None => throw end
     else ret None);
  let used :=
    match devDependencies npm with
    | Some d => rf_changelog d || mt_changelog d
    | None => false
    end in
  installed ← which "changelog";
  when (used && negb installed)
       (V1.printErrorAndExit
          ("The " +:+ dq +:+ "[rf|mt]-changelog" +:+ dq +:+ " package is present in " +:+
           dq +:+ "devDependencies" +:+ dq +:+ ", but it is not installed.")) ;;
  let isWithinMtChangelog :=
    match name npm with Some n => String.eqb n "mt-changelog" | None => false end in
  let configOptions :=
    match release_script npm with Some o => o | None => no_options end in
  let or_else (o : option string) (d : string) :=
    match truthy o with Some x => x | None => d end in
  modify (set_silent (negb (a_verbose argv))) ;;
  let opts := V1.versionBumpOptions argv in
  when (negb (a_skipVersionBumping argv) &&
        match type opts, preid opts with None, None => true | _, _ => false end)
       (console_log ("Must provide either a version bump type, " +:+ dq +:+ "preid" +:+
                     dq +:+ " or " +:+ dq +:+ "--only-docs" +:+ dq) ;;
        console_log (yargs_help usage) ;;
        exit 1) ;;
  modify (set_notesForRelease (a_notes argv)) ;;
  let dryRunMode := a_dryRun argv in
  when dryRunMode (console_log "DRY RUN") ;;
  when (is_truthy (a_preid argv))
       (console_log (dq +:+ "--preid" +:+ dq +:+
                     " detected. Documents will not be published")) ;;
  when (a_onlyDocs argv && negb (is_truthy (a_preid argv)))
       (console_log "Publish only documents") ;;
  ret (mkConfig
         repoRoot packagePath bowerjsonPath bowerjson (private npm)
         (used || isWithinMtChangelog) isWithinMtChangelog
         (path_join repoRoot (or_else (o_bowerRoot configOptions) "amd/"))
         (path_join repoRoot (or_else (o_tmpBowerRepo configOptions) "tmp-bower-repo"))
         (o_bowerRepo configOptions)
         (path_join repoRoot (or_else (o_docsRoot configOptions) "docs-built/"))
         (path_join repoRoot (or_else (o_tmpDocsRepo configOptions) "tmp-docs-repo"))
         (o_docsRepo configOptions)
         (match scripts npm with Some sc => script_docs_build sc | None => false end)
         token
         (o_altPkgRootFolder configOptions)
         (o_skipBuildStep configOptions)
         argv dryRunMode,
       opts).

End Script.
End V3.

(** ** [release.js], the first variant

    The variant without the documents site and without the [--run] switch:
    its dry-run mode is [argv.dryRun], it runs the tests before it bumps the
    version, and it pushes with [git push] and [git push --tags].
    [printErrorAndExit] and [run] are word for word those of the current
    variant. *)

Module V2.
Import Str Semver Manifest Shell.
Local Open Scope sh_scope.

Record Config := mkConfig {
  repoRoot : string;
  packagePath : string;
  changelog : string;
  isCommitsChangelogUsed : bool;
  bowerRoot : string;
  tmpBowerRepo : string;
  bowerRepo : option string;
  argv : Argv
}.

Definition usage : string := "Usage: $0 <version> [--preid <identifier>]".

Definition versionBumpOptions (argv : Argv) : VersionBumpOptions :=
  mkVersionBumpOptions (a_positional argv) (a_preid argv) None.

(** The pattern of the upstream check of this variant: an opening bracket,
    the word behind, a space, any text of the line, and a closing bracket. *)
Fixpoint behind (s : string) : option string :=
  match
    match strip_prefix "[behind " s with
    | Some rest => V1.before_last "]" (V1.line_head rest)
    | None => None
    end
  with
  | Some n => Some n
  | None =>
      match s with
      | EmptyString => None
      | String _ r => behind r
      end
  end.

Section Script.
Context {W : Type} `{Host W}.

Definition safeRun (cfg : Config) (command : string) : M W (option string) :=
  if a_dryRun (argv cfg) then
    console_log (V1.dry_line command) ;; ret None
  else
    output ← V1.run command; ret (Some output).

(** The statements of the script before the call of [release].
    [devDepsNode && devDepsNode['rf-changelog'] || devDepsNode['mt-changelog']]
    reads a key of [devDepsNode] also when there is none. *)
Definition startup (argv : Argv) : M W (Config * VersionBumpOptions) :=
  repoRoot ← pwd;
  let packagePath := path_join repoRoot "package.json" in
  let changelog := path_join repoRoot "CHANGELOG.md" in
  raw ← cat packagePath;
  npm ← match json_parse raw with Some n => ret n | None => throw end;
  modify (set_npmjson npm) ;;
  used ← match devDependencies npm with
         | Some d => ret (rf_changelog d || mt_changelog d)
         | None => throw
         end;
  installed ← which "changelog";
  when (used && negb installed)
       (V1.printErrorAndExit
          ("The " +:+ dq +:+ "[rf|mt]-changelog" +:+ dq +:+ " package is present in " +:+
           dq +:+ "devDependencies" +:+ dq +:+ ", but it is not installed.")) ;;
  let configOptions :=
    match release_script npm with Some o => o | None => no_options end in
  let or_else (o : option string) (d : string) :=
    match truthy o with Some x => x | None => d end in
  when (a_dryRun argv) (console_log "DRY RUN") ;;
  modify (set_silent (negb (a_verbose argv))) ;;
  let opts := versionBumpOptions argv in
  when (match type opts, preid opts with None, None => true | _, _ => false end)
       (console_log "Must provide either a version bump type, preid (or both)" ;;
        console_log (yargs_help usage) ;;
        exit 1) ;;
  ret (mkConfig
         repoRoot packagePath changelog used
         (path_join repoRoot (or_else (o_bowerRoot configOptions) "amd/"))
         (path_join repoRoot (or_else (o_tmpBowerRepo configOptions) "tmp-bower-repo"))
         (o_bowerRepo configOptions)
         argv,
       opts).

(** The checks at the head of [release]. *)
Definition preflight (opts : VersionBumpOptions) : M W unit :=
  when (match type opts with
        | None => negb (is_truthy (preid opts))
        | Some _ => false
        end)
       (V1.printErrorAndExit "Must specify version type or preid") ;;
  '(_, output) ← exec "git diff-index --name-only HEAD --";
  when (nonempty output) (V1.printErrorAndExit "Git repository must be clean") ;;
  console_info "No pending changes" ;;
  '(_, fetched) ← exec "git fetch";
  match behind fetched with
  | Some n => V1.printErrorAndExit ("Your repo is behind by " +:+ n +:+ " commits")
  | None => ret tt
  end ;;
  console_info "Current with latest changes from remote".

(** The block under [// check linting and tests]. *)
Definition lintAndTest : M W unit :=
  console_log "Running: linting and tests" ;;
  V1.run "npm run test" ;;
  console_log "Completed: linting and tests".

Definition versionBump (cfg : Config) (opts : VersionBumpOptions) : M W string :=
  npm ← gets npmjson;
  let oldVersion := version npm in
  let nv := V1.newVersion oldVersion (type opts) (preid opts) in
  modify (fun s => set_npmjson (set_version nv (npmjson s)) s) ;;
  npm' ← gets npmjson;
  to (json_stringify npm' +:+ nl) (packagePath cfg) ;;
  match oldVersion, nv with
  | Some o, Some n =>
      console_log ("Version changed from " +:+ o +:+ " to " +:+ n) ;;
      safeRun cfg "git add package.json" ;;
      ret n
  | _, _ => throw
  end.

(** The block under [// npm run build], with its revert. *)
Definition build : M W unit :=
  console_log "Running: build" ;;
  '(code, output) ← exec "npm run build";
  when (negb (Z.eqb code 0))
       (console_log "Build failed, reverting version bump" ;;
        V1.run "git reset HEAD ." ;;
        V1.run "git checkout package.json" ;;
        console_log "Version bump reverted" ;;
        V1.printErrorAndExit output) ;;
  console_log "Completed: build".

(** Changelog, commit, tag and the two pushes. *)
Definition commitTagPush (cfg : Config) (vVersion : string) : M W unit :=
  when (isCommitsChangelogUsed cfg)
       (V1.run ("changelog --title " +:+ vVersion +:+ " --out " +:+ changelog cfg) ;;
        safeRun cfg ("git add " +:+ changelog cfg) ;;
        console_log "Generated Changelog") ;;
  safeRun cfg ("git commit -m " +:+ dq +:+ "Release " +:+ vVersion +:+ dq) ;;
  console_log ("Tagging: " +:+ vVersion) ;;
  safeRun cfg ("changelog --title " +:+ vVersion +:+ " -s | git tag -a -F - " +:+ vVersion) ;;
  safeRun cfg "git push" ;;
  safeRun cfg "git push --tags" ;;
  console_log ("Tagged: " +:+ vVersion).

Definition publishToNpm (cfg : Config) : M W unit :=
  console_log "Releasing: npm package" ;;
  safeRun cfg "npm publish" ;;
  console_log "Released: npm package".

(** The block under [// bower]: the mirror protocol, written in line. *)
Definition publishToBower (cfg : Config) (vVersion : string) : M W unit :=
  match truthy (bowerRepo cfg) with
  | Some bowerRepo =>
      console_log "Releasing: bower package" ;;
      rm [AStr "-rf"; AStr (tmpBowerRepo cfg)] ;;
      V1.run ("git clone " +:+ bowerRepo +:+ " " +:+ tmpBowerRepo cfg) ;;
      pushd (tmpBowerRepo cfg) ;;
      entries ← ls (tmpBowerRepo cfg);
      rm [AStr "-rf"; AArr (filter (fun file => file ≠ ".git") entries)] ;;
      cp "-R" (bowerRoot cfg) (tmpBowerRepo cfg) ;;
      safeRun cfg "git add -A ." ;;
      safeRun cfg ("git commit -m " +:+ dq +:+ "Release " +:+ vVersion +:+ dq) ;;
      safeRun cfg ("git tag -a --message=" +:+ vVersion +:+ " " +:+ vVersion) ;;
      safeRun cfg "git push" ;;
      safeRun cfg "git push --tags" ;;
      popd ;;
      (if a_dryRun (argv cfg)
       then console_log (V1.dry_line ("rm -rf " +:+ tmpBowerRepo cfg))
       else rm [AStr "-rf"; AStr (tmpBowerRepo cfg)]) ;;
      console_log "Released: bower package"
  | None =>
      console_log ("The " +:+ dq +:+ "bowerRepo" +:+ dq +:+
                   " is not set in package.json. Not publishing bower.")
  end.

Definition release (cfg : Config) (opts : VersionBumpOptions) : M W unit :=
  preflight opts ;;
  lintAndTest ;;
  nv ← versionBump cfg opts;
  build ;;
  let vVersion := "v" +:+ nv in
  commitTagPush cfg vVersion ;;
  publishToNpm cfg ;;
  publishToBower cfg vVersion ;;
  console_log ("Version v" +:+ nv +:+ " released!").

(** The script from its first statement to the return of [release]. *)
Definition script (argv : Argv) : M W unit :=
  '(cfg, opts) ← startup argv;
  release cfg opts.

End Script.
End V2.

(** ** [release.js], the variant with [--skip-version-bumping]: the release

    The functions of that variant and the blocks of its [release].  Its
    [printErrorAndExit], [getOwnerAndRepo] and the text of its
    [runAndGitRevertOnError] and [releaseAdRepo] are those of the current
    variant; [run] and [safeRun] take a second argument, [skipError]. *)

Module V3R.
Import Str Semver Manifest Shell V3.
Local Open Scope sh_scope.

(** [npmjson.repository.url || npmjson.repository]: a string, or the
    [repository] object itself when it has no [url]. *)
Inductive RepoValue :=
| RString (s : string)
| RObject.

(** [s.indexOf(p) > -1] *)
Fixpoint includes (p s : string) : bool :=
  match strip_prefix p s with
  | Some _ => true
  | None =>
      match s with
      | EmptyString => false
      | String _ r => includes p r
      end
  end.

Section Script.
Context {W : Type} `{Host W}.

(** [gh(repo).clone_url] of [github-url-to-object]: [None] where [gh]
    returns [null]. *)
Variable gh_clone_url : RepoValue -> option string.

Definition run (command : string) (skipError : bool) : M W string :=
  '(code, output) ← exec command;
  when (negb (Z.eqb code 0) && negb skipError) (V1.printErrorAndExit output) ;;
  ret output.

Definition safeRun (cfg : Config) (command : string) (skipError : bool)
    : M W (option string) :=
  if dryRunMode cfg then
    console_log (V1.dry_line command) ;; ret None
  else
    output ← run command skipError; ret (Some output).

Definition safeRm (cfg : Config) (args : list string) : M W unit :=
  if dryRunMode cfg then console_log (V1.dry_line ("rm " +:+ join " " args))
  else rm [AArr args].

Definition runAndGitRevertOnError (cmd : string) : M W unit :=
  '(code, output) ← exec cmd;
  if negb (Z.eqb code 0) then
    console_log (dq +:+ cmd +:+ dq +:+ " command failed, reverting version bump") ;;
    run "git reset HEAD ." false ;;
    run "git checkout package.json" false ;;
    console_log "Version bump reverted" ;;
    V1.printErrorAndExit output
  else ret tt.

Definition releaseAdRepo (cfg : Config)
    (repo srcFolder tmpFolder vVersion : option string) : M W unit :=
  match truthy repo, truthy srcFolder, truthy tmpFolder, truthy vVersion with
  | Some repo, Some srcFolder, Some tmpFolder, Some vVersion =>
      rm [AStr "-rf"; AStr tmpFolder] ;;
      run ("git clone " +:+ repo +:+ " " +:+ tmpFolder) false ;;
      pushd tmpFolder ;;
      entries ← ls tmpFolder;
      rm [AStr "-rf"; AArr (filter (fun file => file ≠ ".git") entries)] ;;
      cp "-R" srcFolder tmpFolder ;;
      safeRun cfg "git add -A ." false ;;
      safeRun cfg ("git commit -m " +:+ dq +:+ "Release " +:+ vVersion +:+ dq) false ;;
      safeRun cfg ("git tag -a --message=" +:+ vVersion +:+ " " +:+ vVersion) false ;;
      safeRun cfg "git push --follow-tags" false ;;
      popd ;;
      safeRm cfg ["-rf"; tmpFolder]
  | _, _, _, _ =>
      V1.printErrorAndExit
        "Bug error. Create github issue: releaseAdRepo - One of parameters is not set."
  end.

(** The checks at the head of [release]. *)
Definition preflight : M W unit :=
  '(_, output) ← exec "git diff-index --name-only HEAD --";
  when (nonempty output) (V1.printErrorAndExit "Git repository must be clean") ;;
  console_info "No pending changes" ;;
  exec "git fetch" ;;
  '(_, status) ← exec "git status -sb";
  match V1.behind status with
  | Some n => V1.printErrorAndExit ("Your repo is behind by " +:+ n +:+ " commits")
  | None => ret tt
  end ;;
  console_info "Current with latest changes from remote".

(** The block under [// version bumping]. *)
Definition versionBump (cfg : Config) (opts : VersionBumpOptions) : M W string :=
  npm ← gets npmjson;
  let oldVersion := version npm in
  if a_skipVersionBumping (argv cfg) then
    match oldVersion with
    | Some o => console_log ("The version remains the same " +:+ o) ;; ret o
    | None => throw
    end
  else
    let nv := V1.newVersion oldVersion (type opts) (preid opts) in
    modify (fun s => set_npmjson (set_version nv (npmjson s)) s) ;;
    npm' ← gets npmjson;
    to (json_stringify npm' +:+ nl) (packagePath cfg) ;;
    match oldVersion, nv with
    | Some o, Some n =>
        console_log ("The version changed from " +:+ o +:+ " to " +:+ n) ;;
        safeRun cfg "git add package.json" false ;;
        ret n
    | _, _ => throw
    end.

(** The block under [if (npmjson.scripts)]. *)
Definition testAndBuild (cfg : Config) : M W unit :=
  npm ← gets npmjson;
  match scripts npm with
  | Some sc =>
      when (script_test sc && negb (a_skipTests (argv cfg)))
           (console_log ("Running: " +:+ dq +:+ "npm run test" +:+ dq) ;;
            modify (set_silent (negb (skipBuildStep cfg))) ;;
            runAndGitRevertOnError "npm run test" ;;
            modify (set_silent (negb (a_verbose (argv cfg)))) ;;
            console_log ("Completed: " +:+ dq +:+ "npm run test" +:+ dq)) ;;
      if a_onlyDocs (argv cfg) && docsBuild cfg then
        console_log "Running: docs-build" ;;
        runAndGitRevertOnError "npm run docs-build" ;;
        console_log "Completed: docs-build"
      else if script_build sc && negb (skipBuildStep cfg) then
        console_log "Running: build" ;;
        runAndGitRevertOnError "npm run build" ;;
        console_log "Completed: build"
      else
        console_log ("Skipping " +:+ dq +:+ "npm run build" +:+ dq +:+ " step.")
  | None => ret tt
  end.

Definition changelogCmd (cfg : Config) : string :=
  if isWithinMtChangelog cfg then "./bin/changelog" else "changelog".

(** The block under [// generate changelog]. *)
Definition generateChangelog (cfg : Config) (preid : option string)
    (versionAndNotes : string) : M W unit :=
  let changelog := path_join (repoRoot cfg) "CHANGELOG.md" in
  let changelogAlpha := path_join (repoRoot cfg) "CHANGELOG-alpha.md" in
  let changelogOutput := if is_truthy preid then changelogAlpha else changelog in
  when (isCommitsChangelogUsed cfg)
    (present ← test "-e" changelogAlpha;
     changelogAlphaRemovedFlag ←
       (if present then rm [AStr "-rf"; AStr changelogAlpha] ;; ret true
        else ret false);
     run (changelogCmd cfg +:+ " --title=" +:+ dq +:+ versionAndNotes +:+ dq +:+
          " --out " +:+ changelogOutput +:+ " " +:+ V1.changelogArgs preid) false ;;
     safeRun cfg ("git add " +:+ changelog) false ;;
     when (is_truthy preid || changelogAlphaRemovedFlag)
          (safeRun cfg ("git add -A " +:+ changelogAlpha) false ;; ret tt) ;;
     console_log "The changelog has been generated").

(** Commit, tag and push. *)
Definition commitTagPush (cfg : Config) (preid : option string)
    (vVersion versionAndNotes : string) : M W unit :=
  safeRun cfg ("git commit -m " +:+ dq +:+ "Release " +:+ vVersion +:+ dq) false ;;
  console_log ("Tagging: " +:+ vVersion) ;;
  (if isCommitsChangelogUsed cfg then
     notes ← run (changelogCmd cfg +:+ " --title=" +:+ dq +:+ versionAndNotes +:+ dq +:+
                  " -s") false;
     modify (set_notesForRelease (Some notes)) ;;
     safeRun cfg ("changelog --title=" +:+ dq +:+ versionAndNotes +:+ dq +:+ " " +:+
                  V1.changelogArgs preid +:+ " -s | git tag -a -F - " +:+ vVersion) false
   else
     safeRun cfg ("git tag -a --message=" +:+ dq +:+ versionAndNotes +:+ dq +:+ " " +:+
                  vVersion) false) ;;
  safeRun cfg "git push --follow-tags" false ;;
  console_log ("Tagged: " +:+ vVersion).

(** [const repo = npmjson.repository.url || npmjson.repository], an
    exception when the manifest has no [repository]. *)
Definition repositoryOf : M W RepoValue :=
  npm ← gets npmjson;
  match repository npm with
  | RepoString s => ret (RString s)
  | RepoObject (Some u) => if nonempty u then ret (RString u) else ret RObject
  | RepoObject None => ret RObject
  | RepoMissing => throw
  end.

(** The callback of the POST.  It writes to the console; on an answer that
    is neither an error nor Unauthorized it reads [body.html_url], which
    throws when the answer has no body. *)
Definition githubCallback (githubToken : option string) (resp : Response) : M W unit :=
  match resp with
  | RespError err =>
      console_log "API request to GitHub, error has occured:" ;;
      console_log err ;;
      console_log "Skipping GitHub releasing"
  | RespStatus statusMessage body =>
      if String.eqb statusMessage "Unauthorized" then
        console_log ("GitHub token " +:+ js_str githubToken +:+ " is wrong") ;;
        console_log "Skipping GitHub releasing"
      else
        match body with
        | Some html_url => console_log ("Published at " +:+ html_url)
        | None => throw
        end
  end.

Definition publishToGitHub (cfg : Config) (preid : option string)
    (vVersion : string) (repo : RepoValue) : M W unit :=
  match truthy (githubToken cfg) with
  | Some token =>
      console_log ("GitHub token found " +:+ token) ;;
      console_log ("Publishing to GitHub: " +:+ vVersion) ;;
      if dryRunMode cfg then console_log (V1.dry_line "publishing to GitHub")
      else
        url ← match repo with
              | RString s => ret s
              | RObject => throw
              end;
        let parts := V1.getOwnerAndRepo url in
        let githubOwner := parts !! 0%nat in
        let githubRepo := parts !! 1%nat in
        notes ← gets notesForRelease;
        request (mkRequest
          ("https://api.github.com/repos/" +:+ js_str githubOwner +:+ "/" +:+
           js_str githubRepo +:+ "/releases")
          vVersion
          (js_str githubRepo +:+ " " +:+ vVersion)
          notes
          false
          (is_truthy preid)
          ("token " +:+ token)
          "release-script (https://github.com/alexkval/release-script)")
  | None => ret tt
  end.

Definition publishToNpm (cfg : Config) (preid npmTagName : option string) : M W unit :=
  if isPrivate cfg then
    console_log "Package is private, skipping npm release"
  else
    console_log "Releasing: npm package" ;;
    let npmPublishCmd :=
      if is_truthy preid then "npm publish --tag " +:+ js_str npmTagName
      else "npm publish" in
    match truthy (altPkgRootFolder cfg) with
    | Some alt =>
        modify (fun s => set_npmjson (delete_build_fields (npmjson s)) s) ;;
        npm ← gets npmjson;
        m ← match V1.regexp_replace_target alt (main npm) with
            | Some m' => ret m'
            | None => throw
            end;
        modify (fun s => set_npmjson (set_main m (npmjson s)) s) ;;
        npm' ← gets npmjson;
        to (json_stringify npm' +:+ nl) (path_join alt "package.json") ;;
        pushd alt ;;
        safeRun cfg npmPublishCmd false ;;
        popd
    | None => safeRun cfg npmPublishCmd false ;; ret tt
    end ;;
    console_log "Released: npm package".

(** The block under [// bower (separate repo)]. *)
Definition publishToBower (cfg : Config) (vVersion : string) : M W unit :=
  if isPrivate cfg then
    console_log "Package is private, skipping bower release"
  else if is_truthy (bowerRepo cfg) then
    console_log "Releasing: bower package" ;;
    releaseAdRepo cfg (bowerRepo cfg) (Some (bowerRoot cfg))
                  (Some (tmpBowerRepo cfg)) (Some vVersion) ;;
    console_log "Released: bower package"
  else
    console_log ("The " +:+ dq +:+ "bowerRepo" +:+ dq +:+
                 " is not set in package.json. Skipping Bower package publishing.").

(** The block under [// bower (register package ...)]: [safeRun] is called
    with [skipError], and [indexOf] is called on what it returns. *)
Definition registerBower (cfg : Config) (repo : RepoValue) : M W unit :=
  match bowerjson cfg with
  | Some bower =>
      if private bower then
        console_log "Package is private, skipping bower registration"
      else
        installed ← which "bower";
        if negb installed then
          console_log "Bower is not installed globally, skipping bower registration"
        else
          console_log "Registering: bower package" ;;
          clone_url ← match gh_clone_url repo with
                      | Some u => ret u
                      | None => throw
                      end;
          output ← safeRun cfg ("bower register " +:+ js_str (name bower) +:+ " " +:+
                                clone_url) true;
          match output with
          | Some output =>
              if includes "EDUPLICATE" output then
                console_log "Package already registered"
              else if negb (includes "registered successfully" output) then
                console_log "Error registering package, details:" ;;
                console_log output
              else
                console_log "Registered: bower package"
          | None => throw
          end
  | None => ret tt
  end.

(** The documents site block at the end of [release]. *)
Definition publishDocs (cfg : Config) (preid : option string)
    (vVersion : string) : M W unit :=
  if negb (isPrivate cfg) && negb (is_truthy preid) && is_truthy (docsRepo cfg) then
    console_log "Releasing: documents site" ;;
    releaseAdRepo cfg (docsRepo cfg) (Some (docsRoot cfg))
                  (Some (tmpDocsRepo cfg)) (Some vVersion) ;;
    console_log "Documents site has been released"
  else ret tt.

Definition release (cfg : Config) (opts : VersionBumpOptions) : M W unit :=
  let preid := preid opts in
  preflight ;;
  nv ← versionBump cfg opts;
  testAndBuild cfg ;;
  let vVersion := "v" +:+ nv in
  notes ← gets notesForRelease;
  let versionAndNotes :=
    match truthy notes with
    | Some n => vVersion +:+ " " +:+ n
    | None => vVersion
    end in
  modify (set_notesForRelease (Some versionAndNotes)) ;;
  generateChangelog cfg preid versionAndNotes ;;
  commitTagPush cfg preid vVersion versionAndNotes ;;
  when (negb (a_onlyDocs (argv cfg)))
       (repo ← repositoryOf;
        publishToGitHub cfg preid vVersion repo ;;
        publishToNpm cfg preid (npmTagName opts) ;;
        publishToBower cfg vVersion ;;
        registerBower cfg repo) ;;
  publishDocs cfg preid vVersion ;;
  console_log ("Version v" +:+ nv +:+ " released!").

End Script.
End V3R.

(** * What the properties say about a run

    The vocabulary of the properties below: the commands of the gate, the
    commands of the gateway, and what is asked of the version-control tool
    and of the file system where a property depends on them. *)

Module Contracts.
Import Str Manifest Shell V1.

(** The commands [runAndGitRevertOnError] is called with. *)
Definition gate_commands : list string :=
  ["npm run test"; "npm run docs-build"; "npm run build"].

(** A command of the gate that was executed and returned a non-zero exit
    code. *)
Definition gate_failure (e : Event) : bool :=
  match e with
  | EvExec c code => existsb (String.eqb c) gate_commands && negb (code =? 0)%Z
  | _ => false
  end.

(** A gate failed in a run with these events. *)
Definition gate_failed (evs : list Event) : Prop :=
  exists e, e ∈ evs /\ gate_failure e = true.

(** The run ends with a failed gate command and the revert: the failure is
    reported, the index is reset, the manifest is checked out, and the output
    of the failed command is printed. *)
Definition reverted (evs : list Event) : Prop :=
  exists pre c code out,
    gate_failure (EvExec c code) = true /\
    evs = (pre ++
           [EvExec c code;
            EvLog (dq +:+ c +:+ dq +:+ " command failed, reverting version bump");
            EvExec "git reset HEAD ." 0;
            EvExec "git checkout package.json" 0;
            EvLog "Version bump reverted";
            EvError out])%list.

Definition starts_with (p s : string) : bool :=
  match strip_prefix p s with Some _ => true | None => false end.

(** The commands of the version-control tool and of the registry that the
    script hands to [safeRun]. *)
Definition is_gated (c : string) : bool :=
  starts_with "git add " c || starts_with "git commit " c ||
  starts_with "git tag " c || String.eqb c "git push --follow-tags" ||
  starts_with "npm publish" c.

(** The commands the script hands to [safeRun]: those, and the pipeline
    that tags with the notes of the changelog. *)
Inductive gated : string -> Prop :=
| gated_tool c : is_gated c = true -> gated c
| gated_tag_notes title args v :
    gated ("changelog --title=" +:+ dq +:+ title +:+ dq +:+ " " +:+ args +:+
           " -s | git tag -a -F - " +:+ v).

(** The commands the script runs outside the gateway once the version bump
    is staged, the two of the revert apart: the gate, the changelog tool in
    its two forms, and the clone of a mirror. *)
Inductive ungated : string -> Prop :=
| ungated_gate c : c ∈ gate_commands -> ungated c
| ungated_changelog_out cmd title out args :
    cmd ∈ ["changelog"; "./bin/changelog"] ->
    ungated (cmd +:+ " --title=" +:+ dq +:+ title +:+ dq +:+ " --out " +:+ out +:+
             " " +:+ args)
| ungated_changelog_notes cmd title :
    cmd ∈ ["changelog"; "./bin/changelog"] ->
    ungated (cmd +:+ " --title=" +:+ dq +:+ title +:+ dq +:+ " -s")
| ungated_clone repo tmp : ungated ("git clone " +:+ repo +:+ " " +:+ tmp).

(** The commands that run between the clean-tree check and a revert. *)
Definition before_commit : list string :=
  ["git fetch"; "git status -sb"; "git add package.json";
   "npm run test"; "npm run docs-build"; "npm run build"; "git reset HEAD ."].

(** An event that belongs to a run of [releaseAdRepo] for the documents
    site, or to any run of it. *)
Definition mirror_event (e : Event) : bool :=
  match e with
  | EvLog s => String.eqb s "Releasing: documents site"
               || String.eqb s "Documents site has been released"
  | EvExec c _ => starts_with "git clone " c
  | EvCp _ _ _ => true
  | EvPushd _ => true
  | EvPopd => true
  | _ => false
  end.

(** The commands a run executed, in order. *)
Definition executed (evs : list Event) : list string :=
  omap (fun e => match e with EvExec c _ => Some c | _ => None end) evs.

(** The command of a line that [safeRun] or [safeRm] prints in a dry run. *)
Definition plan_of (line : string) : option string :=
  rest ← strip_prefix "[" line; strip_suffix "] DRY RUN" rest.

(** The plans a run printed, in order. *)
Definition planned (evs : list Event) : list string :=
  omap (fun e => match e with EvLog line => plan_of line | _ => None end) evs.

Definition is_console (e : Event) : bool :=
  match e with
  | EvLog _ | EvError _ => true
  | _ => false
  end.

Definition is_error (e : Event) : bool :=
  match e with
  | EvError _ => true
  | _ => false
  end.

(** *** The predicates of the properties *)

(** Neither an event of the mirror protocol nor a request. *)
Definition quiet (e : Event) : Prop :=
  mirror_event e = false /\ forall r, e <> EvRequest r.

(** Not a failure of the gate. *)
Definition calm (e : Event) : Prop := gate_failure e = false.

(** The manifest lists one of the two changelog tools. *)
Definition declares_changelog (npm : Npm) : bool :=
  match devDependencies npm with
  | Some d => rf_changelog d || mt_changelog d
  | None => false
  end.

Definition tool_missing_line : string :=
  "The " +:+ dq +:+ "[rf|mt]-changelog" +:+ dq +:+ " package is present in " +:+
  dq +:+ "devDependencies" +:+ dq +:+ ", but it is not installed.".

Definition usage_error_line : string :=
  "Must provide either a version bump type, " +:+ dq +:+ "preid" +:+
  dq +:+ " or " +:+ dq +:+ "--only-docs" +:+ dq.

(** The manifest names the address of a repository: [repository] is a
    string, or an object with a non-empty [url]. *)
Definition names_repository (npm : Npm) : bool :=
  match repository npm with
  | RepoString _ => true
  | RepoObject (Some u) => nonempty u
  | RepoObject None => false
  | RepoMissing => false
  end.

(** An answer of the host that refuses the release: a transport error, or
    the status Unauthorized. *)
Definition refused (resp : Response) : bool :=
  match resp with
  | RespError _ => true
  | RespStatus statusMessage _ => String.eqb statusMessage "Unauthorized"
  end.

(** A request to the host. *)
Definition is_request (e : Event) : bool :=
  match e with
  | EvRequest _ => true
  | _ => false
  end.

Section Classes.
Context {W : Type} `{Host W}.

(** The version-control tool, for a manifest at [p] that it tracks:
    [committed] is the manifest in the last commit, [staged] the manifest in
    the index. *)
Class GitContract (p : string) := {
  committed : W -> string;
  staged : W -> string;
  (** the clean-tree check reads; an empty answer says the manifest is as
      committed *)
  git_diff_index : forall w,
    let r := sh_exec "git diff-index --name-only HEAD --" w in
    sh_cat p r.2 = sh_cat p w /\
    (nonempty r.1.2 = false -> committed r.2 = sh_cat p w);
  (** nothing that runs before the commit moves the last commit *)
  git_head_kept : forall c w,
    c ∈ before_commit -> committed (sh_exec c w).2 = committed w;
  git_head_kept_to : forall path content w,
    committed (sh_to path content w) = committed w;
  (** [git reset HEAD .] makes the index that of the last commit *)
  git_reset : forall w,
    let r := sh_exec "git reset HEAD ." w in
    r.1.1 = 0%Z /\ staged r.2 = committed w;
  (** [git checkout package.json] restores the manifest from the index *)
  git_checkout : forall w,
    let r := sh_exec "git checkout package.json" w in
    r.1.1 = 0%Z /\ sh_cat p r.2 = staged w
}.

(** Two worlds that differ by what the gateway holds back in a dry run: [R]
    holds of a world and itself, and is kept by every operation on files
    and directories done to both.  The commands the script runs outside the
    gateway after the version bump give the same on both, and so do the two
    commands of the revert, one after the other; the listing of a scratch
    directory and the test of a watched path read the same on both.  A
    successful command of the gateway, or the removal of a scratch directory
    through the gateway, done to the second world alone keeps them related.
    Nothing is asked of the other commands: the checks at the head of the
    release run before the two runs differ. *)
Class DryRunContract (R : W -> W -> Prop) (scratch watched : string -> Prop) := {
  dr_refl : forall w, R w w;
  dr_exec : forall c w1 w2, ungated c -> R w1 w2 ->
    (sh_exec c w1).1 = (sh_exec c w2).1 /\ R (sh_exec c w1).2 (sh_exec c w2).2;
  dr_revert : forall w1 w2, R w1 w2 ->
    let r1 := sh_exec "git reset HEAD ." w1 in
    let r2 := sh_exec "git reset HEAD ." w2 in
    r1.1 = r2.1 /\ R r1.2 r2.2 /\
    (r1.1.1 = 0%Z ->
     let c1 := sh_exec "git checkout package.json" r1.2 in
     let c2 := sh_exec "git checkout package.json" r2.2 in
     c1.1 = c2.1 /\ R c1.2 c2.2);
  dr_rm : forall args w1 w2, R w1 w2 -> R (sh_rm args w1) (sh_rm args w2);
  dr_cp : forall o s d w1 w2, R w1 w2 -> R (sh_cp o s d w1) (sh_cp o s d w2);
  dr_pushd : forall d w1 w2, R w1 w2 -> R (sh_pushd d w1) (sh_pushd d w2);
  dr_popd : forall w1 w2, R w1 w2 -> R (sh_popd w1) (sh_popd w2);
  dr_to : forall p c w1 w2, R w1 w2 -> R (sh_to p c w1) (sh_to p c w2);
  dr_ls : forall d w1 w2, scratch d -> R w1 w2 -> sh_ls d w1 = sh_ls d w2;
  dr_test : forall o p w1 w2, watched p -> R w1 w2 -> sh_test o p w1 = sh_test o p w2;
  dr_gated_exec : forall c w1 w2,
    gated c -> R w1 w2 -> (sh_exec c w2).1.1 = 0%Z -> R w1 (sh_exec c w2).2;
  dr_gated_rm : forall d w1 w2,
    scratch d -> R w1 w2 -> R w1 (sh_rm [AArr ["-rf"; d]] w2)
}.

End Classes.

Arguments GitContract W {_} p.
Arguments DryRunContract W {_} R scratch watched.

Section Predicates.
Context {W : Type} `{Host W}.

(** When the gate failed, the run ended with exit code 1, with the manifest
    [p] holding [m0], by the revert. *)
Definition restored (p m0 : string) (h : Halt) (s : State W) (evs : list Event) : Prop :=
  gate_failed evs -> h = Exit 1 /\ sh_cat p (world s) = m0 /\ reverted evs.

(** The committed manifest is [m0]. *)
Definition head_is (p : string) `{!GitContract W p} (m0 : string) (s : State W) : Prop :=
  committed (world s) = m0.

(** The manifest [p] on disk is [m0]. *)
Definition on_disk (p m0 : string) (s : State W) : Prop := sh_cat p (world s) = m0.

End Predicates.

End Contracts.

(** * Reasoning about runs *)

Module Logic.
Import Str Manifest Shell V1 Contracts.

Section Unary.
Context {W : Type} `{Host W}.

(** Every event of [m], from any state and however it ends, satisfies [phi]. *)
Definition emits {A} (phi : Event -> Prop) (m : M W A) : Prop :=
  forall s, Forall phi (events (m s)).

(** From a state in [P]: when [m] returns, [Q] holds and the events satisfy
    [phi]; when it stops early, [X] holds of how it stopped. *)
Definition triple {A} (P : State W -> Prop) (m : M W A) (phi : Event -> Prop)
    (Q : A -> State W -> Prop) (X : Halt -> State W -> list Event -> Prop) : Prop :=
  forall s, P s ->
    match outcome (m s) with
    | Ret a => Q a (final (m s)) /\ Forall phi (events (m s))
    | Stop h => X h (final (m s)) (events (m s))
    end.

(** A result, after the events [evs]. *)
Definition prepend {A} (evs : list Event) (r : Result W A) : Result W A :=
  mkResult (outcome r) (final r) (evs ++ events r)%list.

(** Whatever [m] returns satisfies [Q]. *)
Definition returns {A} (m : M W A) (Q : A -> Prop) : Prop :=
  forall s a, outcome (m s) = Ret a -> Q a.

(** [m] leaves the world as it is. *)
Definition keeps_world {A} (m : M W A) : Prop :=
  forall s, world (final (m s)) = world s.

(** From a state in [P], when [m] returns, [Q] holds. *)
Definition hoare {A} (P : State W -> Prop) (m : M W A) (Q : A -> State W -> Prop) : Prop :=
  triple P m (fun _ => True) Q (fun _ _ _ => True).

(** [X] does not look at a prefix of events that satisfy [phi]. *)
Definition stable (phi : Event -> Prop)
    (X : Halt -> State W -> list Event -> Prop) : Prop :=
  forall h s e1 e2, Forall phi e1 -> X h s e2 -> X h s (e1 ++ e2)%list.

End Unary.

Section Relational.
Context {W : Type} `{Host W}.
Variable R : W -> W -> Prop.

(** The states of two runs that the script cannot tell apart. *)
Definition state_rel (sd sl : State W) : Prop :=
  R (world sd) (world sl) /\ npmjson sd = npmjson sl /\
  notesForRelease sd = notesForRelease sl /\ silent sd = silent sl.

(** An event of the dry run and the event of the live run it stands for:
    the same event, or the printed plan of a gated action and the action. *)
Inductive ev_rel : Event -> Event -> Prop :=
| ev_same e : ev_rel e e
| ev_run c : ev_rel (EvLog (dry_line c)) (EvExec c 0)
| ev_rm args : ev_rel (EvLog (dry_line ("rm " +:+ join " " args))) (EvRm [AArr args])
| ev_post r : ev_rel (EvLog (dry_line "publishing to GitHub")) (EvRequest r).

(** The live run stopped where the dry run went on: up to there the two
    runs agree, and the live run ends with the failing gated command and the
    error it prints, or with nothing more when it is an exception. *)
Definition cut_short (ed el : list Event) : Prop :=
  exists p el1 tail,
    p `prefix_of` ed /\ Forall2 ev_rel p el1 /\ el = (el1 ++ tail)%list /\
    (tail = [] \/
     exists c code out, code <> 0%Z /\ gated c /\
       tail = [EvExec c code; EvError out] /\
       (p ++ [EvLog (dry_line c)])%list `prefix_of` ed).

(** How two runs end alike: both return, with related values, or both stop
    the same way. *)
Definition outcome_rel {A B} (Rv : A -> B -> Prop) (od : Outcome A) (ol : Outcome B) : Prop :=
  match od, ol with
  | Ret a, Ret b => Rv a b
  | Stop h, Stop h' => h = h'
  | _, _ => False
  end.

(** The dry run and the live run agree to their ends, or the live run was
    cut short. *)
Definition result_rel {A B} (Rv : A -> B -> Prop) (rd : Result W A) (rl : Result W B) : Prop :=
  (outcome_rel Rv (outcome rd) (outcome rl) /\ state_rel (final rd) (final rl) /\
   Forall2 ev_rel (events rd) (events rl))
  \/ (exists h, outcome rl = Stop h /\ cut_short (events rd) (events rl)).

(** [md] in the dry run and [ml] in the live run correspond. *)
Definition sim {A B} (Rv : A -> B -> Prop) (md : M W A) (ml : M W B) : Prop :=
  forall sd sl, state_rel sd sl -> result_rel Rv (md sd) (ml sl).

End Relational.

End Logic.

(** ** Classes of events and of runs

    The vocabulary of the further properties of the script. *)

Module Traces.
Import Str Manifest Shell V1 Contracts Logic.

Definition mem (c : string) (l : list string) : bool := existsb (String.eqb c) l.

(** The three commands at the head of [release] that ask the
    version-control tool and change nothing. *)
Definition preflight_queries : list string :=
  ["git diff-index --name-only HEAD --"; "git fetch"; "git status -sb"].

(** Printing, and asking the version-control tool. *)
Definition readonly (e : Event) : bool :=
  match e with
  | EvLog _ | EvError _ => true
  | EvExec c _ => mem c preflight_queries
  | _ => false
  end.

(** What the current variant does up to the end of its test step: it
    prints, asks the version-control tool, writes and stages the manifest,
    runs the tests, and reverts. *)
Definition early (e : Event) : bool :=
  match e with
  | EvLog _ | EvError _ | EvTo _ _ => true
  | EvExec c _ =>
      mem c (preflight_queries ++
             ["git add package.json"; "npm run test";
              "git reset HEAD ."; "git checkout package.json"])
  | _ => false
  end.

(** What the first variant does up to the end of its test step: it prints,
    asks the version-control tool and runs the tests. *)
Definition early_v2 (e : Event) : bool :=
  match e with
  | EvLog _ | EvError _ => true
  | EvExec c _ =>
      mem c ["git diff-index --name-only HEAD --"; "git fetch"; "npm run test"]
  | _ => false
  end.

(** A step that a dry run is to leave out: staging, committing, tagging,
    pushing, publishing to npm, the request to the host, and the call of
    [rm] that [safeRm] makes. *)
Definition unsafe (e : Event) : bool :=
  match e with
  | EvExec c _ =>
      starts_with "git add " c || starts_with "git commit " c ||
      starts_with "git tag " c || starts_with "git push" c ||
      starts_with "npm publish" c
  | EvRequest _ => true
  | EvRm [AArr _] => true
  | _ => false
  end.

(** [npm publish], run or planned. *)
Definition npm_publish (e : Event) : bool :=
  match e with
  | EvExec c _ => starts_with "npm publish" c
  | EvLog line => starts_with "[npm publish" line
  | _ => false
  end.

(** An event of a run in which nothing failed: no error line, and no
    command with a non-zero exit code, the three queries apart, whose exit
    codes the script does not read. *)
Definition clean (e : Event) : bool :=
  match e with
  | EvExec c code => mem c preflight_queries || (code =? 0)%Z
  | EvError _ => false
  | _ => true
  end.

(** The command that publishes to npm, by the command line: the tag is
    [--tag], and the pre-release identifier without it. *)
Definition npm_publish_command (argv : Argv) : string :=
  match truthy (a_preid argv) with
  | Some id =>
      "npm publish --tag " +:+
      match truthy (a_tag argv) with Some t => t | None => id end
  | None => "npm publish"
  end.

(** A run of the tests. *)
Definition runs_tests (e : Event) : bool :=
  match e with
  | EvExec c _ => String.eqb c "npm run test"
  | _ => false
  end.

(** A call of [String.prototype.to], the one way in which the script itself
    writes a file; what the commands it runs, [cp] and the clones write is
    not an event of this kind. *)
Definition calls_to (e : Event) : bool :=
  match e with
  | EvTo _ _ => true
  | _ => false
  end.

Section Runs.
Context {W : Type} `{Host W}.

(** In every run of [m] the event [e0] occurs, or all events satisfy [phi]. *)
Definition until {A} (phi : Event -> Prop) (e0 : Event) (m : M W A) : Prop :=
  forall s, e0 ∈ events (m s) \/ Forall phi (events (m s)).

(** A run of [m] that returns has the event [e0]. *)
Definition seen {A} (e0 : Event) (m : M W A) : Prop :=
  forall s a, outcome (m s) = Ret a -> e0 ∈ events (m s).

(** The events of a run of [m] that returns satisfy [phi]. *)
Definition completes {A} (phi : Event -> Prop) (m : M W A) : Prop :=
  forall s a, outcome (m s) = Ret a -> Forall phi (events (m s)).

(** A run of [m] that returns has an event in [phi]. *)
Definition happens {A} (phi : Event -> bool) (m : M W A) : Prop :=
  forall s a, outcome (m s) = Ret a -> Exists (fun e => phi e = true) (events (m s)).

(** Two results that end alike: the same outcome in the same state. *)
Definition ends_alike {A} (r1 r2 : Result W A) : Prop :=
  outcome r1 = outcome r2 /\ final r1 = final r2.

(** [m] leaves [f] of the state as it is. *)
Definition keeps {A B} (f : State W -> B) (m : M W A) : Prop :=
  forall s, f (final (m s)) = f s.

(** [m] stops by [exit(1)] or by an exception, when it stops. *)
Definition stops_with_one {A} (m : M W A) : Prop :=
  forall s h, outcome (m s) = Stop h -> exit_status (Stop (A:=A) h) = 1%Z.

(** From a state in [P], [m] does not return, and its events satisfy [phi]. *)
Definition never {A} (P : State W -> Prop) (phi : Event -> Prop) (m : M W A) : Prop :=
  triple P m phi (fun _ _ => False) (fun _ _ evs => Forall phi evs).

(** [m] does not end with an exception. *)
Definition no_crash {A} (m : M W A) : Prop :=
  forall s, outcome (m s) <> Stop Crash.

End Runs.
End Traces.

(** * A small world

    A world in which the script can be run: a file system of regular files
    and of flat directories, a version-control tool that knows the manifest
    only, and a mirror repository.  It serves to run the script on concrete
    inputs; the properties below do not depend on it. *)

Module Toy.
Import Str Manifest Shell Contracts.

Record World := mkWorld {
  files : gmap string string;
  dirs : gmap string (gmap string string);
  stack : list string;
  index : string;
  head : string;
  remote : gmap string string;
  ran : list string
}.

Record Params := mkParams {
  failing : list string;
  with_index : bool;
  response : Response
}.

Definition root : string := "/repo".
Definition manifest_path : string := "/repo/package.json".

Definition manifest (w : World) : string :=
  match files w !! manifest_path with Some c => c | None => EmptyString end.

Definition entries (d : string) (w : World) : gmap string string :=
  match dirs w !! d with Some m => m | None => ∅ end.

Definition current (w : World) : string :=
  match stack w with d :: _ => d | [] => root end.

Definition set_files (f : gmap string string) (w : World) : World :=
  mkWorld f (dirs w) (stack w) (index w) (head w) (remote w) (ran w).
Definition set_dirs (d : gmap string (gmap string string)) (w : World) : World :=
  mkWorld (files w) d (stack w) (index w) (head w) (remote w) (ran w).
Definition set_stack (s : list string) (w : World) : World :=
  mkWorld (files w) (dirs w) s (index w) (head w) (remote w) (ran w).
Definition set_index (i : string) (w : World) : World :=
  mkWorld (files w) (dirs w) (stack w) i (head w) (remote w) (ran w).
Definition note (c : string) (w : World) : World :=
  mkWorld (files w) (dirs w) (stack w) (index w) (head w) (remote w) (c :: ran w).

Definition exec (p : Params) (c : string) (w : World) : (Z * string) * World :=
  if existsb (String.eqb c) (failing p) then ((1%Z, "failed"), w)
  else if String.eqb c "git diff-index --name-only HEAD --" then
    ((0%Z, if String.eqb (manifest w) (head w) then EmptyString else "package.json"), w)
  else if String.eqb c "git add package.json" then
    ((0%Z, EmptyString), if with_index p then set_index (manifest w) w else note c w)
  else if String.eqb c "git reset HEAD ." then
    ((0%Z, EmptyString), set_index (head w) w)
  else if String.eqb c "git checkout package.json" then
    ((0%Z, EmptyString),
     set_files (<[manifest_path := if with_index p then index w else head w]> (files w)) w)
  else
    match strip_prefix "git clone " c with
    | Some rest =>
        match split_on " " rest with
        | [_; t] =>
            ((0%Z, EmptyString),
             set_dirs (<[t := <[".git" := "metadata"]> (remote w)]> (dirs w)) w)
        | _ => ((128%Z, "usage: git clone"), w)
        end
    | None => ((0%Z, EmptyString), note c w)
    end.

Definition rm (args : list JsArg) (w : World) : World :=
  match args with
  | [AStr "-rf"; AStr t] =>
      set_dirs (delete t (dirs w)) (set_files (delete t (files w)) w)
  | [AStr "-rf"; AArr names] =>
      set_dirs (<[current w :=
                  filter (fun kv : string * string => kv.1 ∉ names) (entries (current w) w)]>
                  (dirs w)) w
  | _ => w
  end.

(** An entry that [ls] lists and that a glob matches: its name does not
    start with a dot. *)
Definition visible (name : string) : bool := negb (starts_with "." name).

(** [cp('-R', src, dst)] for a source that ends in a slash: the entries of
    the source that a glob matches are copied, and an entry that is already
    there is not overwritten. *)
Definition cp (opts src dst : string) (w : World) : World :=
  if String.eqb opts "-R"
  then set_dirs (<[dst := entries dst w ∪
                          filter (fun kv : string * string => visible kv.1 = true)
                                 (entries src w)]> (dirs w)) w
  else w.

(** [ls(d)], without [-A]: the names that do not start with a dot. *)
Definition ls (d : string) (w : World) : list string :=
  filter (fun name => visible name = true) (map_to_list (entries d w)).*1.

Definition the_manifest (raw : string) : Npm :=
  mkNpm (Some "toy") (Some raw) false None
        (Some (mkScripts true true true))
        (Some (mkOptions None None (Some "git@host:toy-bower.git")
                         None None (Some "git@host:toy-docs.git")
                         None false None))
        (RepoString "owner/toy") (Some "lib/index.js") false.

#[export] Instance host (p : Params) : Host World := {
  sh_exec := exec p;
  sh_rm := rm;
  sh_ls := ls;
  sh_cp := cp;
  sh_pushd := fun d w => set_stack (d :: stack w) w;
  sh_popd := fun w => set_stack (tail (stack w)) w;
  sh_test := fun _ path w =>
    match files w !! path, dirs w !! path with
    | None, None => false
    | _, _ => true
    end;
  sh_which := fun _ _ => true;
  sh_cat := fun path w =>
    match files w !! path with Some c => c | None => EmptyString end;
  sh_pwd := fun _ => root;
  sh_to := fun path content w => set_files (<[path := content]> (files w)) w;
  http_response := fun _ _ => response p;
  json_parse := fun raw => Some (the_manifest raw);
  json_stringify := fun n => js_str (version n);
  path_join := fun a b => a +:+ "/" +:+ b;
  regexp_replace := fun _ m => Some m;
  yargs_help := fun u => u
}.

(** A repository at version 1.2.3, with built files to mirror. *)
Definition start : World :=
  mkWorld {[ manifest_path := "1.2.3" ]}
          {[ "/repo/amd/" := {[ "toy.js" := "built" ]};
             "/repo/docs-built/" := {[ "index.html" := "docs" ]} ]}
          [] "1.2.3" "1.2.3" {[ "old.js" := "stale" ]} [].

Definition unauthorized : Response := RespStatus "Unauthorized" (Some "undefined").

(** All commands succeed. *)
Definition fine : Params := mkParams [] true unauthorized.
(** The tests fail. *)
Definition red : Params := mkParams ["npm run test"] true unauthorized.
(** The version-control tool without an index. *)
Definition plain : Params := mkParams [] false unauthorized.

(** Two worlds with the same files, directories, directory stack, committed
    manifest and mirror: they differ at most in what was staged and in the
    commands that were noted. *)
Definition alike (w1 w2 : World) : Prop :=
  files w1 = files w2 /\ dirs w1 = dirs w2 /\ stack w1 = stack w2 /\
  head w1 = head w2 /\ remote w1 = remote w2.

(** The configuration that [startup] computes in the small world. *)
Definition config (argv : Argv) (dryRunMode : bool) : V1.Config :=
  V1.mkConfig "/repo" "/repo/package.json" false false false
    "/repo/amd/" "/repo/tmp-bower-repo" (Some "git@host:toy-bower.git")
    "/repo/docs-built/" "/repo/tmp-docs-repo" (Some "git@host:toy-docs.git") true
    None None false true argv dryRunMode.

(** The state when [startup] has read the manifest of [start]. *)
Definition ready : State World :=
  mkState start (the_manifest "1.2.3") None true.

Definition argv_of (positional preid : option string) (onlyDocs run : bool) : Argv :=
  mkArgv positional preid None onlyDocs run false false None false false.

(** The command [c] is not one of those that fail. *)
Definition passes (P : Params) (c : string) : Prop :=
  existsb (String.eqb c) (failing P) = false.

(** The source directory of the small world, rebuilt. *)
Definition rebuild (w : World) : World :=
  set_dirs (<[ "/repo/amd/" := {[ "next.js" := "rebuilt" ]} ]> (dirs w)) w.

(** The repository when the mirror holds a dot-file from an earlier
    release. *)
Definition with_dot_file : World :=
  mkWorld (files start) (dirs start) [] "1.2.3" "1.2.3"
          {[ "old.js" := "stale"; ".npmignore" := "stale" ]} [].

(** A pre-release identifier of 250 letters. *)
Definition long_id : string := string_of_list_ascii (repeat "a"%char 250).

(** The repository with a local change to the manifest. *)
Definition dirty : World :=
  set_files (<[ manifest_path := "1.2.3-local" ]> (files start)) start.

(** The configuration of the small world, for a private package or with a
    token for the host. *)
Definition configure (isPrivate : bool) (token : option string) (argv : Argv)
    (dryRunMode : bool) : V1.Config :=
  V1.mkConfig "/repo" "/repo/package.json" isPrivate false false
    "/repo/amd/" "/repo/tmp-bower-repo" (Some "git@host:toy-bower.git")
    "/repo/docs-built/" "/repo/tmp-docs-repo" (Some "git@host:toy-docs.git") true
    token None false true argv dryRunMode.

(** The manifest of the small world without its [repository]. *)
Definition unlisted (raw : string) : Npm :=
  mkNpm (Some "toy") (Some raw) false None
        (Some (mkScripts true true true))
        (Some (mkOptions None None (Some "git@host:toy-bower.git")
                         None None (Some "git@host:toy-docs.git")
                         None false None))
        RepoMissing (Some "lib/index.js") false.

(** A manifest with a name and a version and nothing else. *)
Definition bare (raw : string) : Npm :=
  mkNpm (Some "toy") (Some raw) false None None None RepoMissing None false.

(** The configuration of the small world for the variant with
    [--skip-version-bumping], with or without a [bower.json]. *)
Definition config3 (bowerjson : option Npm) (argv : Argv) (dryRunMode : bool)
    : V3.Config :=
  V3.mkConfig "/repo" "/repo/package.json" "/repo/bower.json" bowerjson false false false
    "/repo/amd/" "/repo/tmp-bower-repo" (Some "git@host:toy-bower.git")
    "/repo/docs-built/" "/repo/tmp-docs-repo" (Some "git@host:toy-docs.git") true
    None None false argv dryRunMode.

(** The address that [github-url-to-object] gives for the repository of the
    small world. *)
Definition clone_url (repo : V3R.RepoValue) : option string :=
  Some "https://github.com/owner/toy.git".

(** The manifest of the small world with an empty [devDependencies]. *)
Definition listed (raw : string) : Npm :=
  mkNpm (Some "toy") (Some raw) false (Some (mkDevDeps false false))
        (Some (mkScripts true true true))
        (Some (mkOptions None None (Some "git@host:toy-bower.git")
                         None None (Some "git@host:toy-docs.git")
                         None false None))
        (RepoString "owner/toy") (Some "lib/index.js") false.

(** The small world with another reading of the manifest. *)
Definition host_of (parse : string -> Npm) (p : Params) : Host World := {|
  sh_exec := exec p;
  sh_rm := rm;
  sh_ls := ls;
  sh_cp := cp;
  sh_pushd := fun d w => set_stack (d :: stack w) w;
  sh_popd := fun w => set_stack (tail (stack w)) w;
  sh_test := fun _ path w =>
    match files w !! path, dirs w !! path with
    | None, None => false
    | _, _ => true
    end;
  sh_which := fun _ _ => true;
  sh_cat := fun path w =>
    match files w !! path with Some c => c | None => EmptyString end;
  sh_pwd := fun _ => root;
  sh_to := fun path content w => set_files (<[path := content]> (files w)) w;
  http_response := fun _ _ => response p;
  json_parse := fun raw => Some (parse raw);
  json_stringify := fun n => js_str (version n);
  path_join := fun a b => a +:+ "/" +:+ b;
  regexp_replace := fun _ m => Some m;
  yargs_help := fun u => u
|}.

(** The small world where [git status -sb] prints [status]. *)
Definition exec_saying (status : string) (p : Params) (c : string) (w : World)
    : (Z * string) * World :=
  if String.eqb c "git status -sb" then ((0%Z, status), w) else exec p c w.

Definition host_saying (status : string) (p : Params) : Host World := {|
  sh_exec := exec_saying status p;
  sh_rm := sh_rm (Host := host p);
  sh_ls := sh_ls (Host := host p);
  sh_cp := sh_cp (Host := host p);
  sh_pushd := sh_pushd (Host := host p);
  sh_popd := sh_popd (Host := host p);
  sh_test := sh_test (Host := host p);
  sh_which := sh_which (Host := host p);
  sh_cat := sh_cat (Host := host p);
  sh_pwd := sh_pwd (Host := host p);
  sh_to := sh_to (Host := host p);
  http_response := http_response (Host := host p);
  json_parse := json_parse (Host := host p);
  json_stringify := json_stringify (Host := host p);
  path_join := path_join (Host := host p);
  regexp_replace := regexp_replace (Host := host p);
  yargs_help := yargs_help (Host := host p)
|}.

End Toy.

(** * Properties *)

(** ** Strings *)

Module StrFacts.
Import Str.

Lemma all_chars_app p s t :
  all_chars p (s +:+ t) = all_chars p s && all_chars p t.
Proof.
  induction s as [|a s IH]; simpl; [reflexivity|].
  rewrite IH. apply andb_assoc.
Qed.

Lemma all_chars_impl (p q : ascii -> bool) s :
  (forall a, p a = true -> q a = true) ->
  all_chars p s = true -> all_chars q s = true.
Proof.
  intros Hpq. induction s as [|a s IH]; simpl; [reflexivity|].
  intros [Ha Hs]%andb_true_iff. rewrite (Hpq _ Ha), (IH Hs). reflexivity.
Qed.

Lemma cut_at_lacks c s : lacks c s = true -> cut_at c s = (s, None).
Proof.
  induction s as [|a s IH]; simpl; [reflexivity|].
  intros [Ha Hs]%andb_true_iff. apply negb_true_iff in Ha. rewrite Ha.
  rewrite (IH Hs). reflexivity.
Qed.

Lemma cut_at_app c s t :
  lacks c s = true -> cut_at c (s +:+ String c t) = (s, Some t).
Proof.
  induction s as [|a s IH]; simpl.
  - intros _. rewrite Ascii.eqb_refl. reflexivity.
  - intros [Ha Hs]%andb_true_iff. apply negb_true_iff in Ha. rewrite Ha.
    rewrite (IH Hs). reflexivity.
Qed.

Lemma split_on_lacks c s : lacks c s = true -> split_on c s = [s].
Proof.
  induction s as [|a s IH]; simpl; [reflexivity|].
  intros [Ha Hs]%andb_true_iff. apply negb_true_iff in Ha. rewrite Ha.
  rewrite (IH Hs). reflexivity.
Qed.

Lemma split_on_app c s t :
  lacks c s = true -> split_on c (s +:+ String c t) = s :: split_on c t.
Proof.
  induction s as [|a s IH]; simpl.
  - intros _. rewrite Ascii.eqb_refl. reflexivity.
  - intros [Ha Hs]%andb_true_iff. apply negb_true_iff in Ha. rewrite Ha.
    rewrite (IH Hs). reflexivity.
Qed.

Lemma split_on_join c l :
  l <> [] -> Forall (fun s => lacks c s = true) l ->
  split_on c (join (String c EmptyString) l) = l.
Proof.
  intros Hne Hall. induction Hall as [|x l Hx Hl IH]; [congruence|].
  destruct l as [|y l'].
  - simpl. apply split_on_lacks, Hx.
  - change (join (String c EmptyString) (x :: y :: l'))
      with (x +:+ String c (join (String c EmptyString) (y :: l'))).
    rewrite split_on_app by exact Hx. f_equal. apply IH. discriminate.
Qed.

Lemma append_assoc (s t u : string) : (s +:+ t) +:+ u = s +:+ (t +:+ u).
Proof.
  induction s as [|a s IH]; [reflexivity|].
  change (String a ((s +:+ t) +:+ u) = String a (s +:+ (t +:+ u))).
  f_equal. exact IH.
Qed.

Lemma split_on_nonempty c s : split_on c s <> [].
Proof.
  destruct s as [|a s]; simpl; [discriminate|].
  destruct (Ascii.eqb a c); [discriminate|].
  destruct (split_on c s); discriminate.
Qed.

Lemma split_on_cat c s t :
  split_on c (s +:+ String c t) = (split_on c s ++ split_on c t)%list.
Proof.
  induction s as [|a s IH].
  - change (EmptyString +:+ String c t) with (String c t). simpl.
    rewrite Ascii.eqb_refl. reflexivity.
  - change (String a s +:+ String c t) with (String a (s +:+ String c t)). simpl.
    destruct (Ascii.eqb a c); [rewrite IH; reflexivity|].
    rewrite IH. destruct (split_on c s) eqn:E; [|reflexivity].
    exfalso. exact (split_on_nonempty _ _ E).
Qed.

Lemma split_on_single c t y : split_on c t = [y] -> y = t.
Proof.
  revert y. induction t as [|a t IH]; simpl; intros y.
  - intros [= <-]. reflexivity.
  - destruct (Ascii.eqb a c).
    + intros E. injection E as _ E. exfalso. exact (split_on_nonempty _ _ E).
    + destruct (split_on c t) as [|h l] eqn:E; [intros [= <-]|].
      * exfalso. exact (split_on_nonempty _ _ E).
      * intros [= <- ->]. f_equal. apply IH. reflexivity.
Qed.

(** When the text before and the text after a separator make two fields,
    the second field is the text after it. *)
Lemma split_on_two c s t x y : split_on c (s +:+ String c t) = [x; y] -> y = t.
Proof.
  rewrite split_on_cat.
  pose proof (split_on_nonempty c s) as Hs.
  pose proof (split_on_nonempty c t) as Ht.
  destruct (split_on c s) as [|s1 ls]; [congruence|].
  destruct (split_on c t) as [|t1 lt] eqn:Et; [congruence|].
  destruct ls as [|s2 ls]; simpl.
  - intros [= _ <- ->]. apply split_on_single with (c := c). exact Et.
  - intros [= _ _ E]. destruct ls; discriminate E.
Qed.

Lemma strip_prefix_Some p s r : strip_prefix p s = Some r -> s = p +:+ r.
Proof.
  revert s. induction p as [|a p IH]; intros s; simpl.
  - intros [= <-]. reflexivity.
  - destruct s as [|b s]; [discriminate|].
    destruct (Ascii.eqb_spec a b) as [<-|]; [|discriminate].
    intros E. rewrite (IH _ E). reflexivity.
Qed.

End StrFacts.

(** ** The version library: printing a version and reading it back *)

Module SemverFacts.
Import Str StrFacts Semver.

Lemma digits_string_of_uint d :
  all_chars is_digit (NilEmpty.string_of_uint d) = true.
Proof. induction d; simpl; auto. Qed.

Lemma digits_format_num n : all_chars is_digit (format_num n) = true.
Proof. apply digits_string_of_uint. Qed.

Lemma to_uint_normal n : Decimal.unorm (N.to_uint n) = N.to_uint n.
Proof.
  rewrite <- (DecimalN.Unsigned.of_to n) at 2.
  symmetry. apply DecimalN.Unsigned.to_of.
Qed.

Lemma normal_D0 d : Decimal.unorm (Decimal.D0 d) = Decimal.D0 d -> d = Decimal.Nil.
Proof.
  rewrite unorm_D0. unfold Decimal.unorm.
  destruct (Decimal.nzhead d) eqn:E; try discriminate.
  - intros [= <-]. reflexivity.
  - intros [= <-]. exfalso. exact (nzhead_nonzero _ _ E).
Qed.

Lemma parse_num_format n : parse_num (format_num n) = Some n.
Proof.
  unfold format_num.
  pose proof (to_uint_normal n) as Hn.
  pose proof (DecimalN.Unsigned.of_to n) as Hof.
  pose proof (digits_string_of_uint (N.to_uint n)) as Hd.
  pose proof (NilEmpty.usu (N.to_uint n)) as Hu.
  destruct (N.to_uint n) as [|d|d|d|d|d|d|d|d|d|d] eqn:E.
  - exfalso. apply (unorm_nonnil Decimal.Nil). exact Hn.
  - apply normal_D0 in Hn. subst d. simpl. f_equal. exact Hof.
  - unfold parse_num. cbn [NilEmpty.string_of_uint] in *. rewrite Hd, Hu, <- Hof. reflexivity.
  - unfold parse_num. cbn [NilEmpty.string_of_uint] in *. rewrite Hd, Hu, <- Hof. reflexivity.
  - unfold parse_num. cbn [NilEmpty.string_of_uint] in *. rewrite Hd, Hu, <- Hof. reflexivity.
  - unfold parse_num. cbn [NilEmpty.string_of_uint] in *. rewrite Hd, Hu, <- Hof. reflexivity.
  - unfold parse_num. cbn [NilEmpty.string_of_uint] in *. rewrite Hd, Hu, <- Hof. reflexivity.
  - unfold parse_num. cbn [NilEmpty.string_of_uint] in *. rewrite Hd, Hu, <- Hof. reflexivity.
  - unfold parse_num. cbn [NilEmpty.string_of_uint] in *. rewrite Hd, Hu, <- Hof. reflexivity.
  - unfold parse_num. cbn [NilEmpty.string_of_uint] in *. rewrite Hd, Hu, <- Hof. reflexivity.
  - unfold parse_num. cbn [NilEmpty.string_of_uint] in *. rewrite Hd, Hu, <- Hof. reflexivity.
Qed.


Lemma to_double_small n : (n <= MAX_SAFE_INTEGER)%N -> to_double n = n.
Proof.
  intros Hn. unfold to_double.
  assert (Hs : (N.size n - 53 = 0)%N).
  { destruct (N.eq_dec n 0%N) as [->|Hz]; [reflexivity|].
    rewrite N.size_log2 by exact Hz.
    assert (N.log2 n < 53)%N; [|lia].
    apply N.log2_lt_pow2; [lia|].
    unfold MAX_SAFE_INTEGER in Hn. change (2 ^ 53)%N with 9007199254740992%N. lia. }
  rewrite Hs. reflexivity.
Qed.

(** The digits after the first raise the number by a power of ten each. *)
Lemma of_uint_acc_ge d acc :
  (Npos acc * 10 ^ N.of_nat (Decimal.nb_digits d) <= Npos (Pos.of_uint_acc d acc))%N.
Proof.
  revert acc. induction d as [|d IH|d IH|d IH|d IH|d IH|d IH|d IH|d IH|d IH|d IH];
    intros acc; cbn [Decimal.nb_digits Pos.of_uint_acc];
    [simpl; lia| | | | | | | | | |];
    rewrite Nat2N.inj_succ, N.pow_succ_r';
    (eapply N.le_trans; [|apply IH]);
    set (P := (10 ^ N.of_nat (Decimal.nb_digits d))%N);
    apply N.le_trans with (m := (N.pos acc * 10 * P)%N); try lia;
    apply N.mul_le_mono_r; lia.
Qed.

Lemma length_string_of_uint d :
  String.length (NilEmpty.string_of_uint d) = Decimal.nb_digits d.
Proof. induction d; simpl; congruence. Qed.

(** A number has at least the value of a one followed by its other digits. *)
Lemma format_num_ge n :
  n <> 0%N -> (10 ^ N.of_nat (String.length (format_num n) - 1) <= n)%N.
Proof.
  intros Hz. unfold format_num. rewrite length_string_of_uint.
  pose proof (DecimalN.Unsigned.of_to n) as Hof.
  pose proof (to_uint_normal n) as Hn.
  assert (Hacc : forall d k, (1 <= N.pos k)%N ->
            (10 ^ N.of_nat (Decimal.nb_digits d) <= N.pos (Pos.of_uint_acc d k))%N).
  { intros d k Hk. eapply N.le_trans; [|apply of_uint_acc_ge].
    rewrite <- (N.mul_1_l (10 ^ _)) at 1. apply N.mul_le_mono_r. exact Hk. }
  destruct (N.to_uint n) as [|d|d|d|d|d|d|d|d|d|d] eqn:E;
    cbn [Decimal.nb_digits]; rewrite ?Nat.sub_succ, ?Nat.sub_0_r; rewrite <- Hof;
    try (cbn [N.of_uint Pos.of_uint]; apply Hacc; lia).
  - simpl in Hof. congruence.
  - apply normal_D0 in Hn. subst d. simpl in Hof. congruence.
Qed.

Lemma length_format_num n :
  (n <= MAX_SAFE_INTEGER + 1)%N -> (String.length (format_num n) <= 16)%nat.
Proof.
  intros Hn. destruct (N.eq_dec n 0%N) as [->|Hz]; [simpl; lia|].
  pose proof (format_num_ge n Hz) as Hge.
  destruct (le_lt_dec (String.length (format_num n)) 16) as [Hl|Hl]; [exact Hl|].
  exfalso.
  assert (H16 : (10 ^ 16 <= 10 ^ N.of_nat (String.length (format_num n) - 1))%N).
  { apply N.pow_le_mono_r; lia. }
  unfold MAX_SAFE_INTEGER in Hn. change (10 ^ 16)%N with 10000000000000000%N in H16. lia.
Qed.

Lemma format_num_head n :
  exists a r, format_num n = String a r /\ is_digit a = true.
Proof.
  pose proof (digits_format_num n) as Hd.
  pose proof (parse_num_format n) as Hp.
  destruct (format_num n) as [|a r]; [discriminate|].
  simpl in Hd. apply andb_true_iff in Hd as [Ha _]. eauto.
Qed.

Lemma digit_is_ident a : is_digit a = true -> is_ident_char a = true.
Proof. unfold is_ident_char. intros ->. reflexivity. Qed.

Lemma ident_not_dot a : is_ident_char a = true -> negb (Ascii.eqb a ".") = true.
Proof. destruct a as [[|] [|] [|] [|] [|] [|] [|] [|]]; vm_compute; congruence. Qed.

Lemma ident_not_plus a : is_ident_char a = true -> negb (Ascii.eqb a "+") = true.
Proof. destruct a as [[|] [|] [|] [|] [|] [|] [|] [|]]; vm_compute; congruence. Qed.

Lemma digit_not_dash a : is_digit a = true -> negb (Ascii.eqb a "-") = true.
Proof. destruct a as [[|] [|] [|] [|] [|] [|] [|] [|]]; vm_compute; congruence. Qed.

Lemma digit_not_v a : is_digit a = true -> a <> "v"%char.
Proof. destruct a as [[|] [|] [|] [|] [|] [|] [|] [|]]; vm_compute; congruence. Qed.

Lemma digits_lack_dot s : all_chars is_digit s = true -> lacks "." s = true.
Proof.
  apply all_chars_impl. intros a Ha. apply ident_not_dot, digit_is_ident, Ha.
Qed.

Lemma digits_lack_plus s : all_chars is_digit s = true -> lacks "+" s = true.
Proof.
  apply all_chars_impl. intros a Ha. apply ident_not_plus, digit_is_ident, Ha.
Qed.

Lemma digits_lack_dash s : all_chars is_digit s = true -> lacks "-" s = true.
Proof. apply all_chars_impl, digit_not_dash. Qed.

(** The identifiers the parser accepts are made of identifier characters. *)
Lemma parse_pre_ident_chars s i :
  parse_pre_ident s = Some i -> all_chars is_ident_char s = true.
Proof.
  unfold parse_pre_ident.
  destruct (nonempty s && all_chars is_digit s) eqn:E1.
  - intros _. apply andb_true_iff in E1 as [_ Hd].
    revert Hd. apply all_chars_impl, digit_is_ident.
  - destruct (nonempty s && all_chars is_ident_char s) eqn:E2; [|discriminate].
    intros _. apply andb_true_iff in E2 as [_ Hd]. exact Hd.
Qed.

Lemma parse_main_format n :
  (n <= MAX_SAFE_INTEGER)%N -> parse_main (format_num n) = Some n.
Proof.
  intros Hn. unfold parse_main. rewrite parse_num_format. cbv zeta.
  rewrite (to_double_small n Hn).
  destruct (N.ltb_spec MAX_SAFE_INTEGER n); [lia | reflexivity].
Qed.

Lemma parse_main_range s n : parse_main s = Some n -> (n <= MAX_SAFE_INTEGER)%N.
Proof.
  unfold parse_main. destruct (parse_num s) as [m|]; [|discriminate]. cbv zeta.
  destruct (N.ltb_spec MAX_SAFE_INTEGER (to_double m)); [discriminate|].
  intros [= <-]. assumption.
Qed.

Lemma parse_pre_ident_format_num n : is_Some (parse_pre_ident (format_num n)).
Proof.
  unfold parse_pre_ident. rewrite digits_format_num.
  destruct (format_num_head n) as (a & r & E & _).
  rewrite parse_num_format. rewrite E. cbn [nonempty andb]. cbv zeta.
  destruct (to_double n <? MAX_SAFE_INTEGER)%N; eauto.
Qed.

Lemma parse_pre_ident_small n :
  (n < MAX_SAFE_INTEGER)%N -> parse_pre_ident (format_num n) = Some (INum n).
Proof.
  intros Hn. unfold parse_pre_ident. rewrite digits_format_num.
  destruct (format_num_head n) as (a & r & E & _).
  rewrite parse_num_format. rewrite E. cbn [nonempty andb]. cbv zeta.
  rewrite to_double_small by lia.
  destruct (N.ltb_spec n MAX_SAFE_INTEGER); [reflexivity | lia].
Qed.

Lemma wf_ident_reads i : wf_ident i -> is_Some (parse_pre_ident (ident_string i)).
Proof.
  destruct i as [n|s]; simpl; [|auto].
  intros _. apply parse_pre_ident_format_num.
Qed.

Lemma parse_pre_ident_wf s i : parse_pre_ident s = Some i -> wf_ident i.
Proof.
  unfold parse_pre_ident.
  destruct (nonempty s && all_chars is_digit s) eqn:E1.
  - destruct (parse_num s) as [n|] eqn:En; [|discriminate]. cbv zeta.
    destruct (to_double n <? MAX_SAFE_INTEGER)%N eqn:Eb; intros [= <-]; [exact I|].
    simpl. unfold parse_pre_ident. rewrite E1, En. cbv zeta. rewrite Eb. eauto.
  - destruct (nonempty s && all_chars is_ident_char s) eqn:E2; [|discriminate].
    intros [= <-]. simpl. unfold parse_pre_ident. rewrite E1, E2. eauto.
Qed.

Lemma parse_all_wf l pre :
  parse_all parse_pre_ident l = Some pre -> Forall wf_ident pre.
Proof.
  revert pre. induction l as [|x l IH]; simpl; intros pre.
  - intros [= <-]. constructor.
  - destruct (parse_pre_ident x) eqn:Ex; [|discriminate].
    destruct (parse_all parse_pre_ident l) eqn:El; [|discriminate].
    intros [= <-]. constructor; [eapply parse_pre_ident_wf, Ex | apply IH; reflexivity].
Qed.

Lemma parse_all_reads pre :
  Forall wf_ident pre ->
  exists pre', parse_all parse_pre_ident (map ident_string pre) = Some pre'
               /\ length pre' = length pre.
Proof.
  induction 1 as [|i pre Hi _ (pre' & E & Hlen)]; simpl.
  - exists []. split; reflexivity.
  - destruct (wf_ident_reads i Hi) as [i' Ei]. rewrite Ei, E.
    exists (i' :: pre'). simpl. split; [reflexivity | congruence].
Qed.

(** What the constructor reads is well formed, and its numbers are in range. *)
Lemma read_wf s v : read s = Some v -> wf v /\ in_range v = true.
Proof.
  unfold read, wf, in_range.
  destruct (cut_at "+" (strip_v s)) as [rest b].
  destruct (cut_at "-" rest) as [m p].
  destruct (split_on "." m) as [|x [|y [|z [|? ?]]]]; try discriminate.
  destruct (parse_main x) as [ma|] eqn:Ex; [|discriminate].
  destruct (parse_main y) as [mi|] eqn:Ey; [|discriminate].
  destruct (parse_main z) as [pa|] eqn:Ez; [|discriminate].
  apply parse_main_range in Ex, Ey, Ez.
  assert (Hr : (ma <=? MAX_SAFE_INTEGER)%N && (mi <=? MAX_SAFE_INTEGER)%N &&
               (pa <=? MAX_SAFE_INTEGER)%N = true).
  { rewrite !andb_true_iff, !N.leb_le. auto. }
  destruct p as [ps|].
  - destruct (parse_all parse_pre_ident (split_on "." ps)) eqn:E; [|discriminate].
    destruct b as [bs|].
    + destruct (parse_all parse_build_ident (split_on "." bs)); [|discriminate].
      intros [= <-]. simpl. split; [eapply parse_all_wf, E | exact Hr].
    + intros [= <-]. simpl. split; [eapply parse_all_wf, E | exact Hr].
  - destruct b as [bs|].
    + destruct (parse_all parse_build_ident (split_on "." bs)); [|discriminate].
      intros [= <-]. simpl. split; [constructor | exact Hr].
    + intros [= <-]. simpl. split; [constructor | exact Hr].
Qed.

Lemma construct_wf s v : construct s = Some v -> wf v /\ in_range v = true.
Proof.
  unfold construct. destruct (MAX_LENGTH <? String.length s)%nat; [discriminate|].
  apply read_wf.
Qed.

Lemma lacks_app c s t : lacks c (s +:+ t) = lacks c s && lacks c t.
Proof. apply all_chars_app. Qed.

Lemma append_nil_r (s : string) : s +:+ EmptyString = s.
Proof.
  induction s as [|a s IH]; [reflexivity|].
  change (String a (s +:+ EmptyString) = String a s). f_equal. exact IH.
Qed.

Lemma all_chars_join (p : ascii -> bool) d l :
  p d = true ->
  Forall (fun s => all_chars p s = true) l ->
  all_chars p (join (String d EmptyString) l) = true.
Proof.
  intros Hd. induction 1 as [|x l Hx Hl IH]; [reflexivity|].
  destruct l as [|y l'].
  - exact Hx.
  - change (join (String d EmptyString) (x :: y :: l'))
      with (x +:+ String d (join (String d EmptyString) (y :: l'))).
    rewrite all_chars_app, Hx.
    change (all_chars p (String d (join (String d EmptyString) (y :: l'))))
      with (p d && all_chars p (join (String d EmptyString) (y :: l'))).
    rewrite Hd, IH. reflexivity.
Qed.

Lemma lacks_join c d l :
  Ascii.eqb d c = false ->
  Forall (fun s => lacks c s = true) l ->
  lacks c (join (String d EmptyString) l) = true.
Proof. intros Hd. apply all_chars_join. rewrite Hd. reflexivity. Qed.

Lemma parse_all_chars l pre :
  parse_all parse_pre_ident l = Some pre ->
  Forall (fun s => all_chars is_ident_char s = true) l.
Proof.
  revert pre. induction l as [|x l IH]; simpl; intros pre; [constructor|].
  destruct (parse_pre_ident x) eqn:Ex; [|discriminate].
  destruct (parse_all parse_pre_ident l) eqn:El; [|discriminate].
  intros _. constructor; [eapply parse_pre_ident_chars, Ex | eapply IH; reflexivity].
Qed.

Lemma format_unfold v :
  format v = main_string (major v) (minor v) (patch v) +:+ pre_suffix (prerelease v).
Proof.
  unfold format, main_string, pre_suffix. rewrite !append_assoc.
  destruct (prerelease v); reflexivity.
Qed.

Lemma split_main a b c :
  split_on "." (main_string a b c) = [format_num a; format_num b; format_num c].
Proof.
  change (main_string a b c)
    with (format_num a +:+ String "." (format_num b +:+ String "." (format_num c))).
  rewrite split_on_app by apply digits_lack_dot, digits_format_num.
  rewrite split_on_app by apply digits_lack_dot, digits_format_num.
  rewrite split_on_lacks by apply digits_lack_dot, digits_format_num.
  reflexivity.
Qed.

Lemma all_chars_main (p : ascii -> bool) a b z :
  p "."%char = true ->
  (forall s, all_chars is_digit s = true -> all_chars p s = true) ->
  all_chars p (main_string a b z) = true.
Proof.
  intros Hdot Hc.
  change (main_string a b z)
    with (format_num a +:+ String "." (format_num b +:+ String "." (format_num z))).
  rewrite all_chars_app, (Hc _ (digits_format_num a)).
  change (all_chars p (String "." (format_num b +:+ String "." (format_num z))))
    with (p "."%char && all_chars p (format_num b +:+ String "." (format_num z))).
  rewrite Hdot, all_chars_app, (Hc _ (digits_format_num b)).
  change (all_chars p (String "." (format_num z)))
    with (p "."%char && all_chars p (format_num z)).
  rewrite Hdot, (Hc _ (digits_format_num z)). reflexivity.
Qed.

Lemma lacks_main c a b z :
  Ascii.eqb "." c = false ->
  (forall s, all_chars is_digit s = true -> lacks c s = true) ->
  lacks c (main_string a b z) = true.
Proof. intros Hdot. apply all_chars_main. rewrite Hdot. reflexivity. Qed.

Lemma strip_v_digit a x : is_digit a = true -> strip_v (String a x) = String a x.
Proof.
  destruct a as [[|] [|] [|] [|] [|] [|] [|] [|]]; try reflexivity.
  vm_compute. discriminate.
Qed.

Lemma strip_v_main a b c t :
  strip_v (main_string a b c +:+ t) = main_string a b c +:+ t.
Proof.
  unfold main_string.
  destruct (format_num_head a) as (x & r & E & Hx). rewrite E.
  apply (strip_v_digit x _ Hx).
Qed.

(** *** White space *)

Lemma ident_no_space a : is_ident_char a = true -> no_space a = true.
Proof. destruct a as [[|] [|] [|] [|] [|] [|] [|] [|]]; vm_compute; congruence. Qed.

Lemma trim_end_no_space s : all_chars no_space s = true -> trim_end s = s.
Proof.
  induction s as [|a r IH]; [reflexivity|].
  simpl. intros [Ha Hr]%andb_true_iff. rewrite (IH Hr).
  unfold no_space in Ha. apply negb_true_iff in Ha. rewrite Ha.
  destruct r; reflexivity.
Qed.

Lemma trim_no_space s : all_chars no_space s = true -> trim s = s.
Proof.
  intros Hs. unfold trim.
  assert (E : trim_start s = s).
  { destruct s as [|a r]; [reflexivity|]. simpl in *.
    apply andb_true_iff in Hs as [Ha _].
    unfold no_space in Ha. apply negb_true_iff in Ha. rewrite Ha. reflexivity. }
  rewrite E. apply trim_end_no_space, Hs.
Qed.

Lemma no_space_format v pre' :
  parse_all parse_pre_ident (map ident_string (prerelease v)) = Some pre' ->
  all_chars no_space (format v) = true.
Proof.
  intros Hpre. rewrite format_unfold, all_chars_app.
  rewrite all_chars_main;
    [|reflexivity
     |intros s; apply all_chars_impl; intros a Ha; apply ident_no_space, digit_is_ident, Ha].
  unfold pre_suffix. destruct (prerelease v) as [|i l]; [reflexivity|].
  change (all_chars no_space (String "-" (join "." (map ident_string (i :: l)))))
    with (no_space "-"%char && all_chars no_space (join "." (map ident_string (i :: l)))).
  rewrite all_chars_join; [reflexivity | reflexivity |].
  eapply Forall_impl; [exact (parse_all_chars _ _ Hpre)|].
  intros s. apply all_chars_impl, ident_no_space.
Qed.

(** *** A printed version reads back *)

(** The pattern and the constructor on a printed version: the numbers as
    they are, the identifiers as the constructor reads their strings. *)
Lemma read_format v pre' :
  parse_all parse_pre_ident (map ident_string (prerelease v)) = Some pre' ->
  in_range v = true ->
  read (format v) = Some (mkSemVer (major v) (minor v) (patch v) pre' []).
Proof.
  intros Hpre Hr. unfold in_range in Hr.
  apply andb_true_iff in Hr as [[Hma Hmi]%andb_true_iff Hpa].
  apply N.leb_le in Hma, Hmi, Hpa.
  rewrite format_unfold. unfold read. rewrite strip_v_main.
  pose proof (parse_all_chars _ _ Hpre) as Hchars.
  assert (Hplus : lacks "+" (main_string (major v) (minor v) (patch v)) = true)
    by (apply lacks_main; [reflexivity | apply digits_lack_plus]).
  assert (Hdash : lacks "-" (main_string (major v) (minor v) (patch v)) = true)
    by (apply lacks_main; [reflexivity | apply digits_lack_dash]).
  destruct (prerelease v) as [|i l] eqn:Epre.
  - simpl in Hpre. injection Hpre as <-.
    simpl pre_suffix. rewrite append_nil_r.
    rewrite (cut_at_lacks _ _ Hplus), (cut_at_lacks _ _ Hdash), split_main.
    rewrite !parse_main_format by assumption. reflexivity.
  - unfold pre_suffix.
    set (J := join "." (map ident_string (i :: l))) in *.
    assert (HJplus : lacks "+" J = true).
    { apply lacks_join; [reflexivity|].
      eapply Forall_impl; [exact Hchars|]. intros s Hs.
      revert Hs. apply all_chars_impl, ident_not_plus. }
    rewrite cut_at_lacks.
    2:{ rewrite lacks_app, Hplus. exact HJplus. }
    rewrite (cut_at_app _ _ _ Hdash), split_main.
    rewrite !parse_main_format by assumption.
    replace (split_on "." J) with (map ident_string (i :: l)).
    + rewrite Hpre. reflexivity.
    + symmetry. apply split_on_join; [discriminate|].
      eapply Forall_impl; [exact Hchars|]. intros s Hs.
      revert Hs. apply all_chars_impl, ident_not_dot.
Qed.

Lemma not_too_long s :
  (String.length s <= MAX_LENGTH)%nat -> (MAX_LENGTH <? String.length s)%nat = false.
Proof. intros Hl. apply Nat.ltb_ge, Hl. Qed.

Lemma construct_format v pre' :
  parse_all parse_pre_ident (map ident_string (prerelease v)) = Some pre' ->
  in_range v = true ->
  (String.length (format v) <= MAX_LENGTH)%nat ->
  construct (format v) = Some (mkSemVer (major v) (minor v) (patch v) pre' []).
Proof.
  intros Hpre Hr Hl. unfold construct. rewrite (not_too_long _ Hl).
  rewrite (trim_no_space _ (no_space_format v pre' Hpre)).
  apply read_format; assumption.
Qed.

Lemma parse_format v pre' :
  parse_all parse_pre_ident (map ident_string (prerelease v)) = Some pre' ->
  in_range v = true ->
  (String.length (format v) <= MAX_LENGTH)%nat ->
  parse (format v) = Some (mkSemVer (major v) (minor v) (patch v) pre' []).
Proof.
  intros Hpre Hr Hl. unfold parse. rewrite (not_too_long _ Hl).
  apply read_format; assumption.
Qed.

(** A printed version is valid when its identifiers are well formed, its
    numbers are in range and it is not too long; a longer one is not. *)
Lemma valid_format v :
  wf v -> in_range v = true ->
  valid (format v) = (String.length (format v) <=? MAX_LENGTH)%nat.
Proof.
  intros Hwf Hr. destruct (parse_all_reads _ Hwf) as (pre' & E & _).
  unfold valid.
  destruct (Nat.leb_spec (String.length (format v)) MAX_LENGTH) as [Hl|Hl].
  - rewrite (parse_format v pre' E Hr Hl). reflexivity.
  - unfold parse. replace (MAX_LENGTH <? String.length (format v))%nat with true;
      [reflexivity|]. symmetry. apply Nat.ltb_lt, Hl.
Qed.

(** *** The length of a printed version *)

Lemma length_app (s t : string) :
  String.length (s +:+ t) = (String.length s + String.length t)%nat.
Proof. induction s as [|a s IH]; [reflexivity|]. simpl. rewrite IH. reflexivity. Qed.

Lemma length_main a b c :
  (a <= MAX_SAFE_INTEGER + 1)%N -> (b <= MAX_SAFE_INTEGER + 1)%N ->
  (c <= MAX_SAFE_INTEGER + 1)%N ->
  (String.length (main_string a b c) <= 50)%nat.
Proof.
  intros Ha Hb Hc. unfold main_string. rewrite !length_app.
  pose proof (length_format_num a Ha). pose proof (length_format_num b Hb).
  pose proof (length_format_num c Hc). simpl. lia.
Qed.

End SemverFacts.

(** ** Rules for runs *)

Module LogicFacts.
Import Str Manifest Shell V1 Contracts Logic.
Local Open Scope sh_scope.

Section Rules.
Context {W : Type} `{Host W}.

Lemma bind_ret_eq {A B} (m : M W A) (k : A -> M W B) s a :
  outcome (m s) = Ret a ->
  bind m k s = mkResult (outcome (k a (final (m s)))) (final (k a (final (m s))))
                        (events (m s) ++ events (k a (final (m s))))%list.
Proof. intros E. unfold bind. rewrite E. reflexivity. Qed.

Lemma bind_stop_eq {A B} (m : M W A) (k : A -> M W B) s h :
  outcome (m s) = Stop h ->
  bind m k s = mkResult (Stop h) (final (m s)) (events (m s)).
Proof. intros E. unfold bind. rewrite E. reflexivity. Qed.

Lemma bind_run_ret {A B} (m : M W A) (k : A -> M W B) s a s' evs :
  m s = mkResult (Ret a) s' evs -> bind m k s = prepend evs (k a s').
Proof. intros E. unfold bind, prepend. rewrite E. reflexivity. Qed.

Lemma bind_run_stop {A B} (m : M W A) (k : A -> M W B) s h s' evs :
  m s = mkResult (Stop h) s' evs -> bind m k s = mkResult (Stop h) s' evs.
Proof. intros E. unfold bind. rewrite E. reflexivity. Qed.

Lemma bind_assoc {A B C} (m : M W A) (f : A -> M W B) (g : B -> M W C) s :
  bind (bind m f) g s = bind m (fun a => bind (f a) g) s.
Proof.
  unfold bind. destruct (m s) as [[a|h] s1 e1]; simpl; [|reflexivity].
  destruct (f a s1) as [[b|h] s2 e2]; simpl; [|reflexivity].
  rewrite app_assoc. reflexivity.
Qed.

(** Two computations behind the same first one. *)
Lemma bind_same {A B C} (P : Result W B -> Result W C -> Prop)
    (m : M W A) (k1 : A -> M W B) (k2 : A -> M W C) s :
  (forall h s' e, P (mkResult (Stop h) s' e) (mkResult (Stop h) s' e)) ->
  (forall e r1 r2, P r1 r2 -> P (prepend e r1) (prepend e r2)) ->
  (forall a, P (k1 a (final (m s))) (k2 a (final (m s)))) ->
  P (bind m k1 s) (bind m k2 s).
Proof.
  intros Hs Hp Hk. unfold bind. destruct (m s) as [[a|h] s' e]; simpl in *.
  - apply (Hp e _ _ (Hk a)).
  - apply Hs.
Qed.

Lemma prepend_result {A} evs (o : Outcome A) (s : State W) e :
  prepend evs (mkResult o s e) = mkResult o s (evs ++ e)%list.
Proof. reflexivity. Qed.

(** *** Events *)

Lemma emits_ret {A} phi (a : A) : emits phi (ret (W:=W) a).
Proof. intros s. constructor. Qed.

Lemma emits_bind {A B} phi (m : M W A) (k : A -> M W B) :
  emits phi m -> (forall a, emits phi (k a)) -> emits phi (bind m k).
Proof.
  intros Hm Hk s. unfold bind.
  destruct (outcome (m s)) as [a|h] eqn:E; simpl.
  - apply Forall_app. split; [apply Hm | apply Hk].
  - apply Hm.
Qed.

Lemma emits_exit {A} phi c : emits phi (exit (W:=W) (A:=A) c).
Proof. intros s. constructor. Qed.

Lemma emits_throw {A} phi : emits phi (throw (W:=W) (A:=A)).
Proof. intros s. constructor. Qed.

Lemma emits_gets {A} phi (f : State W -> A) : emits phi (gets f).
Proof. intros s. constructor. Qed.

Lemma emits_modify phi (f : State W -> State W) : emits phi (modify f).
Proof. intros s. constructor. Qed.

Lemma emits_log (phi : Event -> Prop) line : phi (EvLog line) -> emits phi (console_log (W:=W) line).
Proof. intros Hp s. repeat constructor. exact Hp. Qed.

Lemma emits_info (phi : Event -> Prop) line : phi (EvLog line) -> emits phi (console_info (W:=W) line).
Proof. apply emits_log. Qed.

Lemma emits_error (phi : Event -> Prop) line :
  phi (EvError line) -> emits phi (console_error (W:=W) line).
Proof. intros Hp s. repeat constructor. exact Hp. Qed.

Lemma emits_act (phi : Event -> Prop) f e : phi e -> emits phi (act (W:=W) f e).
Proof. intros Hp s. repeat constructor. exact Hp. Qed.

Lemma emits_request (phi : Event -> Prop) r : phi (EvRequest r) -> emits phi (request (W:=W) r).
Proof. intros Hp s. repeat constructor. exact Hp. Qed.

Lemma emits_exec (phi : Event -> Prop) c :
  (forall code, phi (EvExec c code)) -> emits phi (exec c).
Proof.
  intros Hp s. unfold exec. destruct (sh_exec c (world s)) as [r w].
  repeat constructor. apply Hp.
Qed.

Lemma emits_when phi b (m : M W unit) : emits phi m -> emits phi (when b m).
Proof. intros Hm. destruct b; [exact Hm | apply emits_ret]. Qed.

Lemma emits_printErrorAndExit {A} (phi : Event -> Prop) msg :
  phi (EvError msg) -> emits phi (printErrorAndExit (W:=W) (A:=A) msg).
Proof.
  intros Hp. apply emits_bind; [apply emits_error, Hp | intros _; apply emits_exit].
Qed.

Lemma emits_run (phi : Event -> Prop) c :
  (forall code, phi (EvExec c code)) -> (forall out, phi (EvError out)) ->
  emits phi (run c).
Proof.
  intros Hc He. unfold run. apply emits_bind; [apply emits_exec, Hc|].
  intros [code out]. apply emits_bind; [|intros _; apply emits_ret].
  destruct (negb (code =? 0)%Z); [apply emits_printErrorAndExit, He | apply emits_ret].
Qed.

Lemma emits_safeRun (phi : Event -> Prop) cfg c :
  (forall code, phi (EvExec c code)) -> (forall out, phi (EvError out)) ->
  phi (EvLog (dry_line c)) ->
  emits phi (safeRun cfg c).
Proof.
  intros Hc He Hl. unfold safeRun. destruct (dryRunMode cfg).
  - apply emits_bind; [apply emits_log, Hl | intros _; apply emits_ret].
  - apply emits_bind; [apply emits_run; assumption | intros ?; apply emits_ret].
Qed.

(** *** Results *)

Lemma returns_ret {A} (a : A) (Q : A -> Prop) : Q a -> returns (ret (W:=W) a) Q.
Proof. intros HQ s b [= <-]. exact HQ. Qed.

Lemma returns_bind {A B} (m : M W A) (k : A -> M W B) (Q : B -> Prop) :
  (forall a, returns (k a) Q) -> returns (bind m k) Q.
Proof.
  intros Hk s b. unfold bind.
  destruct (outcome (m s)) as [a|h] eqn:E; simpl; [|discriminate].
  apply Hk.
Qed.

Lemma returns_stop {A} (m : M W A) (Q : A -> Prop) :
  (forall s, exists h, outcome (m s) = Stop h) -> returns m Q.
Proof. intros Hm s a E. destruct (Hm s) as [h Eh]. congruence. Qed.

Lemma emits_bind_returns {A B} phi (m : M W A) (k : A -> M W B) (Q : A -> Prop) :
  emits phi m -> returns m Q -> (forall a, Q a -> emits phi (k a)) ->
  emits phi (bind m k).
Proof.
  intros Hm HQ Hk s. unfold bind.
  destruct (outcome (m s)) as [a|h] eqn:E; simpl.
  - apply Forall_app. split; [apply Hm | apply Hk, (HQ s a E)].
  - apply Hm.
Qed.

(** *** Computations that leave the world alone *)

Lemma keeps_ret {A} (a : A) : keeps_world (ret (W:=W) a).
Proof. intros s. reflexivity. Qed.

Lemma keeps_bind {A B} (m : M W A) (k : A -> M W B) :
  keeps_world m -> (forall a, keeps_world (k a)) -> keeps_world (bind m k).
Proof.
  intros Hm Hk s. unfold bind.
  destruct (outcome (m s)) as [a|h] eqn:E; simpl; [|apply Hm].
  rewrite Hk. apply Hm.
Qed.

Lemma keeps_exit {A} c : keeps_world (exit (W:=W) (A:=A) c).
Proof. intros s. reflexivity. Qed.

Lemma keeps_throw {A} : keeps_world (throw (W:=W) (A:=A)).
Proof. intros s. reflexivity. Qed.

Lemma keeps_gets {A} (f : State W -> A) : keeps_world (gets f).
Proof. intros s. reflexivity. Qed.

Lemma keeps_modify (f : State W -> State W) :
  (forall s, world (f s) = world s) -> keeps_world (modify f).
Proof. intros Hf s. apply Hf. Qed.

Lemma keeps_log line : keeps_world (console_log (W:=W) line).
Proof. intros s. reflexivity. Qed.

Lemma keeps_error line : keeps_world (console_error (W:=W) line).
Proof. intros s. reflexivity. Qed.

Lemma keeps_when b (m : M W unit) : keeps_world m -> keeps_world (when b m).
Proof. intros Hm. destruct b; [exact Hm | apply keeps_ret]. Qed.

Lemma keeps_printErrorAndExit {A} msg :
  keeps_world (printErrorAndExit (W:=W) (A:=A) msg).
Proof. apply keeps_bind; [apply keeps_error | intros _; apply keeps_exit]. Qed.

(** *** Triples *)

Lemma triple_ret {A} (P : State W -> Prop) (a : A) phi (Q : A -> State W -> Prop) X :
  (forall s, P s -> Q a s) -> triple P (ret a) phi Q X.
Proof. intros HQ s Hs. simpl. split; [apply HQ, Hs | constructor]. Qed.

Lemma triple_bind {A B} (P : State W -> Prop) (m : M W A) (k : A -> M W B) phi
    (Q : A -> State W -> Prop) (Q' : B -> State W -> Prop) X :
  stable phi X ->
  triple P m phi Q X ->
  (forall a, triple (Q a) (k a) phi Q' X) ->
  triple P (bind m k) phi Q' X.
Proof.
  intros HX Hm Hk s Hs. specialize (Hm s Hs). unfold bind.
  destruct (outcome (m s)) as [a|h] eqn:E; simpl.
  - destruct Hm as [HQ He]. specialize (Hk a _ HQ).
    destruct (outcome (k a (final (m s)))) as [b|h] eqn:E'.
    + destruct Hk as [HQ' He']. split; [exact HQ' | apply Forall_app; auto].
    + apply HX; assumption.
  - exact Hm.
Qed.

Lemma triple_conseq {A} (P P' : State W -> Prop) (m : M W A) phi
    (Q Q' : A -> State W -> Prop) X :
  (forall s, P' s -> P s) -> (forall a s, Q a s -> Q' a s) ->
  triple P m phi Q X -> triple P' m phi Q' X.
Proof.
  intros HP HQ Hm s Hs. specialize (Hm s (HP s Hs)).
  destruct (outcome (m s)); [|exact Hm].
  destruct Hm. split; auto.
Qed.

Lemma triple_gets {A} (P : State W -> Prop) (f : State W -> A) phi
    (Q : A -> State W -> Prop) X :
  (forall s, P s -> Q (f s) s) -> triple P (gets f) phi Q X.
Proof. intros HQ s Hs. simpl. split; [apply HQ, Hs | constructor]. Qed.

Lemma triple_modify (P : State W -> Prop) (f : State W -> State W) phi
    (Q : unit -> State W -> Prop) X :
  (forall s, P s -> Q tt (f s)) -> triple P (modify f) phi Q X.
Proof. intros HQ s Hs. simpl. split; [apply HQ, Hs | constructor]. Qed.

Lemma triple_log (P : State W -> Prop) line (phi : Event -> Prop)
    (Q : unit -> State W -> Prop) X :
  phi (EvLog line) -> (forall s, P s -> Q tt s) -> triple P (console_log line) phi Q X.
Proof. intros Hp HQ s Hs. simpl. split; [apply HQ, Hs | repeat constructor; exact Hp]. Qed.

Lemma triple_act (P : State W -> Prop) f e (phi : Event -> Prop)
    (Q : unit -> State W -> Prop) X :
  phi e -> (forall s, P s -> Q tt (set_world (f (world s)) s)) ->
  triple P (act f e) phi Q X.
Proof. intros Hp HQ s Hs. simpl. split; [apply HQ, Hs | repeat constructor; exact Hp]. Qed.

Lemma triple_exec (P : State W -> Prop) c (phi : Event -> Prop)
    (Q : Z * string -> State W -> Prop) X :
  (forall s, P s ->
     Q (sh_exec c (world s)).1 (set_world (sh_exec c (world s)).2 s)
     /\ phi (EvExec c (sh_exec c (world s)).1.1)) ->
  triple P (exec c) phi Q X.
Proof.
  intros HQ s Hs. specialize (HQ s Hs). unfold exec.
  destruct (sh_exec c (world s)) as [r w]. simpl in *.
  destruct HQ. split; [assumption | repeat constructor; assumption].
Qed.

Lemma triple_exit {A} (P : State W -> Prop) c phi (Q : A -> State W -> Prop)
    (X : Halt -> State W -> list Event -> Prop) :
  (forall s, P s -> X (Exit c) s []) -> triple P (exit c) phi Q X.
Proof. intros HX s Hs. simpl. apply HX, Hs. Qed.

Lemma triple_throw {A} (P : State W -> Prop) phi (Q : A -> State W -> Prop)
    (X : Halt -> State W -> list Event -> Prop) :
  (forall s, P s -> X Crash s []) -> triple P throw phi Q X.
Proof. intros HX s Hs. simpl. apply HX, Hs. Qed.

Lemma triple_printErrorAndExit {A} (P : State W -> Prop) msg phi
    (Q : A -> State W -> Prop) (X : Halt -> State W -> list Event -> Prop) :
  (forall s, P s -> X (Exit 1) s [EvError msg]) ->
  triple P (printErrorAndExit msg) phi Q X.
Proof. intros HX s Hs. simpl. apply HX, Hs. Qed.

Lemma triple_when (P : State W -> Prop) b (m : M W unit) phi
    (Q : unit -> State W -> Prop) X :
  (b = true -> triple P m phi Q X) ->
  (b = false -> forall s, P s -> Q tt s) ->
  triple P (when b m) phi Q X.
Proof.
  intros Ht Hf. destruct b; [apply Ht; reflexivity|].
  apply triple_ret. apply Hf. reflexivity.
Qed.

(** A triple from what [m] returns and from its events. *)
Lemma triple_split {A} (P : State W -> Prop) (m : M W A) (phi : Event -> Prop)
    (Q : A -> State W -> Prop) (X : Halt -> State W -> list Event -> Prop) :
  hoare P m Q -> emits phi m ->
  (forall h s evs, Forall phi evs -> X h s evs) ->
  triple P m phi Q X.
Proof.
  intros Hh He HX s Hs. specialize (Hh s Hs). specialize (He s).
  destruct (outcome (m s)); [|apply HX, He].
  destruct Hh as [HQ _]. split; assumption.
Qed.

Lemma stable_True (phi : Event -> Prop) :
  stable (W:=W) phi (fun _ _ _ => True).
Proof. intros h s e1 e2 _ _. exact I. Qed.

Lemma hoare_bind {A B} (P : State W -> Prop) (m : M W A) (k : A -> M W B)
    (Q : A -> State W -> Prop) (Q' : B -> State W -> Prop) :
  hoare P m Q -> (forall a, hoare (Q a) (k a) Q') -> hoare P (bind m k) Q'.
Proof. apply triple_bind, stable_True. Qed.

(** A computation that does not touch the state, from its events. *)
Lemma triple_emits {A} (P : State W -> Prop) (m : M W A) (phi : Event -> Prop)
    (X : Halt -> State W -> list Event -> Prop) :
  emits phi m ->
  (forall h s evs, Forall phi evs -> X h s evs) ->
  triple P m phi (fun _ _ => True) X.
Proof.
  intros Hm HX s Hs. specialize (Hm s).
  destruct (outcome (m s)); [split; [exact I | exact Hm] | apply HX, Hm].
Qed.

End Rules.

(** One step of a run whose first computation runs to a known result. *)
Ltac run_bind :=
  match goal with
  | |- context [bind ?m ?k ?s] =>
      first [ rewrite (bind_run_ret m k s _ _ _ eq_refl)
            | rewrite (bind_run_stop m k s _ _ _ eq_refl) ]
  end.

(** One step through a computation that leaves the world alone. *)
Ltac keeps_step :=
  lazymatch goal with
  | |- keeps_world (bind _ _) => apply keeps_bind; [| intros ?]
  | |- keeps_world (ret _) => apply keeps_ret
  | |- keeps_world (exit _) => apply keeps_exit
  | |- keeps_world throw => apply keeps_throw
  | |- keeps_world (gets _) => apply keeps_gets
  | |- keeps_world (test _ _) => apply keeps_gets
  | |- keeps_world (which _) => apply keeps_gets
  | |- keeps_world (cat _) => apply keeps_gets
  | |- keeps_world pwd => apply keeps_gets
  | |- keeps_world (modify _) => apply keeps_modify; intros ?; reflexivity
  | |- keeps_world (console_log _) => apply keeps_log
  | |- keeps_world (console_info _) => apply keeps_log
  | |- keeps_world (console_error _) => apply keeps_error
  | |- keeps_world (printErrorAndExit _) => apply keeps_printErrorAndExit
  | |- keeps_world (when _ _) => apply keeps_when
  | |- keeps_world (if ?b then _ else _) => destruct b eqn:?
  | |- keeps_world (match ?x with _ => _ end) => destruct x eqn:?
  end.

(** One step through a computation whose events all satisfy a predicate. *)
Ltac emits_step :=
  lazymatch goal with
  | |- emits _ (bind _ _) => apply emits_bind; [| intros ?]
  | |- emits _ (ret _) => apply emits_ret
  | |- emits _ (exit _) => apply emits_exit
  | |- emits _ throw => apply emits_throw
  | |- emits _ (gets _) => apply emits_gets
  | |- emits _ (modify _) => apply emits_modify
  | |- emits _ (test _ _) => apply emits_gets
  | |- emits _ (ls _) => apply emits_gets
  | |- emits _ (which _) => apply emits_gets
  | |- emits _ (cat _) => apply emits_gets
  | |- emits _ pwd => apply emits_gets
  | |- emits _ (console_log _) => apply emits_log
  | |- emits _ (console_info _) => apply emits_info
  | |- emits _ (console_error _) => apply emits_error
  | |- emits _ (printErrorAndExit _) => apply emits_printErrorAndExit
  | |- emits _ (exec _) => apply emits_exec; intros ?
  | |- emits _ (run _) => apply emits_run; intros ?
  | |- emits _ (safeRun _ _) => apply emits_safeRun; [intros ? | intros ? |]
  | |- emits _ (rm _) => apply emits_act
  | |- emits _ (cp _ _ _) => apply emits_act
  | |- emits _ (pushd _) => apply emits_act
  | |- emits _ popd => apply emits_act
  | |- emits _ (to _ _) => apply emits_act
  | |- emits _ (request _) => apply emits_request
  | |- emits _ (when _ _) => apply emits_when
  | |- emits _ (if ?b then _ else _) => destruct b eqn:?
  | |- emits _ (match ?x with _ => _ end) => destruct x eqn:?
  end.

End LogicFacts.

(** ** Rules for a dry run and a live run side by side *)

Module SimFacts.
Import Str Manifest Shell V1 Contracts Logic LogicFacts.
Local Open Scope sh_scope.

Section Rules.
Context {W : Type} `{Host W}.
Context (R : W -> W -> Prop) (scratch watched : string -> Prop)
        `{!DryRunContract W R scratch watched}.

Lemma cut_short_more ed el more :
  cut_short ed el -> cut_short (ed ++ more) el.
Proof.
  intros (p & el1 & tail & Hp & Hrel & -> & Htail).
  exists p, el1, tail. split; [apply prefix_app_r, Hp|]. split; [exact Hrel|].
  split; [reflexivity|].
  destruct Htail as [->|(c & code & out & Hc & Hg & -> & Hpre)]; [left; reflexivity|].
  right. exists c, code, out. repeat split; auto. apply prefix_app_r, Hpre.
Qed.

Lemma cut_short_after e1d e1l e2d e2l :
  Forall2 ev_rel e1d e1l -> cut_short e2d e2l -> cut_short (e1d ++ e2d) (e1l ++ e2l).
Proof.
  intros H1 (p & el1 & tail & Hp & Hrel & -> & Htail).
  exists (e1d ++ p)%list, (e1l ++ el1)%list, tail.
  split; [apply prefix_app, Hp|].
  split; [apply Forall2_app; assumption|].
  split; [rewrite app_assoc; reflexivity|].
  destruct Htail as [->|(c & code & out & Hc & Hg & -> & Hpre)]; [left; reflexivity|].
  right. exists c, code, out. repeat split; auto.
  rewrite <- app_assoc. apply prefix_app, Hpre.
Qed.

(** Both runs made the same, or corresponding, steps. *)
Lemma result_alike {A B} (Rv : A -> B -> Prop) (rd : Result W A) (rl : Result W B) :
  outcome_rel Rv (outcome rd) (outcome rl) ->
  R (world (final rd)) (world (final rl)) ->
  npmjson (final rd) = npmjson (final rl) ->
  notesForRelease (final rd) = notesForRelease (final rl) ->
  silent (final rd) = silent (final rl) ->
  Forall2 ev_rel (events rd) (events rl) ->
  result_rel R Rv rd rl.
Proof. intros. left. repeat split; assumption. Qed.

Lemma sim_ret {A B} (Rv : A -> B -> Prop) a b :
  Rv a b -> sim R Rv (ret a) (ret b).
Proof.
  intros Hv sd sl (Hw & Hn & Hnotes & Hsil).
  apply result_alike; simpl; auto.
Qed.

Lemma sim_bind {A B A' B'} (Rv : A -> B -> Prop) (Rv' : A' -> B' -> Prop)
    (md : M W A) (ml : M W B) (kd : A -> M W A') (kl : B -> M W B') :
  sim R Rv md ml ->
  (forall a b, Rv a b -> sim R Rv' (kd a) (kl b)) ->
  sim R Rv' (bind md kd) (bind ml kl).
Proof.
  intros Hm Hk sd sl Hs. specialize (Hm sd sl Hs). unfold bind.
  destruct Hm as [(Ho & Hst & Hev) | (h & Hstop & Hcut)].
  - destruct (outcome (md sd)) as [a|hd], (outcome (ml sl)) as [b|hl];
      simpl in Ho; try contradiction.
    + specialize (Hk a b Ho _ _ Hst).
      destruct Hk as [(Ho' & Hst' & Hev') | (h & Hstop & Hcut)].
      * left. simpl. split; [exact Ho'|]. split; [exact Hst'|].
        apply Forall2_app; assumption.
      * right. exists h. simpl. split; [exact Hstop|].
        apply cut_short_after; assumption.
    + subst hl. left. simpl. split; [reflexivity|]. split; assumption.
  - right. exists h. rewrite Hstop. simpl. split; [reflexivity|].
    destruct (outcome (md sd)); simpl; [apply cut_short_more|]; exact Hcut.
Qed.

Lemma sim_same_event (e : Event) :
  sim R eq (fun s => mkResult (Ret tt) s [e]) (fun s => mkResult (Ret tt) s [e]).
Proof.
  intros sd sl (Hw & Hn & Hnotes & Hsil).
  apply result_alike; simpl; auto. repeat constructor.
Qed.

Lemma sim_log line : sim R eq (console_log line) (console_log line).
Proof. apply sim_same_event. Qed.

Lemma sim_error line : sim R eq (console_error line) (console_error line).
Proof. apply sim_same_event. Qed.

Lemma sim_exit {A B} (Rv : A -> B -> Prop) c : sim R Rv (exit c) (exit c).
Proof.
  intros sd sl (Hw & Hn & Hnotes & Hsil). apply result_alike; simpl; auto.
Qed.

Lemma sim_throw {A B} (Rv : A -> B -> Prop) : sim R Rv throw throw.
Proof.
  intros sd sl (Hw & Hn & Hnotes & Hsil). apply result_alike; simpl; auto.
Qed.

Lemma sim_printErrorAndExit {A B} (Rv : A -> B -> Prop) msg :
  sim R Rv (printErrorAndExit msg) (printErrorAndExit msg).
Proof.
  unfold printErrorAndExit.
  eapply sim_bind; [apply sim_error|]. intros ? ? _. apply sim_exit.
Qed.

Lemma sim_exec c : ungated c -> sim R eq (exec c) (exec c).
Proof.
  intros Hc sd sl Hs. destruct Hs as (Hw & Hn & Hnotes & Hsil).
  destruct (dr_exec c _ _ Hc Hw) as [Hres Hw'].
  unfold exec.
  destruct (sh_exec c (world sd)) as [rd wd], (sh_exec c (world sl)) as [rl wl].
  simpl in *. subst rl. apply result_alike; simpl; auto. repeat constructor.
Qed.

Lemma sim_act f e :
  (forall w1 w2, R w1 w2 -> R (f w1) (f w2)) -> sim R eq (act f e) (act f e).
Proof.
  intros Hf sd sl (Hw & Hn & Hnotes & Hsil).
  apply result_alike; simpl; auto. repeat constructor.
Qed.

Lemma sim_rm args : sim R eq (rm args) (rm args).
Proof. apply sim_act. intros. apply dr_rm. assumption. Qed.

Lemma sim_cp o s d : sim R eq (cp o s d) (cp o s d).
Proof. apply sim_act. intros. apply dr_cp. assumption. Qed.

Lemma sim_pushd d : sim R eq (pushd d) (pushd d).
Proof. apply sim_act. intros. apply dr_pushd. assumption. Qed.

Lemma sim_popd : sim R eq popd popd.
Proof. apply sim_act. intros. apply dr_popd. assumption. Qed.

Lemma sim_to content path : sim R eq (to content path) (to content path).
Proof. apply sim_act. intros. apply dr_to. assumption. Qed.

Lemma sim_gets {A} (f : State W -> A) :
  (forall sd sl, state_rel R sd sl -> f sd = f sl) -> sim R eq (gets f) (gets f).
Proof.
  intros Hf sd sl Hs. pose proof (Hf _ _ Hs) as Hv.
  destruct Hs as (Hw & Hn & Hnotes & Hsil).
  apply result_alike; simpl; auto.
Qed.

Lemma sim_ls d : scratch d -> sim R eq (ls d) (ls d).
Proof. intros Hd. apply sim_gets. intros sd sl Hs. apply dr_ls; [exact Hd | apply Hs]. Qed.

Lemma sim_test o path : watched path -> sim R eq (test o path) (test o path).
Proof.
  intros Hp. apply sim_gets. intros sd sl Hs. apply dr_test; [exact Hp | apply Hs].
Qed.

Lemma sim_npmjson : sim R eq (gets npmjson) (gets npmjson).
Proof. apply sim_gets. intros sd sl Hs. apply Hs. Qed.

Lemma sim_notes : sim R eq (gets notesForRelease) (gets notesForRelease).
Proof. apply sim_gets. intros sd sl Hs. apply Hs. Qed.

Lemma sim_modify (f : State W -> State W) :
  (forall sd sl, state_rel R sd sl -> state_rel R (f sd) (f sl)) ->
  sim R eq (modify f) (modify f).
Proof.
  intros Hf sd sl Hs. destruct (Hf _ _ Hs) as (Hw & Hn & Hnotes & Hsil).
  apply result_alike; simpl; auto.
Qed.

Lemma sim_set_silent b : sim R eq (modify (set_silent b)) (modify (set_silent b)).
Proof. apply sim_modify. intros sd sl (? & ? & ? & ?). repeat split; auto. Qed.

Lemma sim_set_notes n :
  sim R eq (modify (set_notesForRelease n)) (modify (set_notesForRelease n)).
Proof. apply sim_modify. intros sd sl (? & ? & ? & ?). repeat split; auto. Qed.

Lemma sim_update_npmjson (g : Npm -> Npm) :
  sim R eq (modify (fun s => set_npmjson (g (npmjson s)) s))
           (modify (fun s => set_npmjson (g (npmjson s)) s)).
Proof.
  apply sim_modify. intros sd sl (? & Hn & ? & ?). repeat split; simpl; auto.
  rewrite Hn. reflexivity.
Qed.

Lemma sim_when b (md ml : M W unit) :
  sim R eq md ml -> sim R eq (when b md) (when b ml).
Proof. intros Hm. destruct b; [exact Hm | apply sim_ret; reflexivity]. Qed.

Lemma sim_run c : ungated c -> sim R eq (run c) (run c).
Proof.
  intros Hc. unfold run. eapply sim_bind; [apply sim_exec, Hc|]. intros [code out] ? <-.
  eapply sim_bind with (Rv := eq); [|intros ? ? _; apply sim_ret; reflexivity].
  destruct (negb (code =? 0)%Z); [apply sim_printErrorAndExit | apply sim_ret; reflexivity].
Qed.

(** *** Runs from one state, and after the same event *)

Lemma ev_rel_same evs : Forall2 ev_rel evs evs.
Proof. induction evs; constructor; [apply ev_same | assumption]. Qed.

Lemma state_rel_refl (s : State W) : state_rel R s s.
Proof. repeat split. apply dr_refl. Qed.

Lemma result_rel_stop {A B} (Rv : A -> B -> Prop) h (s : State W) e :
  result_rel R Rv (mkResult (Stop h) s e) (mkResult (Stop h) s e).
Proof.
  left. split; [reflexivity|]. split; [apply state_rel_refl | apply ev_rel_same].
Qed.

Lemma result_rel_prepend {A B} (Rv : A -> B -> Prop) e (rd : Result W A) (rl : Result W B) :
  result_rel R Rv rd rl -> result_rel R Rv (prepend e rd) (prepend e rl).
Proof.
  intros [(Ho & Hst & Hev) | (h & Hstop & Hcut)].
  - left. split; [exact Ho|]. split; [exact Hst|].
    apply Forall2_app; [apply ev_rel_same | exact Hev].
  - right. exists h. split; [exact Hstop|].
    apply cut_short_after; [apply ev_rel_same | exact Hcut].
Qed.

(** Behind the same computation from the same state. *)
Lemma result_rel_bind {A B C} (Rv : B -> C -> Prop) (m : M W A)
    (kd : A -> M W B) (kl : A -> M W C) s :
  (forall a, result_rel R Rv (kd a (final (m s))) (kl a (final (m s)))) ->
  result_rel R Rv (bind m kd s) (bind m kl s).
Proof.
  intros Hk. apply (bind_same (result_rel R Rv)).
  - intros. apply result_rel_stop.
  - intros. apply result_rel_prepend. assumption.
  - exact Hk.
Qed.

(** A command that gives the same in the two worlds, before what follows
    it. *)
Lemma result_rel_run {A B} (Rv : A -> B -> Prop) c (kd : M W A) (kl : M W B)
    (sd sl : State W) :
  state_rel R sd sl ->
  (sh_exec c (world sd)).1 = (sh_exec c (world sl)).1 ->
  R (sh_exec c (world sd)).2 (sh_exec c (world sl)).2 ->
  ((sh_exec c (world sd)).1.1 = 0%Z ->
   result_rel R Rv (kd (set_world (sh_exec c (world sd)).2 sd))
                   (kl (set_world (sh_exec c (world sl)).2 sl))) ->
  result_rel R Rv (bind (run c) (fun _ => kd) sd) (bind (run c) (fun _ => kl) sl).
Proof.
  intros (Hw & Hn & Hnotes & Hsil) He Hr Hk.
  unfold run, exec, printErrorAndExit, console_error, exit, ret, bind.
  destruct (sh_exec c (world sd)) as [[cd od] wd], (sh_exec c (world sl)) as [[cl ol] wl].
  cbn [fst snd] in *. injection He as <- <-. cbv beta iota. cbn [outcome final events].
  destruct (Z.eqb_spec cd 0) as [->|Hcode]; cbn.
  - apply (result_rel_prepend Rv [EvExec c 0]). apply Hk. reflexivity.
  - apply result_alike; simpl; auto. apply ev_rel_same.
Qed.

(** The two commands of the revert, before what follows them. *)
Lemma sim_revert {A B} (Rv : A -> B -> Prop) (kd : M W A) (kl : M W B) :
  sim R Rv kd kl ->
  sim R Rv (run "git reset HEAD ." ;; run "git checkout package.json" ;; kd)
           (run "git reset HEAD ." ;; run "git checkout package.json" ;; kl).
Proof.
  intros Hk sd sl Hs.
  pose proof (dr_revert _ _ (proj1 Hs)) as Hr. cbv zeta in Hr.
  destruct Hr as (He & HR & Hco).
  destruct Hs as (Hw & Hn & Hnotes & Hsil).
  apply result_rel_run; [repeat split; assumption | exact He | exact HR |].
  intros Hz. destruct (Hco Hz) as [He' HR'].
  apply result_rel_run; [repeat split; assumption | exact He' | exact HR' |].
  intros _. apply Hk. repeat split; assumption.
Qed.

Lemma sim_runAndGitRevertOnError cmd :
  cmd ∈ gate_commands ->
  sim R eq (runAndGitRevertOnError cmd) (runAndGitRevertOnError cmd).
Proof.
  intros Hc. unfold runAndGitRevertOnError.
  eapply sim_bind; [apply sim_exec, ungated_gate, Hc|]. intros [code out] ? <-.
  destruct (negb (code =? 0)%Z); [|apply sim_ret; reflexivity].
  eapply sim_bind; [apply sim_log|]. intros ? ? _.
  apply sim_revert.
  eapply sim_bind; [apply sim_log|]. intros ? ? _.
  apply sim_printErrorAndExit.
Qed.

(** *** The gateway *)

Variable cfg : Config.
Let dry := with_dryRunMode true cfg.
Let live := with_dryRunMode false cfg.

Lemma sim_safeRun c :
  gated c ->
  sim R (fun _ _ => True) (safeRun dry c) (safeRun live c).
Proof.
  intros Hg sd sl Hs. unfold safeRun. simpl.
  destruct Hs as (Hw & Hn & Hnotes & Hsil).
  pose proof (dr_gated_exec c _ _ Hg Hw) as Hgated.
  unfold run, bind, exec.
  destruct (sh_exec c (world sl)) as [[code out] wl]. simpl in *.
  destruct (Z.eqb_spec code 0) as [->|Hcode]; simpl.
  - apply result_alike; simpl; auto. repeat constructor.
  - right. exists (Exit 1). split; [reflexivity|].
    exists [], [], [EvExec c code; EvError out].
    split; [apply prefix_nil|]. split; [constructor|]. split; [reflexivity|].
    right. exists c, code, out. repeat split; auto.
Qed.

Lemma sim_safeRm d :
  scratch d -> sim R eq (safeRm dry ["-rf"; d]) (safeRm live ["-rf"; d]).
Proof.
  intros Hd sd sl (Hw & Hn & Hnotes & Hsil). unfold safeRm. simpl.
  apply result_alike; simpl; auto.
  - apply dr_gated_rm; assumption.
  - constructor; [apply (ev_rm ["-rf"; d]) | constructor].
Qed.

End Rules.

Ltac ungated_tac :=
  first [ apply ungated_clone
        | apply ungated_changelog_out;
          repeat (match goal with |- context [if ?b then _ else _] => destruct b end);
          set_solver
        | apply ungated_changelog_notes;
          repeat (match goal with |- context [if ?b then _ else _] => destruct b end);
          set_solver
        | apply ungated_gate; set_solver ].

Ltac gated_tac :=
  first [ apply gated_tag_notes | apply gated_tool; reflexivity ].

(** One pass over two runs of the same code. *)
Ltac sim_auto :=
  lazymatch goal with
  | |- sim _ _ (bind _ _) (bind _ _) =>
      eapply sim_bind; [ sim_auto | intros ? ? ?; subst; sim_auto ]
  | |- sim _ _ (ret _) (ret _) => apply sim_ret; first [reflexivity | exact eq_refl | exact I]
  | |- sim _ _ (exit _) (exit _) => apply sim_exit
  | |- sim _ _ throw throw => apply sim_throw
  | |- sim _ _ (console_log _) (console_log _) => apply sim_log
  | |- sim _ _ (console_info _) (console_info _) => apply sim_log
  | |- sim _ _ (console_error _) (console_error _) => apply sim_error
  | |- sim _ _ (printErrorAndExit _) (printErrorAndExit _) => apply sim_printErrorAndExit
  | |- sim _ _ (run _) (run _) => eapply sim_run; [eassumption | ungated_tac]
  | |- sim _ _ (runAndGitRevertOnError _) (runAndGitRevertOnError _) =>
      eapply sim_runAndGitRevertOnError; [eassumption | set_solver]
  | |- sim _ _ (rm _) (rm _) => eapply sim_rm; eassumption
  | |- sim _ _ (cp _ _ _) (cp _ _ _) => eapply sim_cp; eassumption
  | |- sim _ _ (pushd _) (pushd _) => eapply sim_pushd; eassumption
  | |- sim _ _ popd popd => eapply sim_popd; eassumption
  | |- sim _ _ (to _ _) (to _ _) => eapply sim_to; eassumption
  | |- sim _ _ (ls _) (ls _) => eapply sim_ls; eassumption
  | |- sim _ _ (test _ _) (test _ _) => eapply sim_test; eassumption
  | |- sim _ _ (gets npmjson) (gets npmjson) => apply sim_npmjson
  | |- sim _ _ (gets notesForRelease) (gets notesForRelease) => apply sim_notes
  | |- sim _ _ (modify _) (modify _) =>
      first [apply sim_set_silent | apply sim_set_notes | apply (sim_update_npmjson _ _)]
  | |- sim _ _ (safeRun _ _) (safeRun _ _) =>
      eapply sim_safeRun; [eassumption | gated_tac]
  | |- sim _ _ (safeRm _ _) (safeRm _ _) => eapply sim_safeRm; eassumption
  | |- sim _ _ (when _ _) (when _ _) => apply sim_when; sim_auto
  | |- sim _ _ (if ?b then _ else _) (if ?b then _ else _) => destruct b; sim_auto
  | |- sim _ _ (match ?x with _ => _ end) (match ?x with _ => _ end) =>
      destruct x; sim_auto
  end.

Ltac cfg_simpl :=
  cbn [with_dryRunMode repoRoot packagePath isPrivate isCommitsChangelogUsed
       isWithinMtChangelog bowerRoot tmpBowerRepo bowerRepo docsRoot tmpDocsRepo
       docsRepo docsBuild githubToken altPkgRootFolder skipBuildStep defaultDryRun
       argv dryRunMode].

Section Stages.
Context {W : Type} `{Host W}.
Context (R : W -> W -> Prop) (scratch watched : string -> Prop)
        `{!DryRunContract W R scratch watched}.
Variable cfg : Config.
Let dry := with_dryRunMode true cfg.
Let live := with_dryRunMode false cfg.

Lemma sim_versionBump opts : sim R eq (versionBump dry opts) (versionBump live opts).
Proof. unfold versionBump, dry, live. cfg_simpl. sim_auto. Qed.

Lemma sim_testAndBuild : sim R eq (testAndBuild dry) (testAndBuild live).
Proof. unfold testAndBuild, dry, live. cfg_simpl. sim_auto. Qed.

Lemma sim_generateChangelog preid notes :
  watched (path_join (repoRoot cfg) "CHANGELOG-alpha.md") ->
  sim R eq (generateChangelog dry preid notes) (generateChangelog live preid notes).
Proof.
  intros Hwatched. unfold generateChangelog, changelogCmd, dry, live. cfg_simpl. sim_auto.
Qed.

Lemma sim_commitTagPush preid v notes :
  sim R eq (commitTagPush dry preid v notes) (commitTagPush live preid v notes).
Proof. unfold commitTagPush, changelogCmd, dry, live. cfg_simpl. sim_auto. Qed.

(** Where the live run posts the release, the dry run prints a line; the
    live run can also end there with an exception, on a manifest without a
    repository. *)
Lemma sim_publishToGitHub preid v :
  sim R eq (publishToGitHub dry preid v) (publishToGitHub live preid v).
Proof.
  unfold publishToGitHub, dry, live. cfg_simpl.
  destruct (truthy (githubToken cfg)) as [token|]; [|sim_auto].
  eapply sim_bind; [sim_auto|]. intros ? ? _.
  eapply sim_bind; [sim_auto|]. intros ? ? _.
  intros sd sl (Hw & Hn & Hnotes & Hsil).
  assert (Hcrash : forall rd : Result W unit,
            result_rel R eq rd (mkResult (Stop Crash) sl [])).
  { intros rd. right. exists Crash. split; [reflexivity|].
    exists [], [], []. split; [apply prefix_nil|]. split; [constructor|].
    split; [reflexivity|]. left. reflexivity. }
  unfold bind at 1. unfold gets at 1. cbn [outcome final events].
  destruct (repository (npmjson sl)) as [|s|[u|]].
  - apply Hcrash.
  - apply result_alike; simpl; auto. repeat constructor.
  - destruct (nonempty u).
    + apply result_alike; simpl; auto. repeat constructor.
    + apply Hcrash.
  - apply Hcrash.
Qed.

Lemma sim_publishToNpm preid tag :
  sim R eq (publishToNpm dry preid tag) (publishToNpm live preid tag).
Proof.
  unfold publishToNpm, dry, live. cfg_simpl. destruct (is_truthy preid); sim_auto.
Qed.

Lemma sim_releaseAdRepo repo src tmp v :
  scratch tmp ->
  sim R eq (releaseAdRepo dry repo src (Some tmp) v) (releaseAdRepo live repo src (Some tmp) v).
Proof.
  intros Htmp. unfold releaseAdRepo, dry, live.
  assert (Ht : truthy (Some tmp) = Some tmp \/ truthy (Some tmp) = None).
  { unfold truthy. destruct (nonempty tmp); auto. }
  destruct (truthy repo), (truthy src); destruct Ht as [Ht | Ht]; rewrite ?Ht;
    destruct (truthy v); sim_auto.
Qed.

Lemma sim_publishToBower v :
  scratch (tmpBowerRepo cfg) -> sim R eq (publishToBower dry v) (publishToBower live v).
Proof.
  intros Htmp. unfold publishToBower, dry, live. cfg_simpl.
  destruct (isPrivate cfg); [sim_auto|].
  destruct (is_truthy (bowerRepo cfg)); [|sim_auto].
  eapply sim_bind; [sim_auto|]. intros ? ? _.
  eapply sim_bind; [apply sim_releaseAdRepo, Htmp|]. intros ? ? _. sim_auto.
Qed.

Lemma sim_publishDocs preid v :
  scratch (tmpDocsRepo cfg) -> sim R eq (publishDocs dry preid v) (publishDocs live preid v).
Proof.
  intros Htmp. unfold publishDocs, dry, live. cfg_simpl.
  destruct (negb (isPrivate cfg) && negb (is_truthy preid) && is_truthy (docsRepo cfg));
    [|sim_auto].
  eapply sim_bind; [sim_auto|]. intros ? ? _.
  eapply sim_bind; [apply sim_releaseAdRepo, Htmp|]. intros ? ? _. sim_auto.
Qed.

(** The release behind the checks at its head, dry and live. *)
Lemma sim_release_body opts nothing :
  scratch (tmpBowerRepo cfg) -> scratch (tmpDocsRepo cfg) ->
  watched (path_join (repoRoot cfg) "CHANGELOG-alpha.md") ->
  sim R eq
    ((fun _ : unit =>
        nv ← versionBump dry opts;
        testAndBuild dry ;;
        notes ← gets notesForRelease;
        modify (set_notesForRelease
                  (Some match truthy notes with
                        | Some n => ("v" +:+ nv) +:+ " " +:+ n
                        | None => "v" +:+ nv
                        end)) ;;
        generateChangelog dry (preid opts)
          match truthy notes with
          | Some n => ("v" +:+ nv) +:+ " " +:+ n
          | None => "v" +:+ nv
          end ;;
        commitTagPush dry (preid opts) ("v" +:+ nv)
          match truthy notes with
          | Some n => ("v" +:+ nv) +:+ " " +:+ n
          | None => "v" +:+ nv
          end ;;
        when (negb (a_onlyDocs (argv dry)))
             (publishToGitHub dry (preid opts) ("v" +:+ nv) ;;
              publishToNpm dry (preid opts) (npmTagName opts) ;;
              publishToBower dry ("v" +:+ nv)) ;;
        publishDocs dry (preid opts) ("v" +:+ nv) ;;
        console_log ("Version v" +:+ nv +:+ " released!")) nothing)
    ((fun _ : unit =>
        nv ← versionBump live opts;
        testAndBuild live ;;
        notes ← gets notesForRelease;
        modify (set_notesForRelease
                  (Some match truthy notes with
                        | Some n => ("v" +:+ nv) +:+ " " +:+ n
                        | None => "v" +:+ nv
                        end)) ;;
        generateChangelog live (preid opts)
          match truthy notes with
          | Some n => ("v" +:+ nv) +:+ " " +:+ n
          | None => "v" +:+ nv
          end ;;
        commitTagPush live (preid opts) ("v" +:+ nv)
          match truthy notes with
          | Some n => ("v" +:+ nv) +:+ " " +:+ n
          | None => "v" +:+ nv
          end ;;
        when (negb (a_onlyDocs (argv live)))
             (publishToGitHub live (preid opts) ("v" +:+ nv) ;;
              publishToNpm live (preid opts) (npmTagName opts) ;;
              publishToBower live ("v" +:+ nv)) ;;
        publishDocs live (preid opts) ("v" +:+ nv) ;;
        console_log ("Version v" +:+ nv +:+ " released!")) nothing).
Proof.
  intros Hb Hd Hwatched. cbv beta. unfold dry, live. cfg_simpl.
  eapply sim_bind; [apply sim_versionBump|]. intros nv ? <-.
  eapply sim_bind; [apply sim_testAndBuild|]. intros ? ? _.
  eapply sim_bind; [sim_auto|]. intros notes ? <-.
  eapply sim_bind; [sim_auto|]. intros ? ? _.
  eapply sim_bind; [apply sim_generateChangelog, Hwatched|]. intros ? ? _.
  eapply sim_bind; [apply sim_commitTagPush|]. intros ? ? _.
  eapply sim_bind.
  { apply sim_when.
    eapply sim_bind; [apply sim_publishToGitHub|]. intros ? ? _.
    eapply sim_bind; [apply sim_publishToNpm|]. intros ? ? _.
    apply sim_publishToBower, Hb. }
  intros ? ? _.
  eapply sim_bind; [apply sim_publishDocs, Hd|]. intros ? ? _. sim_auto.
Qed.

(** The whole release, dry and live, from one state: the checks at its head
    are the same computation in both. *)
Lemma sim_release opts (s : State W) :
  scratch (tmpBowerRepo cfg) -> scratch (tmpDocsRepo cfg) ->
  watched (path_join (repoRoot cfg) "CHANGELOG-alpha.md") ->
  result_rel R eq (release dry opts s) (release live opts s).
Proof.
  intros Hb Hd Hwatched. unfold release. cbv zeta.
  apply (result_rel_bind R scratch watched). intros nothing.
  apply (sim_release_body opts nothing Hb Hd Hwatched).
  apply (state_rel_refl R scratch watched).
Qed.

End Stages.
End SimFacts.

(** * The callbacks of the requests and the process *)

Module ProcessFacts.
Import Str Manifest Shell V1 Contracts Logic LogicFacts.

Section Callbacks.
Context {W : Type} `{Host W}.

Lemma githubCallback_logs token resp :
  emits (fun e => exists line, e = EvLog line) (githubCallback (W:=W) token resp).
Proof.
  unfold githubCallback. repeat emits_step; eauto.
Qed.

Lemma callbacks_logs token qs :
  emits (fun e => exists line, e = EvLog line) (callbacks token qs).
Proof.
  induction qs as [|q qs IH]; simpl; repeat emits_step; auto using githubCallback_logs.
Qed.

Lemma githubCallback_final token resp (s : State W) :
  final (githubCallback token resp s) = s.
Proof.
  destruct resp as [err|st [url|]]; simpl; [reflexivity| |];
    destruct (String.eqb st "Unauthorized"); reflexivity.
Qed.

Lemma callbacks_final token qs (s : State W) :
  final (callbacks token qs s) = s.
Proof.
  induction qs as [|q qs IH]; [reflexivity|].
  cbn [callbacks]. run_bind. cbn [final prepend].
  pose proof (githubCallback_final token (http_response q (world s)) s) as Hf.
  destruct (outcome (githubCallback token (http_response q (world s)) s)) as [[]|h] eqn:Eo.
  - rewrite (bind_ret_eq _ _ _ _ Eo). simpl. rewrite Hf. apply IH.
  - rewrite (bind_stop_eq _ _ _ _ Eo). simpl. exact Hf.
Qed.

(** The events of the process are those of the script, then lines of the
    callbacks. *)
Lemma process_events token argv (w : W) :
  exists cb,
    events (process token argv w) = (events (script token argv (init_state w)) ++ cb)%list
    /\ Forall (fun e => exists line, e = EvLog line) cb.
Proof.
  unfold process.
  destruct (outcome (script token argv (init_state w))) as [[]|h]; simpl.
  - eexists. split; [reflexivity|]. apply callbacks_logs.
  - exists []. rewrite app_nil_r. split; [reflexivity | constructor].
Qed.

Lemma process_final token argv (w : W) :
  final (process token argv w) = final (script token argv (init_state w)).
Proof.
  unfold process.
  destruct (outcome (script token argv (init_state w))) as [[]|h]; simpl;
    [apply callbacks_final | reflexivity].
Qed.

(** When the script stops, the process is the script. *)
Lemma process_stop token argv (w : W) h :
  outcome (script token argv (init_state w)) = Stop h ->
  outcome (process token argv w) = Stop h
  /\ events (process token argv w) = events (script token argv (init_state w)).
Proof.
  unfold process. intros ->. split; reflexivity.
Qed.

(** The process returns only when the script did. *)
Lemma process_ret token argv (w : W) :
  outcome (process token argv w) = Ret tt ->
  outcome (script token argv (init_state w)) = Ret tt.
Proof.
  unfold process.
  destruct (outcome (script token argv (init_state w))) as [[]|h]; simpl;
    [reflexivity | discriminate].
Qed.

(** A run without a request has no callback. *)
Lemma no_request evs :
  Forall (fun e => forall r, e <> EvRequest r) evs -> requests evs = [].
Proof.
  unfold requests. induction 1 as [|e l He _ IH]; [reflexivity|].
  simpl. destruct e; try exact IH. exfalso. exact (He _ eq_refl).
Qed.

Lemma process_no_request token argv (w : W) :
  requests (events (script token argv (init_state w))) = [] ->
  outcome (process token argv w) = outcome (script token argv (init_state w))
  /\ events (process token argv w) = events (script token argv (init_state w)).
Proof.
  unfold process. intros ->.
  destruct (outcome (script token argv (init_state w))) as [[]|h]; simpl;
    rewrite ?app_nil_r; split; reflexivity.
Qed.

End Callbacks.
End ProcessFacts.

(** ** The small world keeps the contracts *)

Module ToyFacts.
Import Str StrFacts Manifest Shell Contracts Toy.

Lemma exec_failing P c w :
  existsb (String.eqb c) (failing P) = true -> exec P c w = ((1%Z, "failed"), w).
Proof. intros E. unfold exec. rewrite E. reflexivity. Qed.

Lemma exec_head P c w : c ∈ before_commit -> head (exec P c w).2 = head w.
Proof.
  intros Hc. unfold exec.
  destruct (existsb (String.eqb c) (failing P)); [reflexivity|].
  unfold before_commit in Hc.
  repeat (apply elem_of_cons in Hc as [->|Hc];
          [simpl; try destruct (with_index P); reflexivity|]).
  inversion Hc.
Qed.

(** The version-control tool of the small world, with its index, when the
    two commands of the revert succeed. *)
Lemma git_contract (P : Params) :
  with_index P = true ->
  passes P "git reset HEAD ." ->
  passes P "git checkout package.json" ->
  GitContract World (H:=host P) manifest_path.
Proof.
  intros Hi Hreset Hcheckout.
  refine {| committed := head; staged := index |}.
  - intros w. cbv zeta. simpl. unfold exec.
    destruct (existsb (String.eqb "git diff-index --name-only HEAD --") (failing P)).
    + simpl. split; [reflexivity | discriminate].
    + simpl. split; [reflexivity|].
      fold (manifest w).
      destruct (String.eqb_spec (manifest w) (head w)) as [E|E]; [|discriminate].
      intros _. symmetry. exact E.
  - intros c w Hc. apply (exec_head P c w Hc).
  - intros path content w. reflexivity.
  - intros w. cbv zeta. simpl. unfold exec. unfold passes in Hreset. rewrite Hreset.
    simpl. split; reflexivity.
  - intros w. cbv zeta. simpl. unfold exec. unfold passes in Hcheckout.
    rewrite Hcheckout, Hi. simpl. split; [reflexivity|].
    rewrite lookup_insert_eq. reflexivity.
Defined.

Lemma alike_manifest w1 w2 : alike w1 w2 -> manifest w1 = manifest w2.
Proof. intros (Hf & _). unfold manifest. rewrite Hf. reflexivity. Qed.

Lemma alike_entries d w1 w2 : alike w1 w2 -> entries d w1 = entries d w2.
Proof. intros (_ & Hd & _). unfold entries. rewrite Hd. reflexivity. Qed.

Lemma alike_current w1 w2 : alike w1 w2 -> current w1 = current w2.
Proof. intros (_ & _ & Hs & _). unfold current. rewrite Hs. reflexivity. Qed.

Ltac alike_solve :=
  match goal with
  | H : alike _ _ |- _ =>
      destruct H as (? & ? & ? & ? & ?); unfold alike; simpl; repeat split; congruence
  end.

Lemma alike_refl w : alike w w.
Proof. repeat split. Qed.

Lemma alike_trans w1 w2 w3 : alike w1 w2 -> alike w2 w3 -> alike w1 w3.
Proof.
  intros (? & ? & ? & ? & ?) (? & ? & ? & ? & ?). unfold alike. repeat split; congruence.
Qed.

(** The commands outside the gateway are none of those the version-control
    tool of the small world knows, the clone apart. *)
Lemma ungated_plain c :
  ungated c ->
  String.eqb c "git diff-index --name-only HEAD --" = false
  /\ String.eqb c "git add package.json" = false
  /\ String.eqb c "git reset HEAD ." = false
  /\ String.eqb c "git checkout package.json" = false.
Proof.
  intros [c' Hc | cmd title out args Hc | cmd title Hc | repo tmp].
  - unfold gate_commands in Hc.
    repeat (apply elem_of_cons in Hc as [->|Hc]; [repeat split; reflexivity|]).
    inversion Hc.
  - repeat (apply elem_of_cons in Hc as [->|Hc]; [repeat split; reflexivity|]).
    inversion Hc.
  - repeat (apply elem_of_cons in Hc as [->|Hc]; [repeat split; reflexivity|]).
    inversion Hc.
  - repeat split; reflexivity.
Qed.

(** A command of the gateway that succeeds changes the index or is noted. *)
Lemma exec_gated_alike P c w :
  gated c -> (exec P c w).1.1 = 0%Z -> alike w (exec P c w).2.
Proof.
  intros Hg. unfold exec.
  destruct (existsb (String.eqb c) (failing P)); [discriminate|].
  destruct Hg as [c Hg | title args v].
  - destruct (String.eqb_spec c "git diff-index --name-only HEAD --") as [->|_];
      [discriminate Hg|].
    destruct (String.eqb c "git add package.json");
      [destruct (with_index P); intros _; repeat split|].
    destruct (String.eqb_spec c "git reset HEAD .") as [->|_]; [discriminate Hg|].
    destruct (String.eqb_spec c "git checkout package.json") as [->|_]; [discriminate Hg|].
    destruct (strip_prefix "git clone " c) as [rest|] eqn:E; [|intros _; repeat split].
    apply strip_prefix_Some in E. subst c. discriminate Hg.
  - intros _. repeat split.
Qed.

Lemma exec_reset P w :
  exec P "git reset HEAD ." w =
    if existsb (String.eqb "git reset HEAD .") (failing P)
    then ((1%Z, "failed"), w)
    else ((0%Z, EmptyString), set_index (head w) w).
Proof.
  unfold exec.
  destruct (existsb (String.eqb "git reset HEAD .") (failing P)); reflexivity.
Qed.

Lemma exec_checkout P w :
  exec P "git checkout package.json" w =
    if existsb (String.eqb "git checkout package.json") (failing P)
    then ((1%Z, "failed"), w)
    else ((0%Z, EmptyString),
          set_files (<[manifest_path := if with_index P then index w else head w]>
                       (files w)) w).
Proof.
  unfold exec.
  destruct (existsb (String.eqb "git checkout package.json") (failing P)); reflexivity.
Qed.

(** What the gateway holds back in a dry run, the staging of the manifest
    and the commands that are only noted, is not seen by anything the script
    does outside the gateway: a dry run and a live run stay alike, with or
    without an index. *)
Lemma dry_run_contract (P : Params) :
  DryRunContract World (H:=host P) alike (fun _ => True) (fun _ => True).
Proof.
  constructor.
  - apply alike_refl.
  - intros c w1 w2 Hc Hw. simpl. unfold exec.
    destruct (ungated_plain c Hc) as (-> & -> & -> & ->).
    assert (Hr : remote w1 = remote w2) by apply Hw.
    assert (Hd : dirs w1 = dirs w2) by apply Hw.
    rewrite Hr, Hd.
    destruct (existsb (String.eqb c) (failing P)); [split; [reflexivity | exact Hw]|].
    destruct (strip_prefix "git clone " c) as [rest|];
      [|split; [reflexivity | alike_solve]].
    destruct (split_on " " rest) as [|x [|y [|z l]]];
      (split; [reflexivity | first [exact Hw | alike_solve]]).
  - intros w1 w2 Hw. cbv zeta. cbn [sh_exec host]. rewrite !exec_reset.
    destruct (existsb (String.eqb "git reset HEAD .") (failing P)); cbn [fst snd].
    { split; [reflexivity|]. split; [exact Hw | discriminate]. }
    assert (Hh : head w1 = head w2) by apply Hw.
    split; [reflexivity|]. split; [alike_solve|]. intros _.
    rewrite !exec_checkout.
    destruct (existsb (String.eqb "git checkout package.json") (failing P)); cbn [fst snd].
    { split; [reflexivity | alike_solve]. }
    split; [reflexivity|]. cbn [index head set_index]. rewrite Hh.
    destruct (with_index P); alike_solve.
  - intros args w1 w2 Hw. simpl. unfold rm.
    rewrite (alike_current _ _ Hw), (alike_entries _ _ _ Hw).
    assert (Hd : dirs w1 = dirs w2) by apply Hw.
    assert (Hf : files w1 = files w2) by apply Hw.
    rewrite Hd, Hf.
    repeat match goal with
           | |- context [match ?x with _ => _ end] => destruct x; try exact Hw
           end; alike_solve.
  - intros o s d w1 w2 Hw. simpl. unfold cp.
    rewrite !(alike_entries _ _ _ Hw).
    assert (Hd : dirs w1 = dirs w2) by apply Hw. rewrite Hd.
    destruct (String.eqb o "-R"); [alike_solve | exact Hw].
  - intros d w1 w2 Hw. simpl. alike_solve.
  - intros w1 w2 Hw. simpl. alike_solve.
  - intros p c w1 w2 Hw. simpl. alike_solve.
  - intros d w1 w2 _ Hw. simpl. unfold ls. rewrite (alike_entries _ _ _ Hw). reflexivity.
  - intros o p w1 w2 _ Hw. simpl.
    assert (Hd : dirs w1 = dirs w2) by apply Hw.
    assert (Hf : files w1 = files w2) by apply Hw.
    rewrite Hd, Hf. reflexivity.
  - intros c w1 w2 Hg Hw Hz. simpl in *.
    exact (alike_trans _ _ _ Hw (exec_gated_alike P c w2 Hg Hz)).
  - intros d w1 w2 _ Hw. exact Hw.
Qed.

End ToyFacts.
(** ** Version resolution *)

Module VersionFacts.
Import Str StrFacts Semver SemverFacts V1.

(** A printed version against [cur]: the comparison of what the constructor
    reads of it, when it is not too long. *)
Lemma gt_format new old cur pre' :
  construct cur = Some old ->
  parse_all parse_pre_ident (map ident_string (prerelease new)) = Some pre' ->
  in_range new = true ->
  gt (format new) cur =
    (String.length (format new) <=? MAX_LENGTH)%nat &&
    is_Gt (compare (mkSemVer (major new) (minor new) (patch new) pre' []) old).
Proof.
  intros Hcur Hpre Hr. unfold gt.
  destruct (Nat.leb_spec (String.length (format new)) MAX_LENGTH) as [Hl|Hl].
  - rewrite (construct_format new pre' Hpre Hr Hl), Hcur. reflexivity.
  - unfold construct at 1.
    replace (MAX_LENGTH <? String.length (format new))%nat with true;
      [reflexivity|]. symmetry. apply Nat.ltb_lt, Hl.
Qed.

Lemma compare_succ n : N.compare (n + 1) n = Gt.
Proof. apply N.compare_gt_iff. lia. Qed.

Lemma eqb_nat_0_nil {A} (l : list A) : Nat.eqb (length l) 0 = true <-> l = [].
Proof. destruct l; simpl; split; congruence. Qed.

(** What a [major], [minor] or [patch] increment does to the numbers: it
    raises one, or the version was a pre-release of that level. *)
Lemma inc_version_main v k :
  k <> RPre ->
  (raises v k = true /\ compareMain (inc_version v k None) v = Gt) \/
  (raises v k = false /\ compareMain (inc_version v k None) v = Eq /\ prerelease v <> []).
Proof.
  intros Hk. unfold compareMain, inc_version, raises.
  destruct k; [| | |congruence]; simpl.
  - destruct (N.eqb_spec (minor v) 0) as [Hmi|Hmi]; simpl.
    + destruct (N.eqb_spec (patch v) 0) as [Hpa|Hpa]; simpl.
      * destruct (prerelease v) eqn:Ep; simpl.
        -- left. rewrite compare_succ. auto.
        -- right. rewrite N.compare_refl, Hmi, Hpa. simpl.
           split; [reflexivity|]. split; [reflexivity|discriminate].
      * left. rewrite compare_succ. auto.
    + left. rewrite compare_succ. auto.
  - rewrite N.compare_refl. simpl.
    destruct (N.eqb_spec (patch v) 0) as [Hpa|Hpa]; simpl.
    + destruct (prerelease v) eqn:Ep; simpl.
      * left. rewrite compare_succ. auto.
      * right. rewrite N.compare_refl, Hpa. simpl.
        split; [reflexivity|]. split; [reflexivity|discriminate].
    + left. rewrite compare_succ. auto.
  - rewrite !N.compare_refl. simpl.
    destruct (prerelease v) eqn:Ep; simpl.
    + left. split; [reflexivity | apply compare_succ].
    + right. rewrite N.compare_refl. split; [reflexivity|]. split; [reflexivity|discriminate].
Qed.

Lemma inc_version_release v k : k <> RPre -> prerelease (inc_version v k None) = [].
Proof. destruct k; simpl; congruence. Qed.

Lemma bump_kind_not_pre t k : bump_kind t = Some k -> k <> RPre.
Proof.
  unfold bump_kind.
  destruct (String.eqb t "major"); [congruence|].
  destruct (String.eqb t "minor"); [congruence|].
  destruct (String.eqb t "patch"); congruence.
Qed.

Lemma truthy_nonempty o id : truthy o = Some id -> nonempty id = true.
Proof.
  unfold truthy. destruct o as [s|]; [|discriminate].
  destruct (nonempty s) eqn:E; [|discriminate]. congruence.
Qed.

Lemma truthy_Some_id id : nonempty id = true -> truthy (Some id) = Some id.
Proof. intros E. unfold truthy. rewrite E. reflexivity. Qed.

Lemma truthy_id o id : truthy o = Some id -> truthy (Some id) = Some id.
Proof. intros E. apply truthy_Some_id, (truthy_nonempty _ _ E). Qed.

Lemma bump_last_num_wf l l' :
  bump_last_num l = Some l' -> Forall wf_ident l -> Forall wf_ident l'.
Proof.
  revert l'. induction l as [|x l IH]; simpl; intros l'; [discriminate|].
  intros Hb Hwf. inversion Hwf as [|? ? Hx Hl]; subst.
  destruct (bump_last_num l) as [r'|].
  - injection Hb as <-. constructor; [exact Hx | apply IH; auto].
  - destruct x; [|discriminate]. injection Hb as <-. constructor; [exact I | exact Hl].
Qed.

Lemma inc_pre_wf pre id :
  Forall wf_ident pre -> nonempty id = true -> is_Some (parse_pre_ident id) ->
  Forall wf_ident (inc_pre pre (Some id)).
Proof.
  intros Hpre Hne Hid.
  assert (Hfresh : Forall wf_ident [IStr id; INum 0])
    by (repeat constructor; exact Hid).
  assert (Hpre1 : Forall wf_ident
            match pre with
            | [] => [INum 0]
            | _ => match bump_last_num pre with
                   | Some p => p
                   | None => (pre ++ [INum 0])%list
                   end
            end).
  { destruct pre as [|i l]; [repeat constructor|].
    destruct (bump_last_num (i :: l)) eqn:E.
    - eapply bump_last_num_wf; eauto.
    - apply Forall_app. split; [exact Hpre | repeat constructor]. }
  unfold inc_pre. rewrite (truthy_Some_id id Hne).
  match goal with |- Forall _ (match ?p with _ => _ end) => destruct p as [|[n|s0] rest] end;
    try exact Hfresh.
  destruct (String.eqb s0 id); [|assumption].
  destruct (isNaN (head rest)); assumption.
Qed.

Lemma inc_pre_head pre id :
  nonempty id = true -> head (inc_pre pre (Some id)) = Some (IStr id).
Proof.
  intros Hid. unfold inc_pre. rewrite (truthy_Some_id id Hid).
  match goal with |- head (match ?p with _ => _ end) = _ => destruct p as [|[n|s0] rest] end;
    try reflexivity.
  destruct (String.eqb_spec s0 id) as [->|]; [|reflexivity].
  destruct (isNaN (head rest)); reflexivity.
Qed.

(** The pre-release increment of a version the constructor takes: well
    formed, in range, and under the identifier. *)
Lemma semver_inc_pre b vb id :
  construct b = Some vb -> nonempty id = true -> is_Some (parse_pre_ident id) ->
  semver_inc (Some b) RPre (Some id) = Some (format (inc_version vb RPre (Some id)))
  /\ wf (inc_version vb RPre (Some id))
  /\ in_range (inc_version vb RPre (Some id)) = true
  /\ head (prerelease (inc_version vb RPre (Some id))) = Some (IStr id).
Proof.
  intros Hb Hne Hid. unfold semver_inc, inc. rewrite Hb.
  destruct (construct_wf _ _ Hb) as [Hwf Hr].
  split; [reflexivity|]. split; [|split].
  - unfold wf. simpl. apply inc_pre_wf; [exact Hwf | exact Hne | exact Hid].
  - exact Hr.
  - simpl. apply inc_pre_head, Hne.
Qed.

(** A bump within the range of the numbers prints a version the
    constructor takes back as it is. *)
Lemma bump_reads cur v k :
  construct cur = Some v -> k <> RPre ->
  in_range (inc_version v k None) = true ->
  semver_inc (Some cur) k None = Some (format (inc_version v k None))
  /\ (String.length (format (inc_version v k None)) <= MAX_LENGTH)%nat
  /\ construct (format (inc_version v k None))
     = Some (mkSemVer (major (inc_version v k None)) (minor (inc_version v k None))
                      (patch (inc_version v k None)) [] []).
Proof.
  intros Hcur Hk Hr.
  assert (Epre : parse_all parse_pre_ident
                   (map ident_string (prerelease (inc_version v k None))) = Some [])
    by (rewrite inc_version_release by exact Hk; reflexivity).
  assert (Hl : (String.length (format (inc_version v k None)) <= MAX_LENGTH)%nat).
  { rewrite format_unfold, inc_version_release by exact Hk.
    simpl pre_suffix. rewrite append_nil_r.
    unfold in_range in Hr. apply andb_true_iff in Hr as [[Hma Hmi]%andb_true_iff Hpa].
    apply N.leb_le in Hma, Hmi, Hpa.
    pose proof (length_main _ _ _ (N.le_trans _ _ _ Hma (N.le_succ_diag_r _))
                  (N.le_trans _ _ _ Hmi (N.le_succ_diag_r _))
                  (N.le_trans _ _ _ Hpa (N.le_succ_diag_r _))) as H50.
    unfold MAX_LENGTH. lia. }
  split; [unfold semver_inc, inc; rewrite Hcur; reflexivity|].
  split; [exact Hl|].
  apply construct_format; assumption.
Qed.

End VersionFacts.
Section VersionClaims.
Import Str StrFacts Semver SemverFacts V1 VersionFacts.

(** C3: when the bump kind is absent and a pre-release identifier is given,
    the pre-release increment is applied to the current version itself:
    the numbers of the result are those the library reads in the current
    version, and only its pre-release part is incremented.  In particular
    [2.0.0-beta.0] with the identifier [beta] resolves to [2.0.0-beta.1]. *)
Theorem C3_preid_alone_restamps_current (cur preid : string) (v : SemVer) :
  construct cur = Some v ->
  nonempty preid = true ->
  newVersion (Some cur) None (Some preid)
    = Some (format (mkSemVer (major v) (minor v) (patch v)
                             (inc_pre (prerelease v) (Some preid)) (build v)))
  /\ newVersion (Some cur) None (Some preid) = Semver.inc cur RPre (Some preid)
  /\ newVersion (Some "2.0.0-beta.0") None (Some "beta") = Some "2.0.0-beta.1".
Proof.
  intros Hcur Hne.
  assert (E : newVersion (Some cur) None (Some preid) = Semver.inc cur RPre (Some preid)).
  { unfold newVersion. rewrite (truthy_Some_id preid Hne). reflexivity. }
  split; [|split; [exact E | reflexivity]].
  rewrite E. unfold Semver.inc. rewrite Hcur. reflexivity.
Qed.

Lemma C3_witness :
  newVersion (Some "1.4.0-rc.2") None (Some "rc")
    = Some (format (mkSemVer 1 4 0 (inc_pre [IStr "rc"; INum 2] (Some "rc")) []))
  /\ newVersion (Some "1.4.0-rc.2") None (Some "rc") = Semver.inc "1.4.0-rc.2" RPre (Some "rc")
  /\ newVersion (Some "2.0.0-beta.0") None (Some "beta") = Some "2.0.0-beta.1".
Proof.
  apply (C3_preid_alone_restamps_current "1.4.0-rc.2" "rc"
           (mkSemVer 1 4 0 [IStr "rc"; INum 2] [])); reflexivity.
Defined.

(** C4, as stated, fails in two ways.  With a pre-release identifier the
    resolved version can be lower than the current one: [1.0.0-beta.5]
    bumped by [major] under the identifier [beta] resolves to
    [1.0.0-beta.0].  And a bump of the largest number the library accepts
    gives a string that is not a version: [9007199254740991.0.0] bumped by
    [major] resolves to [9007199254740992.0.0]. *)
Lemma C4_counterexample :
  (valid "1.0.0-beta.5" = true
   /\ bump_kind "major" = Some RMajor
   /\ newVersion (Some "1.0.0-beta.5") (Some "major") (Some "beta") = Some "1.0.0-beta.0"
   /\ gt "1.0.0-beta.0" "1.0.0-beta.5" = false
   /\ gt "1.0.0-beta.5" "1.0.0-beta.0" = true)
  /\ (valid "9007199254740991.0.0" = true
      /\ newVersion (Some "9007199254740991.0.0") (Some "major") None
         = Some "9007199254740992.0.0"
      /\ valid "9007199254740992.0.0" = false
      /\ gt "9007199254740992.0.0" "9007199254740991.0.0" = false).
Proof. repeat split; vm_compute; reflexivity. Qed.

(** C4, amended: for every current version the library reads and every
    bump kind in major, minor, patch that stays within the largest number
    the library accepts, the resolved version is strictly greater than the
    current one when no pre-release identifier is given.  Under a
    well-formed identifier [id] the resolved version is read by the library
    when it is not longer than 256 characters, and it is then strictly
    greater exactly when the bump raises a number (the current version is
    not a pre-release of the level of the bump), or the pre-release part
    [id.0] is greater than the pre-release part of the current version. *)
Theorem C4_bump_strictly_greater (cur t : string) (k : ReleaseType)
    (preid : option string) (v : SemVer) :
  construct cur = Some v ->
  bump_kind t = Some k ->
  in_range (inc_version v k None) = true ->
  match truthy preid with
  | None =>
      exists s, newVersion (Some cur) (Some t) preid = Some s /\ gt s cur = true
  | Some id =>
      forall i, parse_pre_ident id = Some i ->
      exists s, newVersion (Some cur) (Some t) preid = Some s /\
                gt s cur =
                  (String.length s <=? MAX_LENGTH)%nat &&
                  (raises v k || is_Gt (comparePre_loop [i; INum 0] (prerelease v)))
  end.
Proof.
  intros Hcur Hk Hr.
  pose proof (bump_kind_not_pre _ _ Hk) as Hnp.
  destruct (bump_reads cur v k Hcur Hnp Hr) as (Ebase & Hl & Hread).
  pose proof (inc_version_release v k Hnp) as Hrel.
  set (base := inc_version v k None) in *.
  unfold newVersion. rewrite Hk.
  destruct (truthy preid) as [id|] eqn:Eid.
  - intros i Hi. rewrite Ebase.
    pose proof (truthy_nonempty _ _ Eid) as Hne.
    destruct (semver_inc_pre _ _ id Hread Hne (ex_intro _ i Hi)) as (E & _ & Hr' & _).
    rewrite E. eexists. split; [reflexivity|].
    assert (Epre : parse_all parse_pre_ident
                     (map ident_string
                        (prerelease (inc_version
                           (mkSemVer (major base) (minor base) (patch base) [] [])
                           RPre (Some id)))) = Some [i; INum 0]).
    { cbn [inc_version prerelease]. unfold inc_pre. rewrite (truthy_Some_id id Hne).
      cbn [map ident_string parse_all]. rewrite Hi. reflexivity. }
    rewrite (gt_format _ v cur [i; INum 0] Hcur Epre Hr'). f_equal.
    cbn [inc_version major minor patch]. unfold compare.
    change (compareMain (mkSemVer (major base) (minor base) (patch base) [i; INum 0] []) v)
      with (compareMain base v).
    destruct (inc_version_main v k Hnp) as [[Hra Hgt] | (Hra & Heq & Hpre)];
      fold base in Hgt || fold base in Heq.
    + rewrite Hra, Hgt. reflexivity.
    + rewrite Hra, Heq. unfold comparePre. cbn [prerelease lex orb].
      destruct (prerelease v); [congruence | reflexivity].
  - rewrite Ebase. exists (format base). split; [reflexivity|].
    assert (Epre : parse_all parse_pre_ident (map ident_string (prerelease base)) = Some [])
      by (rewrite Hrel; reflexivity).
    rewrite (gt_format base v cur [] Hcur Epre Hr).
    apply Nat.leb_le in Hl. rewrite Hl. cbn [andb]. unfold compare.
    change (compareMain (mkSemVer (major base) (minor base) (patch base) [] []) v)
      with (compareMain base v).
    destruct (inc_version_main v k Hnp) as [[Hra Hgt] | (Hra & Heq & Hpre)];
      fold base in Hgt || fold base in Heq.
    + rewrite Hgt. reflexivity.
    + rewrite Heq. unfold comparePre. cbn [prerelease lex].
      destruct (prerelease v); [congruence | reflexivity].
Qed.

Lemma C4_witness :
  exists s, newVersion (Some "1.2.3-beta.5") (Some "major") (Some "beta") = Some s /\
            gt s "1.2.3-beta.5" =
              (String.length s <=? MAX_LENGTH)%nat &&
              (raises (mkSemVer 1 2 3 [IStr "beta"; INum 5] []) RMajor ||
               is_Gt (comparePre_loop [IStr "beta"; INum 0] [IStr "beta"; INum 5])).
Proof.
  exact (C4_bump_strictly_greater "1.2.3-beta.5" "major" RMajor (Some "beta")
           (mkSemVer 1 2 3 [IStr "beta"; INum 5] []) eq_refl eq_refl eq_refl
           (IStr "beta") eq_refl).
Defined.




End VersionClaims.

(** ** The start of the script *)

Module StartupFacts.
Import Str Manifest Shell V1 Contracts Logic LogicFacts.
Local Open Scope sh_scope.

Section Run.
Context {W : Type} `{Host W}.

(** What [startup] hands to [release]. *)
Lemma startup_returns token argv :
  returns (W:=W) (startup token argv)
    (fun co => V1.argv co.1 = argv /\ co.2 = versionBumpOptions argv
               /\ githubToken co.1 = token).
Proof.
  unfold startup.
  repeat (first [ apply returns_bind; intros ?
                | apply returns_ret; simpl; auto
                | match goal with
                  | |- returns (match ?x with _ => _ end) _ => destruct x
                  end ]).
Qed.

(** The start of the script reads and prints. *)
Lemma startup_keeps_world token argv : keeps_world (W:=W) (startup token argv).
Proof. unfold startup. repeat keeps_step. Qed.

Lemma startup_console token argv :
  emits (W:=W) (fun e => is_console e = true) (startup token argv).
Proof. unfold startup. repeat (first [ emits_step | reflexivity ]). Qed.

End Run.
End StartupFacts.

(** ** A docs-only run *)

Module DocsOnlyFacts.
Import Str Manifest Shell V1 Contracts Logic LogicFacts.
Local Open Scope sh_scope.

Section Run.
Context {W : Type} `{Host W}.

Ltac quiet_event :=
  split;
  [ repeat (match goal with |- context [if ?b then _ else _] => destruct b end);
    reflexivity
  | intros ?; discriminate ].

Ltac quiet_steps :=
  repeat (first [ emits_step | quiet_event ]).

Lemma quiet_runAndGitRevertOnError cmd :
  starts_with "git clone " cmd = false ->
  emits (W:=W) quiet (runAndGitRevertOnError cmd).
Proof.
  intros Hc. unfold runAndGitRevertOnError.
  apply emits_bind.
  - apply emits_exec. intros code. split; [exact Hc | intros ?; discriminate].
  - intros [code out]. quiet_steps.
Qed.

Lemma quiet_preflight opts : emits (W:=W) quiet (preflight opts).
Proof. unfold preflight. quiet_steps. Qed.

Lemma quiet_versionBump cfg opts : emits (W:=W) quiet (versionBump cfg opts).
Proof. unfold versionBump. quiet_steps. Qed.

Lemma quiet_testAndBuild cfg : emits (W:=W) quiet (testAndBuild cfg).
Proof.
  unfold testAndBuild.
  repeat (first [ apply quiet_runAndGitRevertOnError; reflexivity
                | emits_step | quiet_event ]).
Qed.

Lemma quiet_generateChangelog cfg preid notes :
  emits (W:=W) quiet (generateChangelog cfg preid notes).
Proof.
  unfold generateChangelog, changelogCmd. quiet_steps.
Qed.

Lemma quiet_commitTagPush cfg preid v notes :
  emits (W:=W) quiet (commitTagPush cfg preid v notes).
Proof.
  unfold commitTagPush, changelogCmd. quiet_steps.
Qed.

Lemma quiet_publishDocs cfg preid v :
  is_truthy preid = true -> emits (W:=W) quiet (publishDocs cfg preid v).
Proof.
  intros Hp. unfold publishDocs. rewrite Hp.
  replace (negb (isPrivate cfg) && negb true && is_truthy (docsRepo cfg)) with false
    by (destruct (isPrivate cfg); reflexivity).
  apply emits_ret.
Qed.

Lemma quiet_release cfg opts :
  a_onlyDocs (argv cfg) = true -> is_truthy (preid opts) = true ->
  emits (W:=W) quiet (release cfg opts).
Proof.
  intros Ho Hp. unfold release. rewrite Ho.
  change (when (negb true) ?m) with (ret (W:=W) ()).
  repeat (first [ apply quiet_preflight | apply quiet_versionBump
                | apply quiet_testAndBuild | apply quiet_generateChangelog
                | apply quiet_commitTagPush | apply quiet_publishDocs; exact Hp
                | emits_step | quiet_event ]).
Qed.

(** In a docs-only run the usage check passes: the start prints banners. *)
Lemma quiet_startup token argv :
  a_onlyDocs argv = true -> emits (W:=W) quiet (startup token argv).
Proof.
  intros Ho. unfold startup, versionBumpOptions. rewrite Ho. cbv zeta.
  cbn [type preid].
  replace (match a_positional argv with
           | Some _ => false
           | None => false
           end) with false by (destruct (a_positional argv); reflexivity).
  change (when false ?m) with (ret (W:=W) ()).
  quiet_steps.
Qed.

End Run.
End DocsOnlyFacts.

(** ** The revert of a failed gate *)

Module RevertFacts.
Import Str Manifest Shell V1 Contracts Logic LogicFacts StartupFacts.
Local Open Scope sh_scope.

Section Run.
Context {W : Type} `{Host W} (p : string) `{!GitContract W p}.
Variable m0 : string.

Local Abbreviation restored := (Contracts.restored p m0).
Local Abbreviation head_is := (Contracts.head_is p m0).
Local Abbreviation on_disk := (Contracts.on_disk p m0).

Lemma calm_not_failed evs : Forall calm evs -> ~ gate_failed evs.
Proof.
  intros Hc (e & He & Hf). rewrite Forall_forall in Hc.
  specialize (Hc e He). unfold calm in Hc. congruence.
Qed.

Lemma restored_calm h s evs : Forall calm evs -> restored h s evs.
Proof. intros Hc Hf. exfalso. exact (calm_not_failed _ Hc Hf). Qed.

Lemma restored_stable : stable calm restored.
Proof.
  intros h s e1 e2 Hc HX Hf.
  assert (Hf2 : gate_failed e2).
  { destruct Hf as (e & He & Hfe). apply elem_of_app in He as [He|He].
    - rewrite Forall_forall in Hc. specialize (Hc e He). unfold calm in Hc. congruence.
    - exists e. auto. }
  destruct (HX Hf2) as (Hh & Hm & pre & c & code & out & Hg & ->).
  split; [exact Hh|]. split; [exact Hm|].
  exists (e1 ++ pre)%list, c, code, out. split; [exact Hg|].
  rewrite app_assoc. reflexivity.
Qed.

(** A computation that only has calm events and leaves the last commit. *)
Lemma triple_calm {A} (P : State W -> Prop) (m : M W A) :
  emits calm m ->
  triple P m calm (fun _ _ => True) restored.
Proof. intros Hm. apply triple_emits; [exact Hm|]. intros. apply restored_calm. assumption. Qed.

Lemma hoare_log (P : State W -> Prop) line :
  hoare P (console_log line) (fun _ s => P s).
Proof. apply triple_log; [exact I | auto]. Qed.

Lemma hoare_stop {A} (P : State W -> Prop) msg (Q : A -> State W -> Prop) :
  hoare P (printErrorAndExit msg) Q.
Proof. apply triple_printErrorAndExit. intros; exact I. Qed.

Lemma kept_exec c :
  c ∈ before_commit -> hoare head_is (exec c) (fun _ s => head_is s).
Proof.
  intros Hc. apply triple_exec. intros s Hs. split; [|exact I].
  unfold Contracts.head_is in *. cbn [world set_world]. rewrite git_head_kept by exact Hc. exact Hs.
Qed.

Lemma kept_run c :
  c ∈ before_commit -> hoare head_is (run c) (fun _ s => head_is s).
Proof.
  intros Hc. unfold run.
  eapply hoare_bind; [apply kept_exec, Hc|]. intros [code out].
  eapply hoare_bind with (Q := fun _ s => head_is s).
  - destruct (negb (code =? 0)%Z); [apply hoare_stop | apply triple_ret; auto].
  - intros ?. apply triple_ret. auto.
Qed.

Lemma kept_safeRun cfg c :
  c ∈ before_commit -> hoare head_is (safeRun cfg c) (fun _ s => head_is s).
Proof.
  intros Hc. unfold safeRun. destruct (dryRunMode cfg).
  - eapply hoare_bind; [apply hoare_log|]. intros ?. apply triple_ret. auto.
  - eapply hoare_bind; [apply kept_run, Hc|]. intros out. apply triple_ret. auto.
Qed.

(** After the checks of [release] the manifest on disk is the committed one. *)
Lemma preflight_hoare opts :
  hoare (fun s => sh_cat p (world s) = m0) (preflight opts) (fun _ s => head_is s).
Proof.
  unfold preflight.
  eapply hoare_bind with (Q := fun _ s => sh_cat p (world s) = m0).
  { apply triple_when; [intros _; apply hoare_stop | auto]. }
  intros ?.
  eapply hoare_bind
    with (Q := fun r s => nonempty r.2 = false -> head_is s).
  { apply triple_exec. intros s Hs. split; [|exact I]. intros Hne.
    pose proof (git_diff_index (world s)) as Hd. cbv zeta in Hd.
    destruct Hd as [_ Hclean].
    unfold Contracts.head_is. cbn [world set_world]. rewrite (Hclean Hne). exact Hs. }
  intros [code output]. simpl.
  eapply hoare_bind with (Q := fun _ s => head_is s).
  { apply triple_when; [intros _; apply hoare_stop | auto]. }
  intros ?.
  eapply hoare_bind; [apply hoare_log|]. intros ?.
  eapply hoare_bind; [apply kept_exec; set_solver|]. intros ?.
  eapply hoare_bind; [apply kept_exec; set_solver|]. intros [code2 status].
  eapply hoare_bind with (Q := fun _ s => head_is s).
  { destruct (behind status); [apply hoare_stop | apply triple_ret; auto]. }
  intros ?. apply hoare_log.
Qed.

(** The version bump writes the manifest and stages it: the last commit stays. *)
Lemma versionBump_hoare cfg opts :
  hoare head_is (versionBump cfg opts) (fun _ s => head_is s).
Proof.
  unfold versionBump.
  eapply hoare_bind with (Q := fun _ s => head_is s); [apply triple_gets; auto|].
  intros npm.
  eapply hoare_bind with (Q := fun _ s => head_is s); [apply triple_modify; auto|].
  intros ?.
  eapply hoare_bind with (Q := fun _ s => head_is s); [apply triple_gets; auto|].
  intros npm'.
  eapply hoare_bind with (Q := fun _ s => head_is s).
  { apply triple_act; [exact I|]. intros s Hs. unfold Contracts.head_is in *.
    cbn [world set_world]. rewrite git_head_kept_to. exact Hs. }
  intros ?.
  destruct (version npm) as [o|]; [|apply triple_throw; intros; exact I].
  destruct (newVersion (Some o) (type opts) (preid opts)) as [n|];
    [|apply triple_throw; intros; exact I].
  eapply hoare_bind; [apply hoare_log|]. intros ?.
  eapply hoare_bind; [apply kept_safeRun; set_solver|]. intros ?.
  apply triple_ret. auto.
Qed.

Lemma exec_run_eq c (s : State W) :
  exec c s = mkResult (Ret (sh_exec c (world s)).1)
                      (set_world (sh_exec c (world s)).2 s)
                      [EvExec c (sh_exec c (world s)).1.1].
Proof. unfold exec. destruct (sh_exec c (world s)) as [r w]. reflexivity. Qed.

Lemma run_ok_eq c (s : State W) :
  (sh_exec c (world s)).1.1 = 0%Z ->
  run c s = mkResult (Ret (sh_exec c (world s)).1.2)
                     (set_world (sh_exec c (world s)).2 s)
                     [EvExec c 0].
Proof.
  intros Hz. unfold run. rewrite (bind_run_ret _ _ _ _ _ _ (exec_run_eq c s)).
  destruct (sh_exec c (world s)) as [[code out] w]. simpl in *. subst code.
  reflexivity.
Qed.

Lemma gate_failure_exec cmd code :
  cmd ∈ gate_commands -> code <> 0%Z -> gate_failure (EvExec cmd code) = true.
Proof.
  intros Hcmd Hcode. unfold gate_failure. apply andb_true_iff. split.
  - apply existsb_exists. exists cmd. split; [|apply String.eqb_refl].
    apply list_elem_of_In, Hcmd.
  - apply negb_true_iff, Z.eqb_neq, Hcode.
Qed.

(** The gate: when its command fails the revert runs to its end, and the
    manifest on disk is the committed one. *)
Lemma gate_triple cmd :
  cmd ∈ gate_commands ->
  triple head_is (runAndGitRevertOnError cmd) calm (fun _ s => head_is s) restored.
Proof.
  intros Hcmd s Hs. unfold runAndGitRevertOnError.
  assert (Hbc : cmd ∈ before_commit) by (unfold gate_commands in Hcmd; set_solver).
  pose proof (git_head_kept cmd (world s) Hbc) as Hkept.
  rewrite (bind_run_ret _ _ _ _ _ _ (exec_run_eq cmd s)).
  destruct (sh_exec cmd (world s)) as [[code out] w1] eqn:E. simpl in Hkept. cbn [fst snd].
  destruct (Z.eqb_spec code 0) as [->|Hcode]; cbn [negb].
  - simpl. split; [unfold Contracts.head_is in *; simpl; congruence|].
    repeat constructor. unfold calm. simpl. apply andb_false_r.
  - destruct (git_reset w1) as [Hr1 Hr2].
    destruct (git_checkout (sh_exec "git reset HEAD ." w1).2) as [Hc1 Hc2].
    run_bind. cbn [world set_world].
    rewrite (bind_run_ret _ _ _ _ _ _
               (run_ok_eq "git reset HEAD ." (set_world w1 s) Hr1)).
    cbn [world set_world].
    rewrite (bind_run_ret _ _ _ _ _ _
               (run_ok_eq "git checkout package.json"
                  (set_world (sh_exec "git reset HEAD ." w1).2 (set_world w1 s)) Hc1)).
    cbn [world set_world].
    run_bind. unfold printErrorAndExit. run_bind. simpl.
    intros _. split; [reflexivity|]. split.
    + cbn [world set_world]. rewrite Hc2, Hr2, Hkept. exact Hs.
    + exists [], cmd, code, out.
      split; [apply gate_failure_exec; assumption | reflexivity].
Qed.

Lemma calm_log line : calm (EvLog line).
Proof. reflexivity. Qed.

Lemma testAndBuild_triple cfg :
  triple head_is (testAndBuild cfg) calm (fun _ _ => True) restored.
Proof.
  assert (Hlog : forall line,
            triple head_is (console_log line) calm (fun _ s => head_is s) restored)
    by (intros line; apply triple_log; [reflexivity | auto]).
  assert (Hmod : forall b,
            triple head_is (modify (set_silent b)) calm (fun _ s => head_is s) restored)
    by (intros b; apply triple_modify; auto).
  assert (Hend : forall line,
            triple head_is (console_log line) calm (fun _ _ => True) restored)
    by (intros line; apply triple_log; [reflexivity | auto]).
  unfold testAndBuild.
  eapply triple_bind; [apply restored_stable | apply Hlog | intros ?].
  eapply triple_bind; [apply restored_stable | apply Hmod | intros ?].
  eapply triple_bind;
    [apply restored_stable | apply gate_triple; unfold gate_commands; set_solver | intros ?].
  eapply triple_bind; [apply restored_stable | apply Hmod | intros ?].
  eapply triple_bind; [apply restored_stable | apply Hlog | intros ?].
  destruct (a_onlyDocs (argv cfg) && docsBuild cfg).
  - eapply triple_bind; [apply restored_stable | apply Hlog | intros ?].
    eapply triple_bind;
      [apply restored_stable | apply gate_triple; unfold gate_commands; set_solver | intros ?].
    apply Hend.
  - eapply triple_bind with (Q := fun _ s => head_is s);
      [apply restored_stable | apply triple_gets; auto | intros npm].
    destruct (scripts npm) as [sc|].
    + destruct (script_build sc && negb (skipBuildStep cfg)).
      * eapply triple_bind; [apply restored_stable | apply Hlog | intros ?].
        eapply triple_bind;
          [apply restored_stable | apply gate_triple; unfold gate_commands; set_solver
          | intros ?].
        apply Hend.
      * apply Hend.
    + apply triple_throw. intros s _. apply restored_calm. constructor.
Qed.

(** *** After the gate: no command of the gate runs again *)

Ltac calm_event :=
  unfold calm;
  repeat (match goal with |- context [if ?b then _ else _] => destruct b end);
  reflexivity.

Ltac calm_steps :=
  repeat (first [ emits_step | calm_event ]).

Lemma calm_preflight opts : emits (W:=W) calm (preflight opts).
Proof. unfold preflight. calm_steps. Qed.

Lemma calm_versionBump cfg opts : emits (W:=W) calm (versionBump cfg opts).
Proof. unfold versionBump. calm_steps. Qed.

Lemma calm_releaseAdRepo cfg repo src tmp v :
  emits (W:=W) calm (releaseAdRepo cfg repo src tmp v).
Proof. unfold releaseAdRepo, safeRm. calm_steps. Qed.

Lemma calm_generateChangelog cfg preid notes :
  emits (W:=W) calm (generateChangelog cfg preid notes).
Proof. unfold generateChangelog, changelogCmd. calm_steps. Qed.

Lemma calm_commitTagPush cfg preid v notes :
  emits (W:=W) calm (commitTagPush cfg preid v notes).
Proof. unfold commitTagPush, changelogCmd. calm_steps. Qed.

Lemma calm_publishToGitHub cfg preid v :
  emits (W:=W) calm (publishToGitHub cfg preid v).
Proof. unfold publishToGitHub. calm_steps. Qed.

Lemma calm_publishToNpm cfg preid tag :
  emits (W:=W) calm (publishToNpm cfg preid tag).
Proof. unfold publishToNpm. calm_steps. Qed.

Lemma calm_publishToBower cfg v : emits (W:=W) calm (publishToBower cfg v).
Proof.
  unfold publishToBower.
  repeat (first [ apply calm_releaseAdRepo | emits_step | calm_event ]).
Qed.

Lemma calm_publishDocs cfg preid v : emits (W:=W) calm (publishDocs cfg preid v).
Proof.
  unfold publishDocs.
  repeat (first [ apply calm_releaseAdRepo | emits_step | calm_event ]).
Qed.

Lemma calm_startup token argv : emits (W:=W) calm (startup token argv).
Proof. unfold startup. calm_steps. Qed.

(** *** The whole run *)

Lemma release_triple cfg opts :
  triple on_disk (release cfg opts) calm (fun _ _ => True) restored.
Proof.
  unfold release.
  eapply triple_bind; [apply restored_stable | | intros ?].
  { apply triple_split;
      [apply preflight_hoare | apply calm_preflight | intros; apply restored_calm; assumption]. }
  eapply triple_bind; [apply restored_stable | | intros nv].
  { apply triple_split;
      [apply versionBump_hoare | apply calm_versionBump
      | intros; apply restored_calm; assumption]. }
  eapply triple_bind; [apply restored_stable | apply testAndBuild_triple | intros ?].
  apply triple_calm. cbv zeta.
  repeat (first [ apply calm_generateChangelog | apply calm_commitTagPush
                | apply calm_publishToGitHub | apply calm_publishToNpm
                | apply calm_publishToBower | apply calm_publishDocs
                | emits_step | calm_event ]).
Qed.

Lemma startup_triple token argv :
  triple on_disk (startup token argv) calm (fun _ s => on_disk s) restored.
Proof.
  intros s Hs.
  pose proof (startup_keeps_world token argv s) as Hw.
  pose proof (calm_startup token argv s) as Hc.
  destruct (outcome (startup token argv s)); [|apply restored_calm, Hc].
  split; [|exact Hc]. unfold Contracts.on_disk in *. rewrite Hw. exact Hs.
Qed.

Lemma script_triple token argv :
  triple on_disk (script token argv) calm (fun _ _ => True) restored.
Proof.
  unfold script.
  eapply triple_bind; [apply restored_stable | apply startup_triple |].
  intros [cfg opts]. apply release_triple.
Qed.

End Run.
End RevertFacts.

Section EffectClaims.
Import Str Manifest Shell V1 Contracts Logic LogicFacts StartupFacts DocsOnlyFacts.
Import ProcessFacts.
Local Open Scope sh_scope.

(** C7: the mirror operation stops with the error printed and exit code 1
    whenever one of its four parameters (repository, source directory,
    scratch directory, version tag) is missing or empty, and it has done
    nothing before: the state is the one it started from and the error line
    is its only event. *)
Theorem C7_mirror_rejects_missing_parameter {W : Type} `{Host W}
    (cfg : Config) (repo srcFolder tmpFolder vVersion : option string) (s : State W) :
  is_truthy repo && is_truthy srcFolder && is_truthy tmpFolder && is_truthy vVersion = false ->
  releaseAdRepo cfg repo srcFolder tmpFolder vVersion s =
    mkResult (Stop (Exit 1)) s
      [EvError "Bug error. Create github issue: releaseAdRepo - One of parameters is not set."].
Proof.
  unfold releaseAdRepo, is_truthy.
  destruct (truthy repo), (truthy srcFolder), (truthy tmpFolder), (truthy vVersion);
    simpl; intros Hf; try discriminate; reflexivity.
Qed.

Lemma C7_witness :
  releaseAdRepo (H:=Toy.host Toy.fine)
      (with_dryRunMode false
         (mkConfig "/repo" "/repo/package.json" false false false "/repo/amd/"
                   "/repo/tmp-bower-repo" None "/repo/docs-built/" "/repo/tmp-docs-repo"
                   None false None None false true
                   (Toy.argv_of (Some "patch") None false true) false))
      (Some "git@host:toy-bower.git") (Some "/repo/amd/") (Some EmptyString) (Some "v1.2.4")
      (init_state Toy.start) =
    mkResult (Stop (Exit 1)) (init_state Toy.start)
      [EvError "Bug error. Create github issue: releaseAdRepo - One of parameters is not set."].
Proof.
  apply (C7_mirror_rejects_missing_parameter (H:=Toy.host Toy.fine)). reflexivity.
Defined.

(** C10: in a docs-only run the documents site is never published: the
    pre-release identifier is the synthetic [docs], and no run of the mirror
    protocol takes place, whatever the manifest configures: no line of the
    documents site release, no clone, no copy, no change of directory. *)
Theorem C10_docs_only_never_mirrors_docs {W : Type} `{Host W}
    (token : option string) (argv : Argv) (w : W) :
  a_onlyDocs argv = true ->
  preid (versionBumpOptions argv) = Some "docs"
  /\ Forall (fun e => mirror_event e = false) (events (process token argv w)).
Proof.
  intros Ho. split; [unfold versionBumpOptions; rewrite Ho; reflexivity|].
  assert (Hq : Forall quiet (events (script token argv (init_state w)))).
  { apply (emits_bind_returns quiet _ _ _ (quiet_startup token argv Ho)
             (startup_returns token argv)).
    intros [cfg opts] (Hargv & Hopts & _). simpl in *.
    apply quiet_release.
    - rewrite Hargv. exact Ho.
    - rewrite Hopts. unfold versionBumpOptions. rewrite Ho. reflexivity. }
  destruct (process_no_request token argv w) as [_ ->].
  - apply no_request. eapply Forall_impl; [exact Hq|]. intros e [_ He]. exact He.
  - eapply Forall_impl; [exact Hq|]. intros e [He _]. exact He.
Qed.

Lemma C10_witness :
  preid (versionBumpOptions (Toy.argv_of None None true true)) = Some "docs"
  /\ Forall (fun e => mirror_event e = false)
            (events (process (H:=Toy.host Toy.fine) None
                             (Toy.argv_of None None true true) Toy.start)).
Proof.
  apply (C10_docs_only_never_mirrors_docs (H:=Toy.host Toy.fine)). reflexivity.
Defined.

End EffectClaims.

Section UsageClaim.
Import Str Manifest Shell Contracts LogicFacts.

(** The changelog tool is declared in [devDependencies]. *)
(** C9, as stated, fails: [--only-docs] alone supplies neither a bump kind
    nor a pre-release identifier, and the script runs the release: the
    manifest is written and the process exits with 0. *)
Lemma C9_counterexample :
  a_positional (Toy.argv_of None None true true) = None
  /\ a_preid (Toy.argv_of None None true true) = None
  /\ a_skipVersionBumping (Toy.argv_of None None true true) = false
  /\ exit_status (outcome (V1.process (H:=Toy.host Toy.fine) None
                             (Toy.argv_of None None true true) Toy.start)) = 0%Z
  /\ (EvTo Toy.manifest_path ("1.2.3-docs.0" +:+ nl)
       ∈ events (V1.process (H:=Toy.host Toy.fine) None
                   (Toy.argv_of None None true true) Toy.start))
  /\ (EvLog (yargs_help (Host:=Toy.host Toy.fine) V1.usage)
       ∉ events (V1.process (H:=Toy.host Toy.fine) None
                   (Toy.argv_of None None true true) Toy.start))
  /\ (outcome (V3.startup (H:=Toy.host Toy.fine) None
                (Toy.argv_of None None true true) (V1.init_state Toy.start))
      <> Stop (Exit 1)).
Proof.
  repeat split; try reflexivity.
  - vm_compute. set_solver.
  - vm_compute. intros Hin.
    repeat (apply elem_of_cons in Hin as [Hin|Hin]; [discriminate Hin|]).
    inversion Hin.
  - vm_compute. discriminate.
Qed.

(** C9, amended: when the manifest can be read and the invocation supplies
    neither a bump kind, nor a pre-release identifier, nor [--only-docs]
    (and, in the variant that has the flag, version bumping is not skipped),
    the script exits with code 1 and has changed nothing.  It prints the
    usage error and the usage text, unless the changelog tool is declared
    and not installed: then it prints that error. *)
Theorem C9_usage_error_before_any_mutation {W : Type} `{Host W}
    (token : option string) (argv : Argv) (w : W) (npm : Npm) :
  json_parse (sh_cat (path_join (sh_pwd w) "package.json") w) = Some npm ->
  (sh_test "-f" (path_join (sh_pwd w) "bower.json") w = true ->
   is_Some (json_parse (sh_cat (path_join (sh_pwd w) "bower.json") w))) ->
  a_positional argv = None ->
  a_preid argv = None ->
  a_onlyDocs argv = false ->
  (outcome (V1.process token argv w) = Stop (Exit 1)
   /\ world (final (V1.process token argv w)) = w
   /\ events (V1.process token argv w) =
        if declares_changelog npm && negb (sh_which "changelog" w)
        then [EvError tool_missing_line]
        else [EvLog usage_error_line; EvLog (yargs_help V1.usage)])
  /\ (a_skipVersionBumping argv = false ->
      outcome (V3.startup token argv (V1.init_state w)) = Stop (Exit 1)
      /\ world (final (V3.startup token argv (V1.init_state w))) = w
      /\ events (V3.startup token argv (V1.init_state w)) =
           if declares_changelog npm && negb (sh_which "changelog" w)
           then [EvError tool_missing_line]
           else [EvLog usage_error_line; EvLog (yargs_help V3.usage)]).
Proof.
  intros Hparse Hbower Hpos Hpre Ho.
  assert (E1 : exists s1,
             world s1 = w /\
             V1.startup token argv (V1.init_state w) =
               mkResult (Stop (Exit 1)) s1
                 (if declares_changelog npm && negb (sh_which "changelog" w)
                  then [EvError tool_missing_line]
                  else [EvLog usage_error_line; EvLog (yargs_help V1.usage)])).
  { unfold V1.startup, V1.versionBumpOptions, declares_changelog.
    rewrite Hpos, Hpre, Ho. cbv zeta. cbn [type preid].
    do 2 run_bind. cbn [world V1.init_state]. rewrite Hparse.
    do 3 run_bind. cbn [world V1.init_state set_npmjson].
    destruct (match devDependencies npm with
              | Some d => rf_changelog d || mt_changelog d
              | None => false
              end && negb (sh_which "changelog" w)).
    - eexists. split; [|unfold V1.printErrorAndExit; repeat run_bind; reflexivity].
      reflexivity.
    - eexists. split; [|repeat run_bind; reflexivity]. reflexivity. }
  split.
  - destruct E1 as (s1 & Hw & E). unfold V1.process, V1.script.
    rewrite (bind_run_stop _ _ _ _ _ _ E). simpl. auto.
  - intros Hskip.
    assert (E3 : exists s3,
               world s3 = w /\
               V3.startup token argv (V1.init_state w) =
                 mkResult (Stop (Exit 1)) s3
                   (if declares_changelog npm && negb (sh_which "changelog" w)
                    then [EvError tool_missing_line]
                    else [EvLog usage_error_line; EvLog (yargs_help V3.usage)])).
    { unfold V3.startup, V1.versionBumpOptions, declares_changelog.
      rewrite Hpos, Hpre, Ho, Hskip. cbv zeta. cbn [type preid].
      do 2 run_bind. cbn [world V1.init_state]. rewrite Hparse.
      do 3 run_bind. cbn [world V1.init_state set_npmjson].
      destruct (sh_test "-f" (path_join (sh_pwd w) "bower.json") w) eqn:Et.
      - destruct (Hbower eq_refl) as [b Eb].
        rewrite bind_assoc. run_bind. cbn beta. cbn [world V1.init_state set_npmjson].
        rewrite Eb. do 2 run_bind. cbn [world V1.init_state set_npmjson].
        destruct (match devDependencies npm with
                  | Some d => rf_changelog d || mt_changelog d
                  | None => false
                  end && negb (sh_which "changelog" w)).
        + eexists. split; [|unfold V1.printErrorAndExit; repeat run_bind; reflexivity].
          reflexivity.
        + eexists. split; [|repeat run_bind; reflexivity]. reflexivity.
      - do 2 run_bind. cbn [world V1.init_state set_npmjson].
        destruct (match devDependencies npm with
                  | Some d => rf_changelog d || mt_changelog d
                  | None => false
                  end && negb (sh_which "changelog" w)).
        + eexists. split; [|unfold V1.printErrorAndExit; repeat run_bind; reflexivity].
          reflexivity.
        + eexists. split; [|repeat run_bind; reflexivity]. reflexivity. }
    destruct E3 as (s3 & Hw & E). rewrite E. simpl. auto.
Qed.

Lemma C9_witness :
  (outcome (V1.process (H:=Toy.host Toy.fine) None
              (Toy.argv_of None None false true) Toy.start) = Stop (Exit 1)
   /\ world (final (V1.process (H:=Toy.host Toy.fine) None
                      (Toy.argv_of None None false true) Toy.start)) = Toy.start
   /\ events (V1.process (H:=Toy.host Toy.fine) None
                (Toy.argv_of None None false true) Toy.start) =
        if declares_changelog (Toy.the_manifest "1.2.3")
           && negb (sh_which (Host:=Toy.host Toy.fine) "changelog" Toy.start)
        then [EvError tool_missing_line]
        else [EvLog usage_error_line; EvLog (yargs_help (Host:=Toy.host Toy.fine) V1.usage)])
  /\ (a_skipVersionBumping (Toy.argv_of None None false true) = false ->
      outcome (V3.startup (H:=Toy.host Toy.fine) None
                 (Toy.argv_of None None false true) (V1.init_state Toy.start))
        = Stop (Exit 1)
      /\ world (final (V3.startup (H:=Toy.host Toy.fine) None
                         (Toy.argv_of None None false true) (V1.init_state Toy.start)))
           = Toy.start
      /\ events (V3.startup (H:=Toy.host Toy.fine) None
                   (Toy.argv_of None None false true) (V1.init_state Toy.start)) =
           if declares_changelog (Toy.the_manifest "1.2.3")
              && negb (sh_which (Host:=Toy.host Toy.fine) "changelog" Toy.start)
           then [EvError tool_missing_line]
           else [EvLog usage_error_line; EvLog (yargs_help (Host:=Toy.host Toy.fine) V3.usage)]).
Proof.
  apply (C9_usage_error_before_any_mutation (H:=Toy.host Toy.fine) None
           (Toy.argv_of None None false true) Toy.start (Toy.the_manifest "1.2.3")).
  - reflexivity.
  - intros Hf. vm_compute in Hf. discriminate Hf.
  - reflexivity.
  - reflexivity.
  - reflexivity.
Defined.

End UsageClaim.

Section RevertClaim.
Import Str Manifest Shell V1 Contracts Logic LogicFacts RevertFacts ProcessFacts.

(** C2: when the test or build gate fails after the version bump was
    written to the manifest, the gate reverts it before the process ends:
    it resets the index and checks the manifest out, and exits with code 1.
    For a manifest that the version-control tool tracks, and a tool whose
    reset and checkout do what they are for, the manifest on disk after the
    process is byte for byte the manifest before the run. *)
Theorem C2_failed_gate_restores_manifest {W : Type} `{Host W}
    (token : option string) (argv : Argv) (w : W)
    `{!GitContract W (path_join (sh_pwd w) "package.json")} :
  gate_failed (events (process token argv w)) ->
  outcome (process token argv w) = Stop (Exit 1)
  /\ sh_cat (path_join (sh_pwd w) "package.json") (world (final (process token argv w)))
     = sh_cat (path_join (sh_pwd w) "package.json") w
  /\ reverted (events (process token argv w)).
Proof.
  intros Hfail.
  pose proof (script_triple (path_join (sh_pwd w) "package.json")
                (sh_cat (path_join (sh_pwd w) "package.json") w)
                token argv (init_state w) eq_refl) as Ht.
  destruct (process_events token argv w) as (cb & Hev & Hcb).
  destruct (outcome (script token argv (init_state w))) as [[]|h] eqn:Eo.
  - exfalso. destruct Ht as [_ Hcalm].
    destruct Hfail as (e & He & Hf). rewrite Hev in He.
    apply elem_of_app in He as [He|He].
    + rewrite Forall_forall in Hcalm. specialize (Hcalm e He).
      unfold calm in Hcalm. congruence.
    + rewrite Forall_forall in Hcb. destruct (Hcb e He) as [line ->]. discriminate.
  - destruct (process_stop token argv w h Eo) as [Ho He].
    rewrite process_final, Ho, He. rewrite He in Hfail.
    destruct (Ht Hfail) as (Hh & Hm & Hr). subst h. auto.
Qed.

Lemma C2_witness :
  outcome (process (H:=Toy.host Toy.red) None
             (Toy.argv_of (Some "patch") None false true) Toy.start) = Stop (Exit 1)
  /\ sh_cat (Host:=Toy.host Toy.red) "/repo/package.json"
       (world (final (process (H:=Toy.host Toy.red) None
                        (Toy.argv_of (Some "patch") None false true) Toy.start)))
     = sh_cat (Host:=Toy.host Toy.red) "/repo/package.json" Toy.start
  /\ reverted (events (process (H:=Toy.host Toy.red) None
                         (Toy.argv_of (Some "patch") None false true) Toy.start)).
Proof.
  apply (C2_failed_gate_restores_manifest (H:=Toy.host Toy.red) None
           (Toy.argv_of (Some "patch") None false true) Toy.start
           (GitContract0 := ToyFacts.git_contract Toy.red eq_refl eq_refl eq_refl)).
  exists (EvExec "npm run test" 1). split; [|reflexivity].
  vm_compute. set_solver.
Defined.

End RevertClaim.

Section MirrorClaim.
Import Str Manifest Shell V1 Contracts.

(** C6 does not hold of the script.  The wipe of the scratch clone removes
    what [ls] lists, the metadata directory apart, and [ls] without [-A]
    leaves out every name that starts with a dot: the wipe keeps, with the
    metadata directory, every dot-file that the clone brought.  In the small
    world whose mirror holds [old.js] and [.npmignore] from an earlier
    release, the protocol is run twice in a live run, the source rebuilt in
    between.  Both runs return.  The calls of [rm] in the second run are
    the removal of the scratch directory, the wipe, which names [old.js]
    and nothing else, and the call of [safeRm].  The source at the second
    run holds [next.js]; the scratch clone the run leaves holds [next.js]
    and the metadata directory, and also [.npmignore], which is not in the
    source: it is not exactly the source and the metadata directory. *)
Theorem C6_dot_file_survives_the_wipe :
  outcome (releaseAdRepo (H:=Toy.host Toy.fine)
             (Toy.config (Toy.argv_of (Some "patch") None false true) false)
             (Some "git@host:toy-bower.git") (Some "/repo/amd/")
             (Some "/repo/tmp-bower-repo") (Some "v1.2.4")
             (init_state Toy.with_dot_file)) = Ret tt
  /\ outcome (releaseAdRepo (H:=Toy.host Toy.fine)
                (Toy.config (Toy.argv_of (Some "patch") None false true) false)
                (Some "git@host:toy-bower.git") (Some "/repo/amd/")
                (Some "/repo/tmp-bower-repo") (Some "v1.2.4")
                (init_state
                   (Toy.rebuild
                      (world (final (releaseAdRepo (H:=Toy.host Toy.fine)
                         (Toy.config (Toy.argv_of (Some "patch") None false true) false)
                         (Some "git@host:toy-bower.git") (Some "/repo/amd/")
                         (Some "/repo/tmp-bower-repo") (Some "v1.2.4")
                         (init_state Toy.with_dot_file))))))) = Ret tt
  /\ omap (fun e => match e with EvRm args => Some args | _ => None end)
          (events (releaseAdRepo (H:=Toy.host Toy.fine)
                (Toy.config (Toy.argv_of (Some "patch") None false true) false)
                (Some "git@host:toy-bower.git") (Some "/repo/amd/")
                (Some "/repo/tmp-bower-repo") (Some "v1.2.4")
                (init_state
                   (Toy.rebuild
                      (world (final (releaseAdRepo (H:=Toy.host Toy.fine)
                         (Toy.config (Toy.argv_of (Some "patch") None false true) false)
                         (Some "git@host:toy-bower.git") (Some "/repo/amd/")
                         (Some "/repo/tmp-bower-repo") (Some "v1.2.4")
                         (init_state Toy.with_dot_file))))))))
     = [[AStr "-rf"; AStr "/repo/tmp-bower-repo"];
        [AStr "-rf"; AArr ["old.js"]];
        [AArr ["-rf"; "/repo/tmp-bower-repo"]]]
  /\ map_to_list
       (Toy.entries "/repo/amd/"
          (world (final (releaseAdRepo (H:=Toy.host Toy.fine)
                (Toy.config (Toy.argv_of (Some "patch") None false true) false)
                (Some "git@host:toy-bower.git") (Some "/repo/amd/")
                (Some "/repo/tmp-bower-repo") (Some "v1.2.4")
                (init_state
                   (Toy.rebuild
                      (world (final (releaseAdRepo (H:=Toy.host Toy.fine)
                         (Toy.config (Toy.argv_of (Some "patch") None false true) false)
                         (Some "git@host:toy-bower.git") (Some "/repo/amd/")
                         (Some "/repo/tmp-bower-repo") (Some "v1.2.4")
                         (init_state Toy.with_dot_file))))))))))
     = [("next.js", "rebuilt")]
  /\ map_to_list
       (Toy.entries "/repo/tmp-bower-repo"
          (world (final (releaseAdRepo (H:=Toy.host Toy.fine)
                (Toy.config (Toy.argv_of (Some "patch") None false true) false)
                (Some "git@host:toy-bower.git") (Some "/repo/amd/")
                (Some "/repo/tmp-bower-repo") (Some "v1.2.4")
                (init_state
                   (Toy.rebuild
                      (world (final (releaseAdRepo (H:=Toy.host Toy.fine)
                         (Toy.config (Toy.argv_of (Some "patch") None false true) false)
                         (Some "git@host:toy-bower.git") (Some "/repo/amd/")
                         (Some "/repo/tmp-bower-repo") (Some "v1.2.4")
                         (init_state Toy.with_dot_file))))))))))
     = [("next.js", "rebuilt"); (".git", "metadata"); (".npmignore", "stale")].
Proof. repeat split; vm_compute; reflexivity. Qed.

End MirrorClaim.

Section DryRunClaim.
Import Str Manifest Shell V1 Contracts Logic LogicFacts SimFacts.




End DryRunClaim.

(** * Further properties of the script

    ** The repository address *)

Module UrlFacts.
Import Str StrFacts V1.

Lemma append_cons a s t : String a s +:+ t = String a (s +:+ t).
Proof. reflexivity. Qed.

Lemma append_empty_r s : s +:+ EmptyString = s.
Proof.
  induction s as [|a s IH]; [reflexivity|]. rewrite append_cons, IH. reflexivity.
Qed.

Lemma strip_prefix_app p s : strip_prefix p (p +:+ s) = Some s.
Proof.
  induction p as [|a p IH]; [reflexivity|].
  rewrite append_cons. simpl. rewrite Ascii.eqb_refl. exact IH.
Qed.

Lemma list_of_append s t :
  list_ascii_of_string (s +:+ t) = (list_ascii_of_string s ++ list_ascii_of_string t)%list.
Proof.
  induction s as [|a s IH]; [reflexivity|].
  rewrite append_cons. simpl. rewrite IH. reflexivity.
Qed.

Lemma string_of_app l l' :
  string_of_list_ascii (l ++ l')%list = string_of_list_ascii l +:+ string_of_list_ascii l'.
Proof.
  induction l as [|a l IH]; [reflexivity|].
  simpl. rewrite IH. reflexivity.
Qed.

Lemma rev_string_app s t : rev_string (s +:+ t) = rev_string t +:+ rev_string s.
Proof.
  unfold rev_string. rewrite list_of_append, rev_app_distr. apply string_of_app.
Qed.

Lemma rev_string_involutive s : rev_string (rev_string s) = s.
Proof.
  unfold rev_string.
  rewrite list_ascii_of_string_of_list_ascii, rev_involutive.
  apply string_of_list_ascii_of_string.
Qed.

Lemma strip_suffix_app q g : strip_suffix q (g +:+ q) = Some g.
Proof.
  unfold strip_suffix. rewrite rev_string_app, strip_prefix_app. simpl.
  rewrite rev_string_involutive. reflexivity.
Qed.

Lemma strip_suffix_Some q s g : strip_suffix q s = Some g -> s = g +:+ q.
Proof.
  unfold strip_suffix.
  destruct (strip_prefix (rev_string q) (rev_string s)) as [r|] eqn:E; [|discriminate].
  intros [= <-]. apply strip_prefix_Some in E.
  rewrite <- (rev_string_involutive s), E, rev_string_app, rev_string_involutive.
  reflexivity.
Qed.

(** A separator that the prefix does not have stops the match. *)
Lemma strip_prefix_past p a c b :
  lacks c p = true -> strip_prefix p a = None ->
  strip_prefix p (a +:+ String c b) = None.
Proof.
  revert a. induction p as [|x p IH]; intros a; simpl; [discriminate|].
  intros [Hx Hp]%andb_true_iff. apply negb_true_iff in Hx.
  destruct a as [|y a].
  - intros _. change (EmptyString +:+ String c b) with (String c b).
    simpl. rewrite Hx. reflexivity.
  - rewrite append_cons. simpl. destruct (Ascii.eqb x y); [apply IH, Hp | reflexivity].
Qed.

Lemma strip_suffix_past q s c t :
  lacks c (rev_string q) = true -> strip_suffix q t = None ->
  strip_suffix q (s +:+ String c t) = None.
Proof.
  intros Hq. unfold strip_suffix.
  destruct (strip_prefix (rev_string q) (rev_string t)) eqn:E; [discriminate|].
  intros _.
  change (String c t) with (String c EmptyString +:+ t).
  rewrite !rev_string_app.
  change (rev_string (String c EmptyString)) with (String c EmptyString).
  rewrite append_assoc. change (String c EmptyString +:+ rev_string s)
    with (String c (rev_string s)).
  rewrite (strip_prefix_past _ _ _ _ Hq E). reflexivity.
Qed.

(** The pattern on an address of its form gives the text in the middle. *)
Lemma git_url_match_app pre g :
  all_chars is_dot g = true -> git_url_match pre (pre +:+ g +:+ ".git") = Some g.
Proof.
  intros Hg. unfold git_url_match.
  rewrite strip_prefix_app, strip_suffix_app, Hg. reflexivity.
Qed.

(** An address that does not end in [.git] does not match. *)
Lemma git_url_match_None pre url :
  strip_suffix ".git" url = None -> git_url_match pre url = None.
Proof.
  intros Hu. unfold git_url_match.
  destruct (strip_prefix pre url) as [rest|] eqn:E; [|reflexivity].
  destruct (strip_suffix ".git" rest) as [g|] eqn:Eg; [|reflexivity].
  exfalso. apply strip_prefix_Some in E. apply strip_suffix_Some in Eg.
  subst rest url. rewrite <- append_assoc, strip_suffix_app in Hu. discriminate.
Qed.

Lemma nonempty_app_r s t : nonempty t = true -> nonempty (s +:+ t) = true.
Proof. destruct s; [auto | reflexivity]. Qed.

Lemma split_owner_repo owner repo :
  lacks "/" owner = true -> lacks "/" repo = true ->
  split_on "/" (owner +:+ "/" +:+ repo) = [owner; repo].
Proof.
  intros Ho Hr. change ("/" +:+ repo) with (String "/" repo).
  rewrite split_on_app by exact Ho. rewrite split_on_lacks by exact Hr. reflexivity.
Qed.

(** The three forms of address. *)
Lemma getOwnerAndRepo_matched pre owner repo :
  all_chars is_dot owner = true -> all_chars is_dot repo = true ->
  lacks "/" owner = true -> lacks "/" repo = true ->
  git_url_match pre (pre +:+ (owner +:+ "/" +:+ repo) +:+ ".git")
    = Some (owner +:+ "/" +:+ repo)
  /\ truthy (Some (owner +:+ "/" +:+ repo)) = Some (owner +:+ "/" +:+ repo)
  /\ split_on "/" (owner +:+ "/" +:+ repo) = [owner; repo].
Proof.
  intros Hdo Hdr Ho Hr.
  assert (Hd : all_chars is_dot (owner +:+ "/" +:+ repo) = true).
  { rewrite !all_chars_app, Hdo, Hdr. reflexivity. }
  assert (Hne : nonempty (owner +:+ "/" +:+ repo) = true).
  { apply nonempty_app_r. reflexivity. }
  split; [apply git_url_match_app, Hd|].
  split; [unfold truthy; rewrite Hne; reflexivity|].
  apply split_owner_repo; assumption.
Qed.

Lemma getOwnerAndRepo_ssh owner repo :
  all_chars is_dot owner = true -> all_chars is_dot repo = true ->
  lacks "/" owner = true -> lacks "/" repo = true ->
  getOwnerAndRepo ("git@github.com:" +:+ (owner +:+ "/" +:+ repo) +:+ ".git")
    = [owner; repo].
Proof.
  intros Hdo Hdr Ho Hr.
  destruct (getOwnerAndRepo_matched "git@github.com:" owner repo Hdo Hdr Ho Hr)
    as (Hm & Ht & Hs).
  unfold getOwnerAndRepo. rewrite Hm, Ht. exact Hs.
Qed.

Lemma getOwnerAndRepo_https owner repo :
  all_chars is_dot owner = true -> all_chars is_dot repo = true ->
  lacks "/" owner = true -> lacks "/" repo = true ->
  getOwnerAndRepo ("git+https://github.com/" +:+ (owner +:+ "/" +:+ repo) +:+ ".git")
    = [owner; repo].
Proof.
  intros Hdo Hdr Ho Hr.
  destruct (getOwnerAndRepo_matched "git+https://github.com/" owner repo Hdo Hdr Ho Hr)
    as (Hm & Ht & Hs).
  unfold getOwnerAndRepo.
  replace (git_url_match "git@github.com:"
             ("git+https://github.com/" +:+ (owner +:+ "/" +:+ repo) +:+ ".git"))
    with (@None string) by reflexivity.
  rewrite Hm, Ht. exact Hs.
Qed.

Lemma getOwnerAndRepo_short owner repo :
  lacks "/" owner = true -> lacks "/" repo = true ->
  strip_suffix ".git" repo = None ->
  getOwnerAndRepo (owner +:+ "/" +:+ repo) = [owner; repo].
Proof.
  intros Ho Hr Hs.
  assert (Hu : strip_suffix ".git" (owner +:+ "/" +:+ repo) = None).
  { change ("/" +:+ repo) with (String "/" repo).
    apply strip_suffix_past; [reflexivity | exact Hs]. }
  unfold getOwnerAndRepo. rewrite !(git_url_match_None _ _ Hu).
  simpl. apply split_owner_repo; assumption.
Qed.

(** An address without a slash is one part. *)
Lemma getOwnerAndRepo_single url :
  lacks "/" url = true -> strip_suffix ".git" url = None ->
  getOwnerAndRepo url = [url].
Proof.
  intros Hl Hs. unfold getOwnerAndRepo. rewrite !(git_url_match_None _ _ Hs).
  simpl. apply split_on_lacks, Hl.
Qed.

(** The pattern of the upstream check. *)
Lemma line_head_app n r :
  all_chars is_dot n = true -> line_head (n +:+ r) = n +:+ line_head r.
Proof.
  induction n as [|a n IH]; [reflexivity|].
  simpl. intros [Ha Hn]%andb_true_iff.
  rewrite !append_cons. simpl. rewrite Ha, (IH Hn). reflexivity.
Qed.

Lemma before_last_lacks c r : lacks c r = true -> before_last c r = None.
Proof.
  induction r as [|a r IH]; [reflexivity|].
  unfold lacks. simpl. intros [Ha Hr]%andb_true_iff.
  rewrite (IH Hr). apply negb_true_iff in Ha. rewrite Ha. reflexivity.
Qed.

Lemma before_last_app c n r :
  lacks c r = true -> before_last c (n +:+ String c r) = Some n.
Proof.
  intros Hr. induction n as [|a n IH].
  - change (EmptyString +:+ String c r) with (String c r). simpl.
    rewrite (before_last_lacks _ _ Hr), Ascii.eqb_refl. reflexivity.
  - rewrite append_cons. simpl. rewrite IH. reflexivity.
Qed.

Lemma behind_found n rest :
  all_chars is_dot n = true -> lacks "]" (line_head rest) = true ->
  behind ("behind " +:+ n +:+ "]" +:+ rest) = Some n.
Proof.
  intros Hn Hr.
  change ("behind " +:+ n +:+ "]" +:+ rest)
    with (String "b" ("ehind " +:+ n +:+ String "]" rest)).
  unfold behind; fold behind.
  replace (strip_prefix "behind " (String "b" ("ehind " +:+ n +:+ String "]" rest)))
    with (Some (n +:+ String "]" rest)) by reflexivity.
  rewrite line_head_app by exact Hn.
  change (line_head (String "]" rest)) with (String "]" (line_head rest)).
  rewrite before_last_app by exact Hr. reflexivity.
Qed.

Lemma behind_skip pre t :
  V3R.includes "behind " pre = false ->
  behind (pre +:+ String "b" t) = behind (String "b" t).
Proof.
  induction pre as [|a pre IH]; [reflexivity|].
  intros Hi. unfold V3R.includes in Hi; fold V3R.includes in Hi.
  destruct (strip_prefix "behind " (String a pre)) eqn:Hp; [discriminate|].
  rewrite append_cons. unfold behind; fold behind.
  assert (Hq : strip_prefix "behind " (String a (pre +:+ String "b" t)) = None).
  { change (strip_prefix "behind " (String a pre))
      with (if Ascii.eqb "b" a then strip_prefix "ehind " pre else None) in Hp.
    change (strip_prefix "behind " (String a (pre +:+ String "b" t)))
      with (if Ascii.eqb "b" a then strip_prefix "ehind " (pre +:+ String "b" t)
            else None).
    destruct (Ascii.eqb "b" a); [|reflexivity].
    apply strip_prefix_past; [reflexivity | exact Hp]. }
  rewrite Hq. apply IH, Hi.
Qed.

Lemma behind_reads pre n rest :
  V3R.includes "behind " pre = false ->
  all_chars is_dot n = true -> lacks "]" (line_head rest) = true ->
  behind (pre +:+ "behind " +:+ n +:+ "]" +:+ rest) = Some n.
Proof.
  intros Hp Hn Hr.
  change ("behind " +:+ n +:+ "]" +:+ rest)
    with (String "b" ("ehind " +:+ n +:+ "]" +:+ rest)).
  rewrite (behind_skip _ _ Hp). apply (behind_found n rest Hn Hr).
Qed.

End UrlFacts.

(** ** Rules for the classes of runs *)

Module TraceFacts.
Import Str Manifest Shell V1 Contracts Logic LogicFacts RevertFacts Traces.
Local Open Scope sh_scope.

Section Rules.
Context {W : Type} `{Host W}.

(** *** Until an event *)

Lemma until_emits {A} phi e0 (m : M W A) : emits phi m -> until phi e0 m.
Proof. intros Hm s. right. apply Hm. Qed.

Lemma until_bind {A B} phi e0 (m : M W A) (k : A -> M W B) :
  until phi e0 m -> (forall a, until phi e0 (k a)) -> until phi e0 (bind m k).
Proof.
  intros Hm Hk s. unfold bind.
  destruct (outcome (m s)) as [a|h] eqn:E; simpl; [|apply Hm].
  destruct (Hm s) as [Hin|Hall]; [left; apply elem_of_app; auto|].
  destruct (Hk a (final (m s))) as [Hin|Hall'].
  - left. apply elem_of_app. auto.
  - right. apply Forall_app. auto.
Qed.

Lemma until_seen {A B} phi e0 (m : M W A) (k : A -> M W B) :
  until phi e0 m -> seen e0 m -> until phi e0 (bind m k).
Proof.
  intros Hm Hs s. unfold bind.
  destruct (outcome (m s)) as [a|h] eqn:E; simpl; [|apply Hm].
  left. apply elem_of_app. left. exact (Hs s a E).
Qed.

Lemma seen_bind_l {A B} e0 (m : M W A) (k : A -> M W B) :
  seen e0 m -> seen e0 (bind m k).
Proof.
  intros Hm s b. unfold bind.
  destruct (outcome (m s)) as [a|h] eqn:E; simpl; [|discriminate].
  intros _. apply elem_of_app. left. exact (Hm s a E).
Qed.

Lemma seen_bind_r {A B} e0 (m : M W A) (k : A -> M W B) :
  (forall a, seen e0 (k a)) -> seen e0 (bind m k).
Proof.
  intros Hk s b. unfold bind.
  destruct (outcome (m s)) as [a|h] eqn:E; simpl; [|discriminate].
  intros E'. apply elem_of_app. right. exact (Hk a _ b E').
Qed.

(** The two runs of [run]. *)
Lemma run_eq c (s : State W) :
  run c s =
    if ((sh_exec c (world s)).1.1 =? 0)%Z
    then mkResult (Ret (sh_exec c (world s)).1.2) (set_world (sh_exec c (world s)).2 s)
                  [EvExec c 0]
    else mkResult (Stop (Exit 1)) (set_world (sh_exec c (world s)).2 s)
                  [EvExec c (sh_exec c (world s)).1.1; EvError (sh_exec c (world s)).1.2].
Proof.
  unfold run. rewrite (bind_run_ret _ _ _ _ _ _ (exec_run_eq c s)).
  destruct (sh_exec c (world s)) as [[code out] w]. cbn [fst snd].
  destruct (Z.eqb_spec code 0) as [->|Hc]; cbn [negb].
  - reflexivity.
  - unfold printErrorAndExit. reflexivity.
Qed.

Lemma run_returns c s out :
  outcome (run c s) = Ret out ->
  events (run c s) = [EvExec c 0] /\ (sh_exec c (world s)).1 = (0%Z, out).
Proof.
  rewrite run_eq. destruct (sh_exec c (world s)) as [[code o] w]. cbn [fst snd].
  destruct (Z.eqb_spec code 0) as [->|Hc]; simpl; [|discriminate].
  intros [= <-]. split; reflexivity.
Qed.

Lemma seen_run c : seen (W:=W) (EvExec c 0) (run c).
Proof.
  intros s out E. destruct (run_returns c s out E) as [-> _]. constructor.
Qed.

Lemma runAndGitRevertOnError_cases cmd (s : State W) :
  let c0 := sh_exec cmd (world s) in
  let c1 := sh_exec "git reset HEAD ." c0.2 in
  let c2 := sh_exec "git checkout package.json" c1.2 in
  let failed := EvLog (dq +:+ cmd +:+ dq +:+ " command failed, reverting version bump") in
  runAndGitRevertOnError cmd s =
    if (c0.1.1 =? 0)%Z then mkResult (Ret tt) (set_world c0.2 s) [EvExec cmd 0]
    else if (c1.1.1 =? 0)%Z then
      if (c2.1.1 =? 0)%Z then
        mkResult (Stop (Exit 1)) (set_world c2.2 s)
          [EvExec cmd c0.1.1; failed; EvExec "git reset HEAD ." 0;
           EvExec "git checkout package.json" 0; EvLog "Version bump reverted";
           EvError c0.1.2]
      else
        mkResult (Stop (Exit 1)) (set_world c2.2 s)
          [EvExec cmd c0.1.1; failed; EvExec "git reset HEAD ." 0;
           EvExec "git checkout package.json" c2.1.1; EvError c2.1.2]
    else
      mkResult (Stop (Exit 1)) (set_world c1.2 s)
        [EvExec cmd c0.1.1; failed; EvExec "git reset HEAD ." c1.1.1; EvError c1.1.2].
Proof.
  cbv zeta. unfold runAndGitRevertOnError.
  rewrite (bind_run_ret _ _ _ _ _ _ (exec_run_eq cmd s)).
  destruct (sh_exec cmd (world s)) as [[code out] w0]. cbn [fst snd].
  destruct (Z.eqb_spec code 0) as [->|Hc]; cbn [negb]; [reflexivity|].
  run_bind.
  pose proof (run_eq "git reset HEAD ." (set_world w0 s)) as E1.
  cbn [world set_world] in E1.
  destruct (sh_exec "git reset HEAD ." w0) as [[code1 out1] w1]. cbn [fst snd] in *.
  destruct (Z.eqb_spec code1 0) as [->|Hc1].
  - rewrite (bind_run_ret _ _ _ _ _ _ E1).
    pose proof (run_eq "git checkout package.json" (set_world w1 (set_world w0 s))) as E2.
    cbn [world set_world] in E2.
    destruct (sh_exec "git checkout package.json" w1) as [[code2 out2] w2].
    cbn [fst snd] in *.
    destruct (Z.eqb_spec code2 0) as [->|Hc2].
    + rewrite (bind_run_ret _ _ _ _ _ _ E2). reflexivity.
    + rewrite (bind_run_stop _ _ _ _ _ _ E2). reflexivity.
  - rewrite (bind_run_stop _ _ _ _ _ _ E1). reflexivity.
Qed.

Lemma runAndGitRevertOnError_returns cmd s a :
  outcome (runAndGitRevertOnError cmd s) = Ret a ->
  events (runAndGitRevertOnError cmd s) = [EvExec cmd 0].
Proof.
  rewrite runAndGitRevertOnError_cases. cbv zeta.
  repeat match goal with
         | |- context [if ?b then _ else _] => destruct b
         end; simpl; intros E; try discriminate E; reflexivity.
Qed.

Lemma seen_runAndGitRevertOnError cmd :
  seen (W:=W) (EvExec cmd 0) (runAndGitRevertOnError cmd).
Proof.
  intros s a E. rewrite (runAndGitRevertOnError_returns cmd s a E). constructor.
Qed.

End Rules.
End TraceFacts.

(** ** The current variant, stage by stage *)

Module RunFacts.
Import Str Manifest Shell V1 Contracts Logic LogicFacts StartupFacts RevertFacts.
Import Traces TraceFacts.
Local Open Scope sh_scope.

Section Run.
Context {W : Type} `{Host W}.

Lemma emits_impl {A} (phi psi : Event -> Prop) (m : M W A) :
  (forall e, phi e -> psi e) -> emits phi m -> emits psi m.
Proof. intros Hi Hm s. eapply Forall_impl; [apply Hm | exact Hi]. Qed.

Lemma emits_runAndGitRevertOnError (phi : Event -> Prop) cmd :
  (forall code, phi (EvExec cmd code)) ->
  (forall code, phi (EvExec "git reset HEAD ." code)) ->
  (forall code, phi (EvExec "git checkout package.json" code)) ->
  phi (EvLog (dq +:+ cmd +:+ dq +:+ " command failed, reverting version bump")) ->
  phi (EvLog "Version bump reverted") ->
  (forall out, phi (EvError out)) ->
  emits (W:=W) phi (runAndGitRevertOnError cmd).
Proof.
  intros Hc Hr Hk Hl Hl' He. unfold runAndGitRevertOnError.
  apply emits_bind; [apply emits_exec, Hc|]. intros [code out].
  repeat (first [ emits_step | apply Hr | apply Hk | exact Hl | exact Hl' | apply He ]).
Qed.

(** *** Up to the end of the test step *)

Lemma early_startup token argv :
  emits (W:=W) (fun e => early e = true) (startup token argv).
Proof.
  eapply emits_impl; [|apply startup_console].
  intros [] He; try discriminate He; reflexivity.
Qed.

Lemma early_preflight opts : emits (W:=W) (fun e => early e = true) (preflight opts).
Proof. unfold preflight. repeat (first [ emits_step | reflexivity ]). Qed.

Lemma early_versionBump cfg opts :
  emits (W:=W) (fun e => early e = true) (versionBump cfg opts).
Proof. unfold versionBump. repeat (first [ emits_step | reflexivity ]). Qed.

Lemma early_gate :
  emits (W:=W) (fun e => early e = true) (runAndGitRevertOnError "npm run test").
Proof. apply emits_runAndGitRevertOnError; intros; reflexivity. Qed.

Lemma until_testAndBuild cfg :
  until (W:=W) (fun e => early e = true) (EvExec "npm run test" 0) (testAndBuild cfg).
Proof.
  unfold testAndBuild.
  apply until_bind; [apply until_emits, emits_log; reflexivity | intros _].
  apply until_bind; [apply until_emits, emits_modify | intros _].
  apply until_seen; [apply until_emits, early_gate | apply seen_runAndGitRevertOnError].
Qed.

Lemma seen_testAndBuild cfg :
  seen (W:=W) (EvExec "npm run test" 0) (testAndBuild cfg).
Proof.
  unfold testAndBuild.
  apply seen_bind_r; intros _. apply seen_bind_r; intros _.
  apply seen_bind_l, seen_runAndGitRevertOnError.
Qed.

Lemma until_release cfg opts :
  until (W:=W) (fun e => early e = true) (EvExec "npm run test" 0) (release cfg opts).
Proof.
  unfold release.
  apply until_bind; [apply until_emits, early_preflight | intros _].
  apply until_bind; [apply until_emits, early_versionBump | intros nv].
  apply until_seen; [apply until_testAndBuild | apply seen_testAndBuild].
Qed.

Lemma seen_release cfg opts :
  seen (W:=W) (EvExec "npm run test" 0) (release cfg opts).
Proof.
  unfold release.
  apply seen_bind_r; intros _. apply seen_bind_r; intros nv.
  apply seen_bind_l, seen_testAndBuild.
Qed.

(** *** The checks at the head of the release *)

Lemma stable_Forall (phi : Event -> Prop) :
  stable (W:=W) phi (fun _ _ evs => Forall phi evs).
Proof. intros h s e1 e2 H1 H2. apply Forall_app. auto. Qed.

Lemma hoare_keeps_world {A} (w : W) (m : M W A) :
  keeps_world m -> hoare (fun s => world s = w) m (fun _ s => world s = w).
Proof.
  intros Hm s Hs. specialize (Hm s).
  destruct (outcome (m s)); [|exact I]. split; [congruence | apply Forall_true; auto].
Qed.

(** From a state in [False] anything holds. *)
Lemma triple_False {A} (m : M W A) phi (Q : A -> State W -> Prop) X :
  triple (fun _ => False) m phi Q X.
Proof. intros s []. Qed.

(** On a tree with pending changes, or behind its upstream, the checks
    stop the release. *)
Lemma never_preflight (w : W) opts :
  nonempty (sh_exec "git diff-index --name-only HEAD --" w).1.2 = true
  \/ behind (sh_exec "git status -sb"
               (sh_exec "git fetch"
                  (sh_exec "git diff-index --name-only HEAD --" w).2).2).1.2 <> None ->
  never (fun s => world s = w) (fun e => readonly e = true) (preflight opts).
Proof.
  intros Hw s Hs. unfold preflight.
  destruct (match type opts with
            | Some _ => false
            | None => negb (is_truthy (preid opts))
            end).
  { cbn [when]. unfold printErrorAndExit. run_bind. simpl. repeat constructor. }
  cbn [when]. run_bind.
  rewrite (bind_run_ret _ _ _ _ _ _ (exec_run_eq _ s)). rewrite Hs.
  destruct (sh_exec "git diff-index --name-only HEAD --" w) as [[c0 o0] w0].
  cbn [fst snd] in *.
  destruct (nonempty o0).
  { cbn [when]. unfold printErrorAndExit. run_bind. simpl. repeat constructor. }
  destruct Hw as [Hw|Hw]; [discriminate Hw|].
  cbn [when]. run_bind. unfold console_info. run_bind.
  rewrite (bind_run_ret _ _ _ _ _ _ (exec_run_eq _ _)). cbn [world set_world].
  destruct (sh_exec "git fetch" w0) as [[c1 o1] w1]. cbn [fst snd] in *.
  rewrite (bind_run_ret _ _ _ _ _ _ (exec_run_eq _ _)). cbn [world set_world].
  destruct (sh_exec "git status -sb" w1) as [[c2 o2] w2]. cbn [fst snd] in *.
  destruct (behind o2) as [n|]; [|contradiction].
  unfold printErrorAndExit. run_bind. simpl. repeat constructor.
Qed.


(** *** What a run leaves as it is *)

Section Keeps.
Context {B : Type} (f : State W -> B).
Hypothesis f_world : forall w s, f (set_world w s) = f s.

Lemma keepsf_ret {A} (a : A) : keeps f (ret (W:=W) a).
Proof. intros s. reflexivity. Qed.

Lemma keepsf_bind {A C} (m : M W A) (k : A -> M W C) :
  keeps f m -> (forall a, keeps f (k a)) -> keeps f (bind m k).
Proof.
  intros Hm Hk s. unfold bind.
  destruct (outcome (m s)) as [a|h] eqn:E; simpl; [|apply Hm].
  rewrite Hk. apply Hm.
Qed.

Lemma keepsf_same {A} (m : M W A) : (forall s, final (m s) = s) -> keeps f m.
Proof. intros Hm s. rewrite Hm. reflexivity. Qed.

Lemma keepsf_modify (g : State W -> State W) :
  (forall s, f (g s) = f s) -> keeps f (modify g).
Proof. intros Hg s. apply Hg. Qed.

Lemma keepsf_act g e : keeps f (act (W:=W) g e).
Proof. intros s. apply f_world. Qed.

Lemma keepsf_exec c : keeps f (exec (W:=W) c).
Proof.
  intros s. unfold exec. destruct (sh_exec c (world s)) as [r w]. apply f_world.
Qed.

Lemma keepsf_when b (m : M W unit) : keeps f m -> keeps f (when b m).
Proof. intros Hm. destruct b; [exact Hm | apply keepsf_ret]. Qed.

Lemma hoare_keeps {A} (P : B -> Prop) (m : M W A) :
  keeps f m -> hoare (fun s => P (f s)) m (fun _ s => P (f s)).
Proof.
  intros Hm s Hs. specialize (Hm s).
  destruct (outcome (m s)); [|exact I].
  split; [rewrite Hm; exact Hs | apply Forall_true; auto].
Qed.

End Keeps.

(** *** Runs that return *)

Lemma completes_emits {A} phi (m : M W A) : emits phi m -> completes phi m.
Proof. intros Hm s a _. apply Hm. Qed.

Lemma completes_bind {A B} phi (m : M W A) (k : A -> M W B) :
  completes phi m -> (forall a, completes phi (k a)) -> completes phi (bind m k).
Proof.
  intros Hm Hk s b. unfold bind.
  destruct (outcome (m s)) as [a|h] eqn:E; simpl; [|discriminate].
  intros E'. apply Forall_app. split; [apply (Hm s a E) | apply (Hk a _ b E')].
Qed.

Lemma completes_stop {A} phi (m : M W A) :
  (forall s, exists h, outcome (m s) = Stop h) -> completes phi m.
Proof. intros Hm s a E. destruct (Hm s) as [h Eh]. congruence. Qed.

Lemma completes_printErrorAndExit {A} phi msg :
  completes phi (printErrorAndExit (W:=W) (A:=A) msg).
Proof. apply completes_stop. intros s. eexists. reflexivity. Qed.

Lemma completes_run (phi : Event -> Prop) c :
  phi (EvExec c 0) -> completes (W:=W) phi (run c).
Proof.
  intros Hp s out E. destruct (run_returns c s out E) as [-> _].
  repeat constructor. exact Hp.
Qed.

Lemma completes_safeRun (phi : Event -> Prop) cfg c :
  phi (EvExec c 0) -> phi (EvLog (dry_line c)) -> completes (W:=W) phi (safeRun cfg c).
Proof.
  intros Hc Hl. unfold safeRun. destruct (dryRunMode cfg).
  - apply completes_emits, emits_bind; [apply emits_log, Hl | intros _; apply emits_ret].
  - apply completes_bind; [apply completes_run, Hc|].
    intros ?. apply completes_emits, emits_ret.
Qed.

Lemma completes_runAndGitRevertOnError (phi : Event -> Prop) cmd :
  phi (EvExec cmd 0) -> completes (W:=W) phi (runAndGitRevertOnError cmd).
Proof.
  intros Hp s a E. rewrite (runAndGitRevertOnError_returns cmd s a E).
  repeat constructor. exact Hp.
Qed.

Lemma completes_when phi b (m : M W unit) : completes phi m -> completes phi (when b m).
Proof. intros Hm. destruct b; [exact Hm | apply completes_emits, emits_ret]. Qed.


(** *** Stopping with exit code 1 *)

Lemma stops_ret {A} (a : A) : stops_with_one (ret (W:=W) a).
Proof. intros s h E. discriminate E. Qed.

Lemma stops_bind {A B} (m : M W A) (k : A -> M W B) :
  stops_with_one m -> (forall a, stops_with_one (k a)) -> stops_with_one (bind m k).
Proof.
  intros Hm Hk s h. unfold bind.
  destruct (outcome (m s)) as [a|h'] eqn:E; simpl.
  - apply Hk.
  - intros [= <-]. apply (Hm s h' E).
Qed.

Lemma stops_exit {A} : stops_with_one (exit (W:=W) (A:=A) 1).
Proof. intros s h [= <-]. reflexivity. Qed.

Lemma stops_throw {A} : stops_with_one (throw (W:=W) (A:=A)).
Proof. intros s h [= <-]. reflexivity. Qed.

Lemma stops_returning {A} (m : M W A) :
  (forall s, exists a, outcome (m s) = Ret a) -> stops_with_one m.
Proof. intros Hm s h E. destruct (Hm s) as [a Ea]. congruence. Qed.

Lemma stops_exec c : stops_with_one (exec (W:=W) c).
Proof.
  apply stops_returning. intros s. unfold exec.
  destruct (sh_exec c (world s)) as [r w]. eauto.
Qed.

Lemma stops_when b (m : M W unit) : stops_with_one m -> stops_with_one (when b m).
Proof. intros Hm. destruct b; [exact Hm | apply stops_ret]. Qed.

End Run.

(** One step through a computation that stops with exit code 1. *)
Ltac stops_step :=
  lazymatch goal with
  | |- stops_with_one (bind _ _) => apply stops_bind; [| intros ?]
  | |- stops_with_one (ret _) => apply stops_ret
  | |- stops_with_one (exit 1) => apply stops_exit
  | |- stops_with_one throw => apply stops_throw
  | |- stops_with_one (exec _) => apply stops_exec
  | |- stops_with_one (when _ _) => apply stops_when
  | |- stops_with_one (printErrorAndExit _) => unfold printErrorAndExit
  | |- stops_with_one (run _) => unfold run
  | |- stops_with_one (safeRun _ _) => unfold safeRun
  | |- stops_with_one (safeRm _ _) => unfold safeRm
  | |- stops_with_one (runAndGitRevertOnError _) => unfold runAndGitRevertOnError
  | |- stops_with_one (releaseAdRepo _ _ _ _ _) => unfold releaseAdRepo
  | |- stops_with_one (preflight _) => unfold preflight
  | |- stops_with_one (versionBump _ _) => unfold versionBump
  | |- stops_with_one (testAndBuild _) => unfold testAndBuild
  | |- stops_with_one (generateChangelog _ _ _) => unfold generateChangelog
  | |- stops_with_one (commitTagPush _ _ _ _) => unfold commitTagPush
  | |- stops_with_one (publishToGitHub _ _ _) => unfold publishToGitHub
  | |- stops_with_one (publishToNpm _ _ _) => unfold publishToNpm
  | |- stops_with_one (publishToBower _ _) => unfold publishToBower
  | |- stops_with_one (publishDocs _ _ _) => unfold publishDocs
  | |- stops_with_one (if ?b then _ else _) => destruct b
  | |- stops_with_one (match ?x with _ => _ end) => destruct x
  | |- stops_with_one _ => apply stops_returning; intros ?; eexists; reflexivity
  end.

(** One step through a computation that keeps [f]. *)
Ltac keeps_f_step :=
  lazymatch goal with
  | |- keeps _ (bind _ _) => apply keepsf_bind; [| intros ?]
  | |- keeps _ (ret _) => apply keepsf_ret
  | |- keeps _ (exec _) => apply keepsf_exec; intros ? ?; reflexivity
  | |- keeps _ (rm _) => apply keepsf_act; intros ? ?; reflexivity
  | |- keeps _ (cp _ _ _) => apply keepsf_act; intros ? ?; reflexivity
  | |- keeps _ (pushd _) => apply keepsf_act; intros ? ?; reflexivity
  | |- keeps _ popd => apply keepsf_act; intros ? ?; reflexivity
  | |- keeps _ (to _ _) => apply keepsf_act; intros ? ?; reflexivity
  | |- keeps _ (modify _) => apply keepsf_modify; intros ?; reflexivity
  | |- keeps _ (when _ _) => apply keepsf_when
  | |- keeps _ (printErrorAndExit _) => unfold printErrorAndExit
  | |- keeps _ (run _) => unfold run
  | |- keeps _ (safeRun _ _) => unfold safeRun
  | |- keeps _ (safeRm _ _) => unfold safeRm
  | |- keeps _ (runAndGitRevertOnError _) => unfold runAndGitRevertOnError
  | |- keeps _ (if ?b then _ else _) => destruct b
  | |- keeps _ (match ?x with _ => _ end) => destruct x
  | |- keeps _ _ => apply keepsf_same; intros ?; reflexivity
  end.

(** One step through a computation whose returning runs satisfy a
    predicate; [tac] proves the predicate of an event. *)
Ltac completes_step tac :=
  lazymatch goal with
  | |- completes _ (bind _ _) => apply completes_bind; [| intros ?]
  | |- completes _ (printErrorAndExit _) => apply completes_printErrorAndExit
  | |- completes _ (exit _) => apply completes_stop; intros ?; eexists; reflexivity
  | |- completes _ throw => apply completes_stop; intros ?; eexists; reflexivity
  | |- completes _ (run _) => apply completes_run; tac
  | |- completes _ (safeRun _ _) => apply completes_safeRun; tac
  | |- completes _ (runAndGitRevertOnError _) =>
      apply completes_runAndGitRevertOnError; tac
  | |- completes _ (when _ _) => apply completes_when
  | |- completes _ (if ?b then _ else _) => destruct b
  | |- completes _ (match ?x with _ => _ end) => destruct x
  | |- completes _ _ => apply completes_emits; repeat (first [emits_step | tac])
  end.

Section Whole.
Context {W : Type} `{Host W}.

Lemma stops_release cfg opts : stops_with_one (W:=W) (release cfg opts).
Proof. unfold release. repeat stops_step. Qed.

Lemma stops_script token argv : stops_with_one (W:=W) (script token argv).
Proof.
  unfold script. apply stops_bind; [|intros [cfg opts]; apply stops_release].
  unfold startup. repeat stops_step.
Qed.

End Whole.
End RunFacts.


(** ** What a release does not do *)

Module ReleaseFacts.
Import Str Manifest Shell V1 Contracts Logic LogicFacts StartupFacts RevertFacts.
Import Traces TraceFacts RunFacts ProcessFacts.
Local Open Scope sh_scope.

(** The stages of [release], in full. *)
Ltac unfold_release :=
  unfold release, preflight, versionBump, testAndBuild, generateChangelog,
    commitTagPush, changelogCmd, publishToGitHub, publishToNpm, publishToBower,
    publishDocs, releaseAdRepo, safeRm.

(** The steps of a run, the events by [ev]. *)
Ltac steps ev :=
  repeat (first [ apply emits_runAndGitRevertOnError;
                    [intros ? | intros ? | intros ? | | | intros ?]
                | emits_step
                | ev ]).

Ltac by_cases :=
  repeat (match goal with |- context [if ?b then _ else _] => destruct b end).

Section Run.
Context {W : Type} `{Host W}.

(** *** A private package *)

Lemma private_release cfg opts :
  isPrivate cfg = true ->
  emits (W:=W) (fun e => mirror_event e = false /\ npm_publish e = false)
        (release cfg opts).
Proof.
  intros Hp. unfold_release. rewrite Hp. cbv beta iota delta [negb andb].
  steps ltac:(split; by_cases; reflexivity).
Qed.

(** *** A dry run *)

Lemma dry_release cfg opts :
  dryRunMode cfg = true ->
  emits (W:=W) (fun e => unsafe e = false) (release cfg opts).
Proof.
  intros Hd. unfold_release. unfold safeRun. rewrite Hd. cbv beta iota.
  steps ltac:(by_cases; reflexivity).
Qed.

Lemma startup_mode token argv :
  returns (W:=W) (startup token argv)
    (fun co => V1.argv co.1 = argv /\ co.2 = versionBumpOptions argv /\
               (a_run argv = true -> dryRunMode co.1 = false) /\
               (a_run argv = false -> a_dryRun argv = true -> dryRunMode co.1 = true)).
Proof.
  unfold startup.
  repeat (first [ apply returns_bind; intros ?
                | apply returns_ret; simpl
                | match goal with
                  | |- returns (match ?x with _ => _ end) _ => destruct x
                  end ]);
    (split; [reflexivity|]); (split; [reflexivity|]);
    (split; [intros ->; reflexivity | intros -> ->; reflexivity]).
Qed.

(** *** The npm tag *)

Lemma truthy_Some (o : option string) x : truthy o = Some x -> o = Some x.
Proof.
  unfold truthy. destruct o as [y|]; [|discriminate].
  destruct (nonempty y); [intros [= <-]; reflexivity | discriminate].
Qed.

Lemma npm_release cfg :
  emits (W:=W)
    (fun e => forall c code, e = EvExec c code -> starts_with "npm publish" c = true ->
                             c = npm_publish_command (argv cfg))
    (release cfg (versionBumpOptions (argv cfg))).
Proof.
  unfold_release. unfold versionBumpOptions. cbn [preid type npmTagName].
  destruct (a_onlyDocs (argv cfg)) eqn:Ho; cbv beta iota delta [negb when];
    steps ltac:(intros ? ? E Hs;
                first [ discriminate E
                      | injection E as <- <-;
                        repeat (match type of Hs with
                                | context [if ?b then _ else _] => destruct b eqn:?
                                end);
                        first [ vm_compute in Hs; discriminate Hs | idtac ] ]).
  all: unfold npm_publish_command, is_truthy in *.
  all: destruct (truthy (a_preid (argv cfg))) as [id|] eqn:Ep; try congruence.
  all: apply truthy_Some in Ep; rewrite Ep.
  all: destruct (truthy (a_tag (argv cfg))); reflexivity.
Qed.

(** *** A release that runs to its end *)

Ltac clean_event := by_cases; first [ reflexivity | apply orb_true_r ].

Lemma clean_release cfg opts :
  completes (W:=W) (fun e => clean e = true) (release cfg opts).
Proof. unfold_release. repeat completes_step clean_event. Qed.

Lemma clean_startup token argv :
  completes (W:=W) (fun e => clean e = true) (startup token argv).
Proof. unfold startup. repeat completes_step clean_event. Qed.


(** *** A manifest without [repository] *)

(** In a live run with a token, the block that publishes to the host stops
    with an exception on a manifest without [repository]. *)
Lemma never_publishToGitHub cfg preid v (phi : Event -> Prop) :
  dryRunMode cfg = false -> is_truthy (githubToken cfg) = true ->
  (forall token, phi (EvLog ("GitHub token found " +:+ token))) ->
  phi (EvLog ("Publishing to GitHub: " +:+ v)) ->
  never (W:=W) (fun s => repository (npmjson s) = RepoMissing) phi
        (publishToGitHub cfg preid v).
Proof.
  intros Hlive Htok Hlog Hlog' s Hs. unfold publishToGitHub.
  unfold is_truthy in Htok.
  destruct (truthy (githubToken cfg)) as [token|]; [|discriminate].
  rewrite Hlive. run_bind. run_bind. run_bind. rewrite Hs. run_bind.
  simpl. repeat constructor; [apply Hlog | exact Hlog'].
Qed.

(** The stages before the publications keep the manifest in memory a
    manifest without [repository], and neither publish to npm nor send a
    request. *)
Ltac before_publication :=
  apply triple_split;
  [ apply (hoare_keeps (fun s => repository (npmjson s)) (fun r => r = RepoMissing));
    cbv beta zeta delta [preflight versionBump testAndBuild generateChangelog
                         commitTagPush changelogCmd];
    solve [repeat keeps_f_step]
  | cbv beta zeta delta [preflight versionBump testAndBuild generateChangelog
                         commitTagPush changelogCmd];
    solve [steps ltac:(split; [by_cases; reflexivity | intros ? E; discriminate E])]
  | auto ].

Lemma never_release_without_repository cfg opts :
  dryRunMode cfg = false -> is_truthy (githubToken cfg) = true ->
  a_onlyDocs (argv cfg) = false ->
  never (W:=W) (fun s => repository (npmjson s) = RepoMissing)
        (fun e => npm_publish e = false /\ forall r, e <> EvRequest r)
        (release cfg opts).
Proof.
  intros Hlive Htok Ho. unfold release. rewrite Ho. cbn [negb when].
  repeat (eapply triple_bind with (Q := fun _ s => repository (npmjson s) = RepoMissing);
          [apply stable_Forall | before_publication | intros ?]).
  eapply triple_bind with (Q := fun _ _ => False);
    [apply stable_Forall | | intros ?; apply triple_False].
  eapply triple_bind with (Q := fun _ _ => False);
    [apply stable_Forall | | intros ?; apply triple_False].
  apply never_publishToGitHub; [exact Hlive | exact Htok | intros token |];
    (split; [reflexivity | intros ? E; discriminate E]).
Qed.


(** *** A manifest without [scripts] *)

Lemma never_testAndBuild_without_scripts cfg :
  a_onlyDocs (argv cfg) && docsBuild cfg = false ->
  never (W:=W) (fun s => scripts (npmjson s) = None) (fun _ => True) (testAndBuild cfg).
Proof.
  intros Hd. unfold testAndBuild. rewrite Hd.
  do 5 (eapply triple_bind with (Q := fun _ s => scripts (npmjson s) = None);
        [ apply stable_Forall
        | apply triple_split;
          [ apply (hoare_keeps (fun s => scripts (npmjson s)) (fun r => r = None));
            solve [repeat keeps_f_step]
          | solve [steps ltac:(exact I)]
          | auto ]
        | intros ? ]).
  intros s Hs. run_bind. rewrite Hs. simpl. constructor.
Qed.


(** *** The mode a run starts in *)

Lemma startup_default token argv (s : State W) co :
  a_run argv = false ->
  (a_dryRun argv = true \/
   forall npm o, json_parse (sh_cat (path_join (sh_pwd (world s)) "package.json") (world s))
                   = Some npm ->
                 release_script npm = Some o -> o_defaultDryRun o <> Some "false") ->
  outcome (startup token argv s) = Ret co -> dryRunMode co.1 = true.
Proof.
  intros Hr Hd. unfold startup, pwd, cat, gets.
  run_bind. run_bind.
  destruct (json_parse (sh_cat (path_join (sh_pwd (world s)) "package.json") (world s)))
    as [npm|] eqn:Hp.
  2:{ unfold throw. run_bind. discriminate. }
  unfold ret at 1. run_bind. unfold prepend. cbn [outcome].
  match goal with
  | |- outcome (?m ?s') = _ -> _ =>
      assert (Hret : returns m (fun co => dryRunMode co.1 = true));
      [| intros E; exact (Hret _ _ E)]
  end.
  repeat (first [ apply returns_bind; intros ?
                | apply returns_ret; simpl
                | match goal with
                  | |- returns (match ?x with _ => _ end) _ => destruct x
                  end ]);
    rewrite Hr; (destruct Hd as [-> | Hd]; [reflexivity|]);
    rewrite orb_comm;
    (destruct (release_script npm) as [o|] eqn:Ho; [|reflexivity]);
    (destruct (o_defaultDryRun o) as [v|] eqn:Hv; [|reflexivity]);
    (destruct (String.eqb_spec v "false") as [->|]; [|reflexivity]);
    destruct (Hd npm o eq_refl Ho Hv).
Qed.

Lemma events_bind_cases {A B} (m : M W A) (k : A -> M W B) (s : State W) phi :
  Forall phi (events (m s)) ->
  (forall a, outcome (m s) = Ret a -> Forall phi (events (k a (final (m s))))) ->
  Forall phi (events (bind m k s)).
Proof.
  unfold bind. destruct (m s) as [[a|h] s1 e1]; simpl; intros Hm Hk; [|exact Hm].
  apply Forall_app. split; [exact Hm | apply Hk; reflexivity].
Qed.

(** *** The request to the host *)

Lemma publishToGitHub_live cfg preid v (s : State W) token url :
  dryRunMode cfg = false -> truthy (githubToken cfg) = Some token ->
  (repository (npmjson s) = RepoString url \/
   repository (npmjson s) = RepoObject (Some url) /\ nonempty url = true) ->
  publishToGitHub cfg preid v s =
  mkResult (Ret tt) s
    [EvLog ("GitHub token found " +:+ token);
     EvLog ("Publishing to GitHub: " +:+ v);
     EvRequest (mkRequest
       ("https://api.github.com/repos/" +:+ js_str (getOwnerAndRepo url !! 0%nat) +:+ "/" +:+
        js_str (getOwnerAndRepo url !! 1%nat) +:+ "/releases")
       v (js_str (getOwnerAndRepo url !! 1%nat) +:+ " " +:+ v) (notesForRelease s)
       false (is_truthy preid) ("token " +:+ token)
       "release-script (https://github.com/alexkval/release-script)")].
Proof.
  intros Hd Ht Hr. unfold publishToGitHub. rewrite Ht, Hd.
  unfold console_log, gets. run_bind. run_bind. run_bind.
  assert (Hu : match repository (npmjson s) with
               | RepoString s0 => ret (W:=W) s0
               | RepoObject (Some u) => if nonempty u then ret u else throw
               | RepoObject None => throw
               | RepoMissing => throw
               end = ret url).
  { destruct Hr as [-> | [-> ->]]; reflexivity. }
  rewrite Hu. unfold ret at 1. run_bind. run_bind.
  unfold request, prepend. simpl. reflexivity.
Qed.

(** *** The notes of the release *)

Lemma triple_pure {A} (p : Prop) (m : M W A) phi Q X :
  (p -> triple (fun _ => True) m phi Q X) -> triple (fun _ => p) m phi Q X.
Proof. intros Hm s Hp. exact (Hm Hp s I). Qed.

(** The request carries the notes of the state it is made in. *)
Lemma publishToGitHub_body cfg preid v (x : option string) :
  triple (W:=W) (fun s => notesForRelease s = x) (publishToGitHub cfg preid v)
    (fun e => forall r, e = EvRequest r -> tag_name r = v /\ body r = x)
    (fun _ _ => True)
    (fun _ _ evs => Forall (fun e => forall r, e = EvRequest r -> tag_name r = v /\ body r = x)
                      evs).
Proof.
  intros s Hs. unfold publishToGitHub.
  destruct (truthy (githubToken cfg)) as [token|]; [|simpl; split; [exact I | constructor]].
  run_bind. run_bind.
  assert (Hev : forall e : Event, (forall r, e <> EvRequest r) ->
                forall r, e = EvRequest r -> tag_name r = v /\ body r = x).
  { intros e Hne r E. destruct (Hne r E). }
  destruct (dryRunMode cfg).
  { simpl. split; [exact I|]. repeat (apply Forall_cons_2; [apply Hev; discriminate|]).
    apply Forall_nil_2. }
  run_bind.
  destruct (repository (npmjson s)) as [|u|[u|]];
    try (run_bind; simpl; repeat (apply Forall_cons_2; [apply Hev; discriminate|]);
         apply Forall_nil_2).
  - run_bind. run_bind. simpl. split; [exact I|].
    repeat (apply Forall_cons_2; [apply Hev; discriminate|]).
    apply Forall_cons_2; [|apply Forall_nil_2].
    intros r E. injection E as <-. split; [reflexivity | exact Hs].
  - destruct (nonempty u);
      [|run_bind; simpl; repeat (apply Forall_cons_2; [apply Hev; discriminate|]);
        apply Forall_nil_2].
    run_bind. run_bind. simpl. split; [exact I|].
    repeat (apply Forall_cons_2; [apply Hev; discriminate|]).
    apply Forall_cons_2; [|apply Forall_nil_2].
    intros r E. injection E as <-. split; [reflexivity | exact Hs].
Qed.

(** A stage that keeps the notes and sends no request. *)
Ltac stage x :=
  apply triple_split;
  [ apply (hoare_keeps (fun s => notesForRelease s) (fun r => r = x));
    cbv beta zeta delta [preflight versionBump testAndBuild commitTagPush];
    solve [repeat keeps_f_step]
  | cbv beta zeta delta [preflight versionBump testAndBuild commitTagPush];
    solve [steps ltac:(intros ? E; discriminate E)]
  | auto ].


Lemma release_notes cfg opts (n : option string) :
  isCommitsChangelogUsed cfg = false ->
  triple (W:=W) (fun s => notesForRelease s = n) (release cfg opts)
    (fun e => forall r, e = EvRequest r ->
       body r = Some (match truthy n with
                      | Some x => tag_name r +:+ " " +:+ x
                      | None => tag_name r
                      end))
    (fun _ _ => True)
    (fun _ _ evs =>
       Forall (fun e => forall r, e = EvRequest r ->
                 body r = Some (match truthy n with
                                | Some x => tag_name r +:+ " " +:+ x
                                | None => tag_name r
                                end)) evs).
Proof.
  intros Hc. unfold release.
  eapply triple_bind with (Q := fun _ s => notesForRelease s = n);
    [apply stable_Forall | stage n | intros _].
  eapply triple_bind with (Q := fun _ s => notesForRelease s = n);
    [apply stable_Forall | stage n | intros nv].
  eapply triple_bind with (Q := fun _ s => notesForRelease s = n);
    [apply stable_Forall | stage n | intros _].
  eapply triple_bind with (Q := fun a _ => a = n);
    [apply stable_Forall | apply triple_gets; auto | intros notes].
  apply triple_pure. intros ->.
  set (vn := match truthy n with
             | Some x => ("v" +:+ nv) +:+ " " +:+ x
             | None => "v" +:+ nv
             end).
  eapply triple_bind with (Q := fun _ s => notesForRelease s = Some vn);
    [apply stable_Forall | apply triple_modify; reflexivity | intros _].
  eapply triple_bind with (Q := fun _ s => notesForRelease s = Some vn);
    [apply stable_Forall
    | unfold generateChangelog; rewrite Hc; cbn [when]; apply triple_ret; auto
    | intros _].
  eapply triple_bind with (Q := fun _ s => notesForRelease s = Some vn);
    [apply stable_Forall | unfold commitTagPush; rewrite Hc; stage (Some vn) | intros _].
  eapply triple_bind with (Q := fun _ _ => True); [apply stable_Forall | | intros _].
  2:{ apply triple_emits; [|auto]. unfold publishDocs, releaseAdRepo, safeRm.
      steps ltac:(intros ? E; discriminate E). }
  destruct (a_onlyDocs (argv cfg)); cbn [negb when]; [apply triple_ret; auto|].
  eapply triple_bind with (Q := fun _ _ => True); [apply stable_Forall | | intros _].
  2:{ apply triple_emits; [|auto]. unfold publishToNpm, publishToBower, releaseAdRepo, safeRm.
      steps ltac:(intros ? E; discriminate E). }
  intros s Hs. pose proof (publishToGitHub_body cfg (preid opts) ("v" +:+ nv) (Some vn) s Hs) as Hb.
  destruct (outcome (publishToGitHub cfg (preid opts) ("v" +:+ nv) s)).
  - destruct Hb as [_ Hb]. split; [exact I|].
    eapply Forall_impl; [exact Hb|]. intros e He r ->.
    destruct (He r eq_refl) as [-> ->]. reflexivity.
  - eapply Forall_impl; [exact Hb|]. intros e He r ->.
    destruct (He r eq_refl) as [-> ->]. reflexivity.
Qed.

Lemma requests_Forall (Q : Request -> Prop) evs :
  Forall (fun e => forall r, e = EvRequest r -> Q r) evs -> Forall Q (requests evs).
Proof.
  unfold requests. induction 1 as [|e l He _ IH]; [constructor|].
  simpl. destruct e; try exact IH.
  constructor; [apply He; reflexivity | exact IH].
Qed.

(** *** A branch behind its upstream *)

Lemma preflight_behind opts (s : State W) n :
  type opts <> None \/ is_truthy (preid opts) = true ->
  (sh_exec "git diff-index --name-only HEAD --" (world s)).1.2 = EmptyString ->
  behind (sh_exec "git status -sb"
            (sh_exec "git fetch"
               (sh_exec "git diff-index --name-only HEAD --" (world s)).2).2).1.2 = Some n ->
  outcome (preflight opts s) = Stop (Exit 1)
  /\ events (preflight opts s) =
     [EvExec "git diff-index --name-only HEAD --"
        (sh_exec "git diff-index --name-only HEAD --" (world s)).1.1;
      EvLog "No pending changes";
      EvExec "git fetch"
        (sh_exec "git fetch"
           (sh_exec "git diff-index --name-only HEAD --" (world s)).2).1.1;
      EvExec "git status -sb"
        (sh_exec "git status -sb"
           (sh_exec "git fetch"
              (sh_exec "git diff-index --name-only HEAD --" (world s)).2).2).1.1;
      EvError ("Your repo is behind by " +:+ n +:+ " commits")].
Proof.
  intros Ha Hc Hb. unfold preflight.
  assert (Hg : match type opts with
               | Some _ => false
               | None => negb (is_truthy (preid opts))
               end = false).
  { destruct Ha as [Ha | Ha]; [destruct (type opts); [reflexivity | contradiction]|].
    rewrite Ha. destruct (type opts); reflexivity. }
  rewrite Hg. cbn [when]. run_bind.
  rewrite (bind_run_ret _ _ _ _ _ _ (exec_run_eq _ s)).
  destruct (sh_exec "git diff-index --name-only HEAD --" (world s)) as [[c0 o0] w0].
  cbn [fst snd] in *. subst o0.
  cbn [when nonempty]. run_bind. unfold console_info. run_bind.
  rewrite (bind_run_ret _ _ _ _ _ _ (exec_run_eq _ _)). cbn [world set_world].
  destruct (sh_exec "git fetch" w0) as [[c1 o1] w1]. cbn [fst snd] in *.
  rewrite (bind_run_ret _ _ _ _ _ _ (exec_run_eq _ _)). cbn [world set_world].
  destruct (sh_exec "git status -sb" w1) as [[c2 o2] w2]. cbn [fst snd] in *.
  rewrite Hb. unfold printErrorAndExit. run_bind. split; reflexivity.
Qed.

End Run.
End ReleaseFacts.

(** ** The variant with [--skip-version-bumping] *)

Module V3Facts.
Import Str Manifest Shell Contracts Logic LogicFacts RevertFacts.
Import Traces TraceFacts RunFacts ReleaseFacts V3 V3R.
Local Open Scope sh_scope.

(** The stages of the release of this variant, down to the calls of the
    shell. *)
Ltac unfold_release3 :=
  cbv beta zeta delta
    [V3R.release V3R.preflight V3R.versionBump V3R.testAndBuild
     V3R.generateChangelog V3R.commitTagPush V3R.changelogCmd V3R.repositoryOf
     V3R.publishToGitHub V3R.publishToNpm V3R.publishToBower V3R.registerBower
     V3R.publishDocs V3R.releaseAdRepo V3R.runAndGitRevertOnError V3R.safeRm
     V3R.safeRun V3R.run].

Section Run.
Context {W : Type} `{Host W}.
Variable gh_clone_url : RepoValue -> option string.

(** *** [--skip-tests] *)

Lemma untested_release cfg opts :
  a_skipTests (argv cfg) = true ->
  emits (W:=W) (fun e => runs_tests e = false) (V3R.release gh_clone_url cfg opts).
Proof.
  intros Hs. unfold_release3.
  repeat (first
    [ match goal with
      | |- emits _ (when (_ && negb (a_skipTests _)) _) =>
          rewrite Hs; cbn [negb]; rewrite andb_false_r; apply emits_ret
      end
    | emits_step
    | by_cases; reflexivity ]).
Qed.

(** *** [--skip-version-bumping] *)

Lemma unbumped_release_calls_no_to cfg opts :
  a_skipVersionBumping (argv cfg) = true -> truthy (altPkgRootFolder cfg) = None ->
  emits (W:=W) (fun e => calls_to e = false) (V3R.release gh_clone_url cfg opts).
Proof.
  intros Hs Ha. unfold_release3. rewrite Hs, Ha. cbv beta iota.
  steps ltac:(reflexivity).
Qed.

Lemma unbumped_release_keeps_manifest cfg opts :
  a_skipVersionBumping (argv cfg) = true -> truthy (altPkgRootFolder cfg) = None ->
  keeps (W:=W) npmjson (V3R.release gh_clone_url cfg opts).
Proof.
  intros Hs Ha. unfold_release3. rewrite Hs, Ha. cbv beta iota.
  repeat keeps_f_step.
Qed.

(** *** A manifest without [scripts] *)

Lemma testAndBuild_without_scripts cfg (s : State W) :
  scripts (npmjson s) = None -> V3R.testAndBuild cfg s = mkResult (Ret tt) s [].
Proof. intros Hs. unfold V3R.testAndBuild. run_bind. rewrite Hs. reflexivity. Qed.

(** *** The registration of the bower package *)

(** With [skipError], [run] returns whatever the exit code. *)
Lemma run_skipError c (s : State W) :
  V3R.run c true s =
    mkResult (Ret (sh_exec c (world s)).1.2) (set_world (sh_exec c (world s)).2 s)
             [EvExec c (sh_exec c (world s)).1.1].
Proof.
  unfold V3R.run. rewrite (bind_run_ret _ _ _ _ _ _ (exec_run_eq c s)).
  destruct (sh_exec c (world s)) as [[code out] w]. cbn [fst snd negb].
  rewrite andb_false_r. reflexivity.
Qed.

Lemma registerBower_dry cfg repo bower u (s : State W) :
  dryRunMode cfg = true -> bowerjson cfg = Some bower -> private bower = false ->
  sh_which "bower" (world s) = true -> gh_clone_url repo = Some u ->
  V3R.registerBower gh_clone_url cfg repo s =
    mkResult (Stop Crash) s
      [EvLog "Registering: bower package";
       EvLog (V1.dry_line ("bower register " +:+ js_str (name bower) +:+ " " +:+ u))].
Proof.
  intros Hd Hb Hp Hw Hu. unfold V3R.registerBower. rewrite Hb, Hp.
  unfold which. run_bind. rewrite Hw. cbn [negb]. run_bind. rewrite Hu. run_bind.
  unfold V3R.safeRun. rewrite Hd. rewrite (bind_assoc (W:=W)). run_bind. run_bind.
  reflexivity.
Qed.

Lemma registerBower_live cfg repo (s : State W) :
  dryRunMode cfg = false -> is_Some (gh_clone_url repo) ->
  outcome (V3R.registerBower gh_clone_url cfg repo s) = Ret tt
  /\ Forall (fun e => is_error e = false)
            (events (V3R.registerBower gh_clone_url cfg repo s)).
Proof.
  intros Hd [u Hu]. unfold V3R.registerBower.
  destruct (bowerjson cfg) as [bower|]; [|split; [reflexivity | constructor]].
  destruct (private bower); [split; [reflexivity | repeat constructor]|].
  unfold which. run_bind.
  destruct (sh_which "bower" (world s)); cbn [negb];
    [|split; [reflexivity | repeat constructor]].
  run_bind. rewrite Hu. run_bind.
  unfold V3R.safeRun. rewrite Hd. rewrite (bind_assoc (W:=W)).
  rewrite (bind_run_ret _ _ _ _ _ _ (run_skipError _ s)). run_bind.
  by_cases; split; try reflexivity; repeat constructor.
Qed.

Lemma returns_first {A B} (m : M W A) (k : A -> M W B) (Q : B -> Prop) :
  returns m (fun _ => False) -> returns (bind m k) Q.
Proof.
  intros Hm s b. unfold bind.
  destruct (outcome (m s)) as [a|h] eqn:E; simpl; [|discriminate].
  destruct (Hm s a E).
Qed.

Lemma dry_release_stops cfg opts bower :
  dryRunMode cfg = true -> a_onlyDocs (argv cfg) = false ->
  bowerjson cfg = Some bower -> private bower = false ->
  (forall w : W, sh_which "bower" w = true) ->
  (forall repo, is_Some (gh_clone_url repo)) ->
  returns (W:=W) (V3R.release gh_clone_url cfg opts) (fun _ => False).
Proof.
  intros Hd Ho Hb Hp Hw Hgh. unfold V3R.release. rewrite Ho. cbn [negb when].
  do 7 (apply returns_bind; intros ?).
  apply returns_first.
  do 4 (apply returns_bind; intros ?).
  intros s x E.
  match type of E with
  | context [V3R.registerBower _ _ ?r _] => destruct (Hgh r) as [u Hu]
  end.
  rewrite (registerBower_dry cfg _ bower u s Hd Hb Hp (Hw _) Hu) in E. discriminate E.
Qed.

(** *** A manifest without [repository] *)

Lemma never_repositoryOf (phi : Event -> Prop) :
  never (W:=W) (fun s => repository (npmjson s) = RepoMissing) phi V3R.repositoryOf.
Proof.
  intros s Hs. unfold V3R.repositoryOf. run_bind. rewrite Hs. simpl. constructor.
Qed.

Ltac before_publication3 :=
  apply triple_split;
  [ apply (hoare_keeps (fun s => repository (npmjson s)) (fun r => r = RepoMissing));
    unfold_release3; solve [repeat keeps_f_step]
  | unfold_release3;
    solve [steps ltac:(split; [by_cases; reflexivity | intros ? E; discriminate E])]
  | auto ].

Lemma never_release3_without_repository cfg opts :
  a_onlyDocs (argv cfg) = false ->
  never (W:=W) (fun s => repository (npmjson s) = RepoMissing)
        (fun e => npm_publish e = false /\ forall r, e <> EvRequest r)
        (V3R.release gh_clone_url cfg opts).
Proof.
  intros Ho. unfold V3R.release. rewrite Ho. cbn [negb when].
  do 7 (eapply triple_bind with (Q := fun _ s => repository (npmjson s) = RepoMissing);
        [apply stable_Forall | before_publication3 | intros ?]).
  eapply triple_bind with (Q := fun _ _ => False);
    [apply stable_Forall | | intros ?; apply triple_False].
  eapply triple_bind with (Q := fun _ _ => False);
    [apply stable_Forall | apply never_repositoryOf | intros ?; apply triple_False].
Qed.


End Run.
End V3Facts.

(** ** The first variant *)

Module V2Facts.
Import Str Manifest Shell Contracts Logic LogicFacts StartupFacts RevertFacts.
Import Traces TraceFacts RunFacts ReleaseFacts.
Local Open Scope sh_scope.

Ltac unfold_release2 :=
  cbv beta zeta delta
    [V2.release V2.preflight V2.lintAndTest V2.versionBump V2.build V2.commitTagPush
     V2.publishToNpm V2.publishToBower V2.safeRun].

Section Rules.
Context {W : Type} `{Host W}.

(** *** Runs that do not end with an exception *)

Lemma no_crash_bind {A B} (m : M W A) (k : A -> M W B) :
  no_crash m -> (forall a, no_crash (k a)) -> no_crash (bind m k).
Proof.
  intros Hm Hk s. unfold bind.
  destruct (outcome (m s)) as [a|h] eqn:E; simpl; [apply Hk|].
  intros [= ->]. exact (Hm s E).
Qed.

Lemma no_crash_when b (m : M W unit) : no_crash m -> no_crash (when b m).
Proof. intros Hm. destruct b; [exact Hm | intros s; discriminate]. Qed.

End Rules.

Ltac no_crash_step :=
  lazymatch goal with
  | |- no_crash (bind _ _) => apply no_crash_bind; [| intros ?]
  | |- no_crash (when _ _) => apply no_crash_when
  | |- no_crash (V1.printErrorAndExit _) => unfold V1.printErrorAndExit
  | |- no_crash (if ?b then _ else _) => destruct b
  | |- no_crash (match ?x with _ => _ end) => destruct x
  | |- no_crash _ => intros ?; discriminate
  end.

Section Run.
Context {W : Type} `{Host W}.

(** *** The start of the script *)

Lemma startup2_without_devDependencies argv npm (s : State W) :
  json_parse (sh_cat (path_join (sh_pwd (world s)) "package.json") (world s)) = Some npm ->
  devDependencies npm = None ->
  V2.startup argv s = mkResult (Stop Crash) (set_npmjson npm s) [].
Proof.
  intros Hp Hd. unfold V2.startup, pwd, cat. run_bind. run_bind. rewrite Hp.
  run_bind. run_bind. rewrite Hd. run_bind. reflexivity.
Qed.

Lemma startup_parsed_no_crash token argv npm (s : State W) :
  json_parse (sh_cat (path_join (sh_pwd (world s)) "package.json") (world s)) = Some npm ->
  outcome (V1.startup token argv s) <> Stop Crash.
Proof.
  intros Hp. unfold V1.startup, pwd, cat. run_bind. run_bind. rewrite Hp. run_bind.
  unfold prepend. cbn [outcome].
  match goal with
  | |- outcome (bind ?m ?k ?s) <> _ => assert (Hn : no_crash (bind m k))
  end.
  { unfold which. repeat no_crash_step. }
  apply Hn.
Qed.

(** *** Up to the end of the test step *)

Lemma early2_startup argv :
  emits (W:=W) (fun e => early_v2 e = true) (V2.startup argv).
Proof. unfold V2.startup. steps ltac:(reflexivity). Qed.

Lemma early2_preflight opts :
  emits (W:=W) (fun e => early_v2 e = true) (V2.preflight opts).
Proof. unfold V2.preflight. steps ltac:(reflexivity). Qed.

Lemma until_script2 argv :
  until (W:=W) (fun e => early_v2 e = true) (EvExec "npm run test" 0) (V2.script argv).
Proof.
  unfold V2.script.
  apply until_bind; [apply until_emits, early2_startup | intros [cfg opts]].
  unfold V2.release.
  apply until_bind; [apply until_emits, early2_preflight | intros _].
  apply until_seen.
  - unfold V2.lintAndTest.
    apply until_bind; [apply until_emits, emits_log; reflexivity | intros _].
    apply until_seen; [|apply seen_run].
    apply until_emits, emits_run; intros; reflexivity.
  - unfold V2.lintAndTest. apply seen_bind_r. intros _. apply seen_bind_l, seen_run.
Qed.

(** *** The build and its revert *)

Lemma build_cases (s : State W) :
  let c0 := sh_exec "npm run build" (world s) in
  let c1 := sh_exec "git reset HEAD ." c0.2 in
  let c2 := sh_exec "git checkout package.json" c1.2 in
  V2.build s =
    if (c0.1.1 =? 0)%Z then
      mkResult (Ret tt) (set_world c0.2 s)
        [EvLog "Running: build"; EvExec "npm run build" 0; EvLog "Completed: build"]
    else if (c1.1.1 =? 0)%Z then
      if (c2.1.1 =? 0)%Z then
        mkResult (Stop (Exit 1)) (set_world c2.2 s)
          [EvLog "Running: build"; EvExec "npm run build" c0.1.1;
           EvLog "Build failed, reverting version bump";
           EvExec "git reset HEAD ." 0; EvExec "git checkout package.json" 0;
           EvLog "Version bump reverted"; EvError c0.1.2]
      else
        mkResult (Stop (Exit 1)) (set_world c2.2 s)
          [EvLog "Running: build"; EvExec "npm run build" c0.1.1;
           EvLog "Build failed, reverting version bump";
           EvExec "git reset HEAD ." 0;
           EvExec "git checkout package.json" c2.1.1; EvError c2.1.2]
    else
      mkResult (Stop (Exit 1)) (set_world c1.2 s)
        [EvLog "Running: build"; EvExec "npm run build" c0.1.1;
         EvLog "Build failed, reverting version bump";
         EvExec "git reset HEAD ." c1.1.1; EvError c1.1.2].
Proof.
  cbv zeta. unfold V2.build. run_bind.
  rewrite (bind_run_ret _ _ _ _ _ _ (exec_run_eq "npm run build" s)).
  destruct (sh_exec "npm run build" (world s)) as [[code out] w0]. cbn [fst snd].
  destruct (Z.eqb_spec code 0) as [->|Hc]; cbn [negb when].
  { run_bind. reflexivity. }
  rewrite (bind_assoc (W:=W)). run_bind.
  rewrite (bind_assoc (W:=W)).
  pose proof (run_eq "git reset HEAD ." (set_world w0 s)) as E1.
  cbn [world set_world] in E1.
  destruct (sh_exec "git reset HEAD ." w0) as [[code1 out1] w1]. cbn [fst snd] in *.
  destruct (Z.eqb_spec code1 0) as [->|Hc1].
  - rewrite (bind_run_ret _ _ _ _ _ _ E1). rewrite (bind_assoc (W:=W)).
    pose proof (run_eq "git checkout package.json" (set_world w1 (set_world w0 s))) as E2.
    cbn [world set_world] in E2.
    destruct (sh_exec "git checkout package.json" w1) as [[code2 out2] w2].
    cbn [fst snd] in *.
    destruct (Z.eqb_spec code2 0) as [->|Hc2].
    + rewrite (bind_run_ret _ _ _ _ _ _ E2). reflexivity.
    + rewrite (bind_run_stop _ _ _ _ _ _ E2). reflexivity.
  - rewrite (bind_run_stop _ _ _ _ _ _ E1). reflexivity.
Qed.

(** *** A dry run *)

Lemma dry_release2 cfg opts :
  a_dryRun (V2.argv cfg) = true ->
  emits (W:=W) (fun e => unsafe e = false) (V2.release cfg opts).
Proof.
  intros Hd. unfold_release2. rewrite Hd. cbv beta iota.
  steps ltac:(by_cases; reflexivity).
Qed.

Lemma startup2_argv argv :
  returns (W:=W) (V2.startup argv) (fun co => V2.argv co.1 = argv).
Proof.
  unfold V2.startup.
  repeat (first [ apply returns_bind; intros ?
                | apply returns_ret; reflexivity
                | match goal with
                  | |- returns (match ?x with _ => _ end) _ => destruct x
                  end ]).
Qed.

End Run.
End V2Facts.

(** * The release on the host, with and without a token *)

Module GithubFacts.
Import Str Manifest Shell V1 Contracts Logic LogicFacts StartupFacts RevertFacts.
Import Traces TraceFacts RunFacts ProcessFacts ReleaseFacts.
Local Open Scope sh_scope.

Section Run.
Context {W : Type} `{Host W}.

(** *** Two runs side by side *)

Lemma ends_alike_refl {A} (r : Result W A) : ends_alike r r.
Proof. split; reflexivity. Qed.

Lemma ends_alike_prepend {A} e (r1 r2 : Result W A) :
  ends_alike r1 r2 -> ends_alike (prepend e r1) (prepend e r2).
Proof. intros [Ho Hf]. split; assumption. Qed.

(** Behind the same first computation, which keeps [f]. *)
Lemma ends_alike_bind {A B D} (f : State W -> D) (d : D)
    (m : M W A) (k1 k2 : A -> M W B) :
  keeps f m ->
  (forall a s', f s' = d -> ends_alike (k1 a s') (k2 a s')) ->
  forall s, f s = d -> ends_alike (bind m k1 s) (bind m k2 s).
Proof.
  intros Hm Hk s Hs. apply bind_same.
  - intros. apply ends_alike_refl.
  - intros. apply ends_alike_prepend. assumption.
  - intros a. apply Hk. rewrite Hm. exact Hs.
Qed.

(** Before the same continuation. *)
Lemma ends_alike_bind_l {A B} (m1 m2 : M W A) (k : A -> M W B) s :
  ends_alike (m1 s) (m2 s) -> ends_alike (bind m1 k s) (bind m2 k s).
Proof.
  intros [Ho Hf]. unfold bind. rewrite Ho, Hf.
  destruct (outcome (m2 s)); split; reflexivity.
Qed.

(** *** The token in the configuration *)

Lemma startup_token t1 t2 argv (s : State W) :
  events (startup t1 argv s) = events (startup t2 argv s)
  /\ final (startup t1 argv s) = final (startup t2 argv s)
  /\ match outcome (startup t2 argv s) with
     | Ret co => outcome (startup t1 argv s) = Ret (with_githubToken t1 co.1, co.2)
                 /\ githubToken co.1 = t2
     | Stop h => outcome (startup t1 argv s) = Stop h
     end.
Proof.
  set (P := fun r1 r2 : Result W (Config * VersionBumpOptions) =>
              events r1 = events r2 /\ final r1 = final r2
              /\ match outcome r2 with
                 | Ret co => outcome r1 = Ret (with_githubToken t1 co.1, co.2)
                             /\ githubToken co.1 = t2
                 | Stop h => outcome r1 = Stop h
                 end).
  change (P (startup t1 argv s) (startup t2 argv s)).
  assert (Hs : forall h s' e, P (mkResult (Stop h) s' e) (mkResult (Stop h) s' e)).
  { intros. repeat split. }
  assert (Hp : forall e r1 r2, P r1 r2 -> P (prepend e r1) (prepend e r2)).
  { intros e r1 r2 (He & Hf & Ho). split; [|split]; simpl; [rewrite He; reflexivity|exact Hf|exact Ho]. }
  unfold startup.
  repeat (cbv beta zeta; apply (bind_same P); [exact Hs | exact Hp | intros ?]).
  repeat split.
Qed.

(** The manifest in memory when [startup] returns is the one it read. *)
Lemma startup_manifest token argv (s : State W) co :
  outcome (startup token argv s) = Ret co ->
  json_parse (sh_cat (path_join (sh_pwd (world s)) "package.json") (world s))
  = Some (npmjson (final (startup token argv s))).
Proof.
  unfold startup, pwd, cat, gets. run_bind. run_bind.
  destruct (json_parse (sh_cat (path_join (sh_pwd (world s)) "package.json") (world s)))
    as [npm|] eqn:Hp.
  2:{ unfold throw. run_bind. discriminate. }
  rewrite (bind_run_ret (ret npm) _ _ npm _ [] eq_refl).
  rewrite (bind_run_ret (modify _) _ _ tt _ [] eq_refl).
  unfold prepend. cbn [outcome final]. intros _. f_equal.
  match goal with
  | |- _ = npmjson (final (?m ?s')) =>
      assert (Hk : keeps npmjson m); [| rewrite Hk; reflexivity]
  end.
  repeat keeps_f_step.
Qed.

(** *** The block that publishes to the host *)

Lemma publishToGitHub_without_token cfg preid v :
  githubToken cfg = None -> publishToGitHub (W:=W) cfg preid v = ret tt.
Proof. intros Ht. unfold publishToGitHub. rewrite Ht. reflexivity. Qed.

(** With a token and the address of a repository in the manifest, the block
    returns, in the state it started from. *)
Lemma publishToGitHub_returns cfg preid v (s : State W) token :
  truthy (githubToken cfg) = Some token ->
  names_repository (npmjson s) = true ->
  outcome (publishToGitHub cfg preid v s) = Ret tt
  /\ final (publishToGitHub cfg preid v s) = s.
Proof.
  intros Ht Hr. destruct (dryRunMode cfg) eqn:Hd.
  - unfold publishToGitHub. rewrite Ht, Hd. split; reflexivity.
  - unfold names_repository in Hr.
    destruct (repository (npmjson s)) as [|url|[url|]] eqn:Er; try discriminate.
    + rewrite (publishToGitHub_live cfg preid v s token url Hd Ht) by (left; exact Er).
      split; reflexivity.
    + rewrite (publishToGitHub_live cfg preid v s token url Hd Ht)
        by (right; split; [exact Er | exact Hr]).
      split; reflexivity.
Qed.

(** In a live run with a token, the block that returns has made a request. *)
Lemma happens_publishToGitHub cfg preid v token :
  dryRunMode cfg = false -> truthy (githubToken cfg) = Some token ->
  happens (W:=W) is_request (publishToGitHub cfg preid v).
Proof.
  intros Hd Ht s a. unfold publishToGitHub. rewrite Ht, Hd.
  run_bind. run_bind. run_bind.
  destruct (repository (npmjson s)) as [|url|[url|]];
    try (run_bind; discriminate).
  - run_bind. run_bind. intros _. simpl.
    do 2 apply Exists_cons_tl. apply Exists_cons_hd. reflexivity.
  - destruct (nonempty url); [|run_bind; discriminate].
    run_bind. run_bind. intros _. simpl.
    do 2 apply Exists_cons_tl. apply Exists_cons_hd. reflexivity.
Qed.

Lemma happens_bind_l {A B} phi (m : M W A) (k : A -> M W B) :
  happens phi m -> happens phi (bind m k).
Proof.
  intros Hm s b. unfold bind. specialize (Hm s).
  destruct (m s) as [[a|h] s' e]; simpl in *; [|discriminate].
  intros _. apply Exists_app. left. exact (Hm a eq_refl).
Qed.

Lemma happens_bind_r {A B} phi (m : M W A) (k : A -> M W B) :
  (forall a, happens phi (k a)) -> happens phi (bind m k).
Proof.
  intros Hk s b. unfold bind.
  destruct (m s) as [[a|h] s' e]; simpl in *; [|discriminate].
  intros E. apply Exists_app. right. exact (Hk a s' b E).
Qed.

Lemma happens_release cfg opts token :
  dryRunMode cfg = false -> truthy (githubToken cfg) = Some token ->
  a_onlyDocs (argv cfg) = false ->
  happens (W:=W) is_request (release cfg opts).
Proof.
  intros Hd Ht Ho. unfold release. rewrite Ho. cbn [negb when].
  do 7 (cbv beta zeta; apply happens_bind_r; intros ?).
  do 2 apply happens_bind_l. exact (happens_publishToGitHub cfg _ _ token Hd Ht).
Qed.

(** The release with a token ends as the release without it, on a manifest
    that names the address of a repository. *)
Lemma release_with_token cfg opts t :
  release (W:=W) (with_githubToken t cfg) opts =
  (let preid := preid opts in
   preflight opts ;;
   nv ← versionBump cfg opts;
   testAndBuild cfg ;;
   let vVersion := "v" +:+ nv in
   notes ← gets notesForRelease;
   let versionAndNotes :=
     match truthy notes with
     | Some n => vVersion +:+ " " +:+ n
     | None => vVersion
     end in
   modify (set_notesForRelease (Some versionAndNotes)) ;;
   generateChangelog cfg preid versionAndNotes ;;
   commitTagPush cfg preid vVersion versionAndNotes ;;
   when (negb (a_onlyDocs (argv cfg)))
        (publishToGitHub (with_githubToken t cfg) preid vVersion ;;
         publishToNpm cfg preid (npmTagName opts) ;;
         publishToBower cfg vVersion) ;;
   publishDocs cfg preid vVersion ;;
   console_log ("Version v" +:+ nv +:+ " released!")).
Proof. reflexivity. Qed.

Lemma release_token cfg opts token (s : State W) :
  githubToken cfg = None -> nonempty token = true ->
  names_repository (npmjson s) = true ->
  ends_alike (release (with_githubToken (Some token) cfg) opts s) (release cfg opts s).
Proof.
  intros Hn Ht Hr. rewrite release_with_token. unfold release.
  unfold names_repository in Hr.
  remember (repository (npmjson s)) as d eqn:Hs. symmetry in Hs.
  revert s Hs. cbv zeta.
  do 7 (cbv beta;
        apply (ends_alike_bind (fun s => repository (npmjson s)) d);
        [ cbv beta zeta delta [preflight versionBump testAndBuild generateChangelog
                               commitTagPush changelogCmd];
          solve [repeat keeps_f_step]
        | intros ? ]).
  intros s Hs. apply ends_alike_bind_l.
  destruct (a_onlyDocs (argv cfg)); cbn [negb when]; [apply ends_alike_refl|].
  rewrite (publishToGitHub_without_token cfg _ _ Hn).
  destruct (publishToGitHub_returns (with_githubToken (Some token) cfg) (preid opts)
              ("v" +:+ a0) s token) as [Eo Ef].
  { simpl. rewrite Ht. reflexivity. }
  { unfold names_repository. rewrite Hs. exact Hr. }
  rewrite (bind_ret_eq _ _ _ _ Eo), Ef.
  rewrite (bind_ret_eq (ret tt) _ s tt eq_refl).
  split; reflexivity.
Qed.

(** *** The callbacks on answers that refuse *)

Lemma githubCallback_refused token resp (s : State W) :
  refused resp = true ->
  outcome (githubCallback token resp s) = Ret tt
  /\ EvLog "Skip GitHub releasing" ∈ events (githubCallback token resp s).
Proof.
  destruct resp as [err|st body]; simpl; intros Hr.
  - split; [reflexivity | set_solver].
  - rewrite Hr. split; [reflexivity | set_solver].
Qed.

Lemma callbacks_refused token qs (s : State W) :
  (forall q, q ∈ qs -> refused (http_response q (world s)) = true) ->
  outcome (callbacks token qs s) = Ret tt
  /\ (qs <> [] -> EvLog "Skip GitHub releasing" ∈ events (callbacks token qs s)).
Proof.
  induction qs as [|q qs IH]; intros Hr; [split; [reflexivity | congruence]|].
  cbn [callbacks]. run_bind. cbn [outcome events prepend app].
  destruct (githubCallback_refused token (http_response q (world s)) s) as [Eo Hin].
  { apply Hr. left. }
  rewrite (bind_ret_eq _ _ _ _ Eo), githubCallback_final. cbn [outcome events].
  split; [apply IH; intros q' Hq'; apply Hr; right; exact Hq'|].
  intros _. apply elem_of_app. left. exact Hin.
Qed.

Lemma requests_happen evs :
  Exists (fun e => is_request e = true) evs -> requests evs <> [].
Proof.
  unfold requests. induction 1 as [e l He | e l _ IH].
  - destruct e; try discriminate He. simpl. discriminate.
  - simpl. destruct e; try exact IH. discriminate.
Qed.

(** *** The script with and without a token *)

Lemma startup_reads_token token argv :
  returns (W:=W) (startup token argv) (fun co => githubToken co.1 = token).
Proof.
  intros s co E. destruct (startup_token token token argv s) as (_ & _ & Ho).
  rewrite E in Ho. apply Ho.
Qed.

Lemma script_token token argv (s : State W) :
  nonempty token = true ->
  (forall npm,
     json_parse (sh_cat (path_join (sh_pwd (world s)) "package.json") (world s)) = Some npm ->
     names_repository npm = true) ->
  ends_alike (script (Some token) argv s) (script None argv s).
Proof.
  intros Ht Hr. unfold script.
  destruct (startup_token (Some token) None argv s) as (_ & Hf & Ho).
  destruct (outcome (startup None argv s)) as [[cfg opts]|h] eqn:E.
  - destruct Ho as [Ho Hn]. cbn [fst snd] in Ho, Hn.
    rewrite (bind_ret_eq _ _ _ _ Ho), (bind_ret_eq _ _ _ _ E), Hf.
    apply (release_token cfg opts token _ Hn Ht).
    apply Hr. exact (startup_manifest None argv s _ E).
  - rewrite (bind_stop_eq _ _ _ _ Ho), (bind_stop_eq _ _ _ _ E).
    split; [reflexivity | exact Hf].
Qed.

Lemma happens_bind_returns {A B} phi (m : M W A) (k : A -> M W B) (Q : A -> Prop) :
  returns m Q -> (forall a, Q a -> happens phi (k a)) -> happens phi (bind m k).
Proof.
  intros Hm Hk s b. unfold bind. specialize (Hm s).
  destruct (m s) as [[a|h] s' e]; simpl in *; [|discriminate].
  intros E. apply Exists_app. right. exact (Hk a (Hm a eq_refl) s' b E).
Qed.

Lemma happens_script token argv :
  nonempty token = true -> a_run argv = true -> a_onlyDocs argv = false ->
  happens (W:=W) is_request (script (Some token) argv).
Proof.
  intros Ht Hr Ho. unfold script.
  apply happens_bind_returns
    with (Q := fun co => (V1.argv co.1 = argv /\ dryRunMode co.1 = false)
                         /\ githubToken co.1 = Some token).
  - intros s co E. split.
    + destruct (startup_mode (Some token) argv s co E) as (Ha & _ & Hl & _). auto.
    + exact (startup_reads_token (Some token) argv s co E).
  - intros [cfg opts] [[Ha Hd] Hk]. cbn [fst snd] in *.
    apply (happens_release cfg opts token Hd).
    + rewrite Hk. simpl. rewrite Ht. reflexivity.
    + rewrite Ha. exact Ho.
Qed.

(** The process of a script that returns. *)
Lemma process_returns token argv (w : W) :
  outcome (script token argv (init_state w)) = Ret tt ->
  outcome (process token argv w)
  = outcome (callbacks token (requests (events (script token argv (init_state w))))
               (final (script token argv (init_state w))))
  /\ events (process token argv w)
     = (events (script token argv (init_state w)) ++
        events (callbacks token (requests (events (script token argv (init_state w))))
                  (final (script token argv (init_state w)))))%list.
Proof. unfold process. intros ->. split; reflexivity. Qed.

Lemma requests_app evs1 evs2 : requests (evs1 ++ evs2) = (requests evs1 ++ requests evs2)%list.
Proof. unfold requests. apply omap_app. Qed.

End Run.
End GithubFacts.

Section HostRelease.
Import Str Manifest Shell V1 Contracts Logic LogicFacts.
Import Traces ProcessFacts GithubFacts.




End HostRelease.

Section AddressProperties.
Import Str StrFacts V1 UrlFacts.

(** X1: [getOwnerAndRepo] reads the owner and the repository name off the
    three forms of address its comment lists.  For names without a slash
    and without a line end, the ssh form and the git+https form give the
    pair, and so does the short form when the repository name does not
    itself end in [.git]. *)
Theorem getOwnerAndRepo_three_forms (owner repo : string) :
  all_chars is_dot owner = true -> all_chars is_dot repo = true ->
  lacks "/" owner = true -> lacks "/" repo = true ->
  getOwnerAndRepo ("git@github.com:" +:+ (owner +:+ "/" +:+ repo) +:+ ".git")
    = [owner; repo]
  /\ getOwnerAndRepo ("git+https://github.com/" +:+ (owner +:+ "/" +:+ repo) +:+ ".git")
    = [owner; repo]
  /\ (strip_suffix ".git" repo = None ->
      getOwnerAndRepo (owner +:+ "/" +:+ repo) = [owner; repo]).
Proof.
  intros Hdo Hdr Ho Hr. split; [|split].
  - apply getOwnerAndRepo_ssh; assumption.
  - apply getOwnerAndRepo_https; assumption.
  - intros Hs. apply getOwnerAndRepo_short; assumption.
Qed.

Lemma getOwnerAndRepo_three_forms_witness :
  getOwnerAndRepo "git@github.com:AlexKVal/release-script.git"
    = ["AlexKVal"; "release-script"]
  /\ getOwnerAndRepo "git+https://github.com/AlexKVal/release-script.git"
    = ["AlexKVal"; "release-script"]
  /\ getOwnerAndRepo "AlexKVal/release-script" = ["AlexKVal"; "release-script"].
Proof.
  destruct (getOwnerAndRepo_three_forms "AlexKVal" "release-script"
              eq_refl eq_refl eq_refl eq_refl) as (Hssh & Hhttps & Hshort).
  split; [exact Hssh | split; [exact Hhttps | exact (Hshort eq_refl)]].
Defined.

End AddressProperties.

Section GateProperties.
Import Str Manifest Shell V1 Contracts Logic LogicFacts Traces TraceFacts.

(** X2: [runAndGitRevertOnError] returns when its command exits with 0,
    and otherwise always ends the process with exit code 1, whatever the
    two commands of the revert do: the checkout is attempted only when the
    reset succeeded, and the line that reports the revert is printed only
    when both succeeded. *)
Theorem failed_gate_always_exits {W : Type} `{Host W} (cmd : string) (s : State W) :
  let c0 := sh_exec cmd (world s) in
  let c1 := sh_exec "git reset HEAD ." c0.2 in
  let c2 := sh_exec "git checkout package.json" c1.2 in
  let r := runAndGitRevertOnError cmd s in
  outcome r = (if (c0.1.1 =? 0)%Z then Ret tt else Stop (Exit 1))
  /\ executed (events r) =
       (if (c0.1.1 =? 0)%Z then [cmd]
        else if (c1.1.1 =? 0)%Z
             then [cmd; "git reset HEAD ."; "git checkout package.json"]
             else [cmd; "git reset HEAD ."])
  /\ (EvLog "Version bump reverted" ∈ events r <->
      (c0.1.1 =? 0)%Z = false /\ (c1.1.1 =? 0)%Z = true /\ (c2.1.1 =? 0)%Z = true).
Proof.
  cbv zeta. rewrite runAndGitRevertOnError_cases. cbv zeta.
  destruct ((sh_exec cmd (world s)).1.1 =? 0)%Z.
  { split; [reflexivity|]. split; [reflexivity|]. simpl.
    rewrite elem_of_cons, elem_of_nil. split.
    - intros [E|E]; [discriminate E | contradiction].
    - intros (E & _). discriminate E. }
  destruct ((sh_exec "git reset HEAD ." (sh_exec cmd (world s)).2).1.1 =? 0)%Z.
  2:{ split; [reflexivity|]. split; [reflexivity|]. simpl.
      rewrite !elem_of_cons, elem_of_nil. split.
      - intros [E|[E|[E|[E|E]]]]; try discriminate E; contradiction.
      - intros (_ & E & _). discriminate E. }
  destruct ((sh_exec "git checkout package.json"
               (sh_exec "git reset HEAD ." (sh_exec cmd (world s)).2).2).1.1 =? 0)%Z.
  - split; [reflexivity|]. split; [reflexivity|]. simpl.
    rewrite !elem_of_cons, elem_of_nil. split.
    + intros _. repeat split.
    + intros _. right. right. right. right. left. reflexivity.
  - split; [reflexivity|]. split; [reflexivity|]. simpl.
    rewrite !elem_of_cons, elem_of_nil. split.
    + intros [E|[E|[E|[E|[E|E]]]]]; try discriminate E; contradiction.
    + intros (_ & _ & E). discriminate E.
Qed.

End GateProperties.

Section ReleaseProperties.
Import Str Manifest Shell V1 Contracts Logic LogicFacts StartupFacts.
Import Traces TraceFacts RunFacts ReleaseFacts ProcessFacts.

(** X3: until [npm run test] has exited with 0 the process does nothing
    but print, ask the version-control tool, write and stage the manifest,
    run the tests and revert: a commit, a tag, a push, a publication, a
    clone of a mirror or a request to the host is in the events of a run
    only when the tests have passed in it. *)
Theorem nothing_goes_out_before_the_tests_pass {W : Type} `{Host W}
    (token : option string) (argv : Argv) (w : W) :
  EvExec "npm run test" 0 ∈ events (process token argv w)
  \/ Forall (fun e => early e = true) (events (process token argv w)).
Proof.
  destruct (process_events token argv w) as (cb & Hev & Hcb).
  destruct (outcome (script token argv (init_state w))) as [[]|h] eqn:E.
  - left. rewrite Hev. apply elem_of_app. left.
    revert E. generalize (init_state w) tt. change (seen (EvExec "npm run test" 0) (script token argv)).
    unfold script. apply seen_bind_r. intros [cfg opts]. apply seen_release.
  - destruct (process_stop token argv w h E) as [_ ->].
    assert (Hu : until (fun e => early e = true) (EvExec "npm run test" 0)
                   (script token argv)).
    { unfold script. apply until_bind; [apply until_emits, early_startup|].
      intros [cfg opts]. apply until_release. }
    apply Hu.
Qed.

(** X4: on a working tree with pending changes, or on a branch that is
    behind its upstream, the process ends with exit status 1 and has done
    nothing but print and ask the version-control tool: the manifest is not
    written, nothing is staged and no test is run. *)
Theorem unclean_tree_stops_before_any_change {W : Type} `{Host W}
    (token : option string) (argv : Argv) (w : W) :
  nonempty (sh_exec "git diff-index --name-only HEAD --" w).1.2 = true
  \/ behind (sh_exec "git status -sb"
               (sh_exec "git fetch"
                  (sh_exec "git diff-index --name-only HEAD --" w).2).2).1.2 <> None ->
  exit_status (outcome (process token argv w)) = 1%Z
  /\ Forall (fun e => readonly e = true) (events (process token argv w)).
Proof.
  intros Hw.
  assert (Hn : never (fun s => world s = w) (fun e => readonly e = true)
                 (script token argv)).
  { unfold script.
    eapply triple_bind with (Q := fun _ s => world s = w); [apply stable_Forall | |].
    - apply triple_split.
      + apply hoare_keeps_world, startup_keeps_world.
      + eapply emits_impl; [|apply startup_console].
        intros [] He; try discriminate He; reflexivity.
      + auto.
    - intros [cfg opts]. unfold release.
      eapply triple_bind; [apply stable_Forall | apply never_preflight, Hw |].
      intros ?. apply triple_False. }
  specialize (Hn (init_state w) eq_refl).
  pose proof (stops_script token argv (init_state w)) as Hone.
  destruct (outcome (script token argv (init_state w))) as [a|h] eqn:E;
    [destruct Hn as [[] _]|].
  destruct (process_stop token argv w h E) as [-> ->].
  split; [apply (Hone h eq_refl) | exact Hn].
Qed.

Lemma unclean_tree_stops_before_any_change_witness :
  exit_status (outcome (process (H:=Toy.host Toy.fine) None
                          (Toy.argv_of (Some "patch") None false true) Toy.dirty)) = 1%Z
  /\ Forall (fun e => readonly e = true)
            (events (process (H:=Toy.host Toy.fine) None
                       (Toy.argv_of (Some "patch") None false true) Toy.dirty)).
Proof.
  apply (unclean_tree_stops_before_any_change (H:=Toy.host Toy.fine)).
  left. vm_compute. reflexivity.
Defined.

(** X5: the version bump writes the manifest before it looks at the new
    version.  When the current version is one the constructor of the library
    does not take (trimmed, it is not a version, or it is longer than 256
    characters, or one of its numbers is above the largest the library
    accepts) and the bump kind is major, minor or patch, the library gives no
    version: the manifest is written with that, and the run ends there with
    an exception, without a revert. *)
Theorem unusable_version_is_written_before_the_crash {W : Type} `{Host W}
    (cfg : Config) (opts : VersionBumpOptions) (s : State W) (o t : string) :
  version (npmjson s) = Some o -> Semver.construct o = None ->
  type opts = Some t -> bump_kind t <> None ->
  versionBump cfg opts s =
    mkResult (Stop Crash)
      (set_world
         (sh_to (packagePath cfg)
                (json_stringify (set_version None (npmjson s)) +:+ nl) (world s))
         (set_npmjson (set_version None (npmjson s)) s))
      [EvTo (packagePath cfg) (json_stringify (set_version None (npmjson s)) +:+ nl)].
Proof.
  intros Hv Hp Ht Hk.
  assert (Hn : newVersion (version (npmjson s)) (type opts) (preid opts) = None).
  { unfold newVersion. rewrite Hv, Ht.
    destruct (bump_kind t) as [k|]; [|contradiction].
    unfold semver_inc, Semver.inc. rewrite Hp.
    destruct (truthy (preid opts)); reflexivity. }
  unfold versionBump. run_bind. rewrite Hn. run_bind. run_bind.
  cbn [npmjson set_npmjson]. unfold to. run_bind. rewrite Hv. reflexivity.
Qed.

Lemma unusable_version_is_written_before_the_crash_witness :
  versionBump (H:=Toy.host Toy.fine)
      (Toy.config (Toy.argv_of (Some "patch") None false true) false)
      (versionBumpOptions (Toy.argv_of (Some "patch") None false true))
      (mkState Toy.start (Toy.the_manifest "1.2") None true) =
    mkResult (Stop Crash)
      (set_world
         (sh_to (Host:=Toy.host Toy.fine) "/repo/package.json"
                ("undefined" +:+ nl) Toy.start)
         (set_npmjson (set_version None (Toy.the_manifest "1.2"))
                      (mkState Toy.start (Toy.the_manifest "1.2") None true)))
      [EvTo "/repo/package.json" ("undefined" +:+ nl)].
Proof.
  apply (unusable_version_is_written_before_the_crash (H:=Toy.host Toy.fine)
           (Toy.config (Toy.argv_of (Some "patch") None false true) false)
           (versionBumpOptions (Toy.argv_of (Some "patch") None false true))
           (mkState Toy.start (Toy.the_manifest "1.2") None true) "1.2" "patch").
  - reflexivity.
  - reflexivity.
  - reflexivity.
  - discriminate.
Defined.

(** X6: a private package is never distributed: the release of a package
    whose manifest says [private] runs and plans no [npm publish], and no
    step of the mirror protocol, neither for the bower repository nor for
    the documents site. *)
Theorem private_package_is_never_distributed {W : Type} `{Host W}
    (cfg : Config) (opts : VersionBumpOptions) (s : State W) :
  isPrivate cfg = true ->
  Forall (fun e => mirror_event e = false /\ npm_publish e = false)
         (events (release cfg opts s)).
Proof. intros Hp. apply (private_release cfg opts Hp). Qed.

Lemma private_package_is_never_distributed_witness :
  Forall (fun e => mirror_event e = false /\ npm_publish e = false)
         (events (release (H:=Toy.host Toy.fine)
                    (Toy.configure true None (Toy.argv_of (Some "patch") None false true)
                                   false)
                    (versionBumpOptions (Toy.argv_of (Some "patch") None false true))
                    Toy.ready)).
Proof.
  apply (private_package_is_never_distributed (H:=Toy.host Toy.fine)). reflexivity.
Defined.



(** X8: the command that publishes to npm is decided by the command line
    alone.  Every command of a run that starts with [npm publish] is
    [npm publish] when no pre-release identifier is given, and otherwise
    [npm publish --tag] with the value of [--tag], or with the identifier
    when there is no [--tag]: the tag is never missing. *)
Theorem npm_tag_is_the_tag_or_the_preid {W : Type} `{Host W}
    (token : option string) (argv : Argv) (w : W) :
  Forall (fun e => forall c code, e = EvExec c code ->
                     starts_with "npm publish" c = true ->
                     c = npm_publish_command argv)
         (events (process token argv w)).
Proof.
  assert (Hq : Forall (fun e => forall c code, e = EvExec c code ->
                                 starts_with "npm publish" c = true ->
                                 c = npm_publish_command argv)
                 (events (script token argv (init_state w)))).
  { assert (Hs : emits (W:=W)
                     (fun e => forall c code, e = EvExec c code ->
                                 starts_with "npm publish" c = true ->
                                 c = npm_publish_command argv)
                     (startup token argv)).
    { eapply emits_impl; [|apply startup_console].
      intros [] He; try discriminate He; intros ? ? E; discriminate E. }
    apply (emits_bind_returns _ _ _ _ Hs (startup_returns token argv)).
    intros [cfg opts] (Ha & Ho & _). simpl in Ha, Ho. subst opts. rewrite <- Ha.
    apply npm_release. }
  destruct (process_events token argv w) as (cb & -> & Hcb).
  apply Forall_app. split; [exact Hq|].
  eapply Forall_impl; [exact Hcb|].
  intros e [line ->] c code E. discriminate E.
Qed.

(** X9: when the process runs to its end, nothing failed on the way: no
    error line was printed, and every command it executed exited with 0,
    apart from the three queries at the head of the release, whose exit
    codes the script does not read. *)
Theorem a_completed_release_had_no_failure {W : Type} `{Host W}
    (token : option string) (argv : Argv) (w : W) :
  outcome (process token argv w) = Ret tt ->
  Forall (fun e => clean e = true) (events (process token argv w)).
Proof.
  intros Hp. pose proof (process_ret token argv w Hp) as E.
  destruct (process_events token argv w) as (cb & -> & Hcb).
  apply Forall_app. split.
  - revert E. generalize (init_state w) tt.
    change (completes (fun e => clean e = true) (script token argv)).
    unfold script. apply completes_bind; [apply clean_startup|].
    intros [cfg opts]. apply clean_release.
  - eapply Forall_impl; [exact Hcb|].
    intros e [line ->]. reflexivity.
Qed.

Lemma a_completed_release_had_no_failure_witness :
  Forall (fun e => clean e = true)
         (events (process (H:=Toy.host Toy.fine) None
                    (Toy.argv_of (Some "patch") None false true) Toy.start)).
Proof.
  apply (a_completed_release_had_no_failure (H:=Toy.host Toy.fine)).
  vm_compute. reflexivity.
Defined.

(** X10: a live release with a token for the host, of a package whose
    manifest has no [repository], does not run to its end: it stops at the
    latest where the address of the repository is read, after the commit,
    the tag and the push, and it neither sends the request nor publishes to
    npm. *)
Theorem live_release_without_repository_stops_before_npm {W : Type} `{Host W}
    (cfg : Config) (opts : VersionBumpOptions) (s : State W) :
  dryRunMode cfg = false -> is_truthy (githubToken cfg) = true ->
  a_onlyDocs (argv cfg) = false ->
  repository (npmjson s) = RepoMissing ->
  (exists h, outcome (release cfg opts s) = Stop h)
  /\ Forall (fun e => npm_publish e = false /\ forall r, e <> EvRequest r)
            (events (release cfg opts s)).
Proof.
  intros Hlive Htok Ho Hs.
  pose proof (never_release_without_repository cfg opts Hlive Htok Ho s Hs) as Hn.
  destruct (outcome (release cfg opts s)) as [a|h]; [destruct Hn as [[] _]|].
  split; [eauto | exact Hn].
Qed.

Lemma live_release_without_repository_stops_before_npm_witness :
  (exists h,
     outcome (release (H:=Toy.host Toy.fine)
                (Toy.configure false (Some "token")
                   (Toy.argv_of (Some "patch") None false true) false)
                (versionBumpOptions (Toy.argv_of (Some "patch") None false true))
                (mkState Toy.start (Toy.unlisted "1.2.3") None true)) = Stop h)
  /\ Forall (fun e => npm_publish e = false /\ forall r, e <> EvRequest r)
            (events (release (H:=Toy.host Toy.fine)
                       (Toy.configure false (Some "token")
                          (Toy.argv_of (Some "patch") None false true) false)
                       (versionBumpOptions (Toy.argv_of (Some "patch") None false true))
                       (mkState Toy.start (Toy.unlisted "1.2.3") None true))).
Proof.
  apply (live_release_without_repository_stops_before_npm (H:=Toy.host Toy.fine));
    reflexivity.
Defined.

End ReleaseProperties.

Section SkipVariantProperties.
Import Str Manifest Shell Contracts Logic LogicFacts.
Import Traces TraceFacts RunFacts ReleaseFacts V3Facts.

(** X11: a manifest without [scripts].  The current variant reads
    [npmjson.scripts.build] when the tests have passed: on a manifest
    without [scripts] its test and build step never returns, it ends with the
    revert of a failed test run or with an exception.  The variant with
    [--skip-version-bumping] asks for [npmjson.scripts] first, and its test
    and build step returns at once, with no test and no build. *)
Theorem manifest_without_scripts_in_two_variants {W : Type} `{Host W}
    (cfg : V1.Config) (cfg3 : V3.Config) (s : State W) :
  scripts (npmjson s) = None ->
  a_onlyDocs (V1.argv cfg) && V1.docsBuild cfg = false ->
  (exists h, outcome (V1.testAndBuild cfg s) = Stop h)
  /\ V3R.testAndBuild cfg3 s = mkResult (Ret tt) s [].
Proof.
  intros Hs Hd. split; [|apply testAndBuild_without_scripts, Hs].
  pose proof (never_testAndBuild_without_scripts cfg Hd s Hs) as Hn.
  destruct (outcome (V1.testAndBuild cfg s)) as [a|h]; [destruct Hn as [[] _] | eauto].
Qed.

Lemma manifest_without_scripts_in_two_variants_witness :
  (exists h,
     outcome (V1.testAndBuild (H:=Toy.host Toy.fine)
                (Toy.config (Toy.argv_of (Some "patch") None false true) false)
                (mkState Toy.start (Toy.bare "1.2.3") None true)) = Stop h)
  /\ V3R.testAndBuild (H:=Toy.host Toy.fine)
       (Toy.config3 None (Toy.argv_of (Some "patch") None false true) false)
       (mkState Toy.start (Toy.bare "1.2.3") None true)
     = mkResult (Ret tt) (mkState Toy.start (Toy.bare "1.2.3") None true) [].
Proof.
  apply (manifest_without_scripts_in_two_variants (H:=Toy.host Toy.fine)); reflexivity.
Defined.



(** X13: in a dry run [safeRun] returns nothing, and the registration of
    the bower package calls [indexOf] on what it returns.  With a
    [bower.json] that is not private and with bower installed, the
    registration block of a dry run prints its plan and ends with an
    exception; so a dry run of a release that is not docs-only never runs to
    its end. *)
Theorem dry_run_crashes_at_the_bower_registration {W : Type} `{Host W}
    (gh_clone_url : V3R.RepoValue -> option string)
    (cfg : V3.Config) (opts : VersionBumpOptions) (bower : Npm) (s : State W) :
  V3.dryRunMode cfg = true -> a_onlyDocs (V3.argv cfg) = false ->
  V3.bowerjson cfg = Some bower -> private bower = false ->
  (forall w : W, sh_which "bower" w = true) ->
  (forall repo, is_Some (gh_clone_url repo)) ->
  (forall repo u s',
     gh_clone_url repo = Some u ->
     V3R.registerBower gh_clone_url cfg repo s' =
       mkResult (Stop Crash) s'
         [EvLog "Registering: bower package";
          EvLog (V1.dry_line ("bower register " +:+ js_str (name bower) +:+ " " +:+ u))])
  /\ exists h, outcome (V3R.release gh_clone_url cfg opts s) = Stop h.
Proof.
  intros Hd Ho Hb Hp Hw Hgh. split.
  - intros repo u s' Hu. apply registerBower_dry; auto.
  - pose proof (dry_release_stops gh_clone_url cfg opts bower Hd Ho Hb Hp Hw Hgh s) as Hr.
    destruct (outcome (V3R.release gh_clone_url cfg opts s)) as [a|h]; [|eauto].
    destruct (Hr a eq_refl).
Qed.

Lemma dry_run_crashes_at_the_bower_registration_witness :
  (forall repo u s',
     Toy.clone_url repo = Some u ->
     V3R.registerBower (H:=Toy.host Toy.fine) Toy.clone_url
         (Toy.config3 (Some (Toy.bare "1.2.3"))
            (mkArgv (Some "patch") None None false false true false None false false) true)
         repo s' =
       mkResult (Stop Crash) s'
         [EvLog "Registering: bower package";
          EvLog (V1.dry_line ("bower register " +:+ js_str (name (Toy.bare "1.2.3")) +:+
                              " " +:+ u))])
  /\ exists h,
       outcome (V3R.release (H:=Toy.host Toy.fine) Toy.clone_url
                  (Toy.config3 (Some (Toy.bare "1.2.3"))
                     (mkArgv (Some "patch") None None false false true false None false false)
                     true)
                  (V1.versionBumpOptions
                     (mkArgv (Some "patch") None None false false true false None false false))
                  Toy.ready) = Stop h.
Proof.
  apply (dry_run_crashes_at_the_bower_registration (H:=Toy.host Toy.fine) Toy.clone_url
           (Toy.config3 (Some (Toy.bare "1.2.3"))
              (mkArgv (Some "patch") None None false false true false None false false) true)
           (V1.versionBumpOptions
              (mkArgv (Some "patch") None None false false true false None false false))
           (Toy.bare "1.2.3") Toy.ready).
  - reflexivity.
  - reflexivity.
  - reflexivity.
  - reflexivity.
  - intros w. reflexivity.
  - intros repo. eexists. reflexivity.
Defined.

(** X14: in a live run the registration of the bower package never ends
    the release: [bower register] is run with [skipError], so whatever its
    exit code and its output the block returns, and it makes no call of
    [console.error]; a registration that failed is reported with
    [console.log]. *)
Theorem live_bower_registration_never_aborts {W : Type} `{Host W}
    (gh_clone_url : V3R.RepoValue -> option string)
    (cfg : V3.Config) (repo : V3R.RepoValue) (s : State W) :
  V3.dryRunMode cfg = false -> is_Some (gh_clone_url repo) ->
  outcome (V3R.registerBower gh_clone_url cfg repo s) = Ret tt
  /\ Forall (fun e => is_error e = false)
            (events (V3R.registerBower gh_clone_url cfg repo s)).
Proof. intros Hd Hu. apply registerBower_live; assumption. Qed.

Lemma live_bower_registration_never_aborts_witness :
  outcome (V3R.registerBower (H:=Toy.host (Toy.mkParams
                                             ["bower register toy https://github.com/owner/toy.git"]
                                             true Toy.unauthorized))
             Toy.clone_url
             (Toy.config3 (Some (Toy.bare "1.2.3"))
                (mkArgv (Some "patch") None None false false false false None false false)
                false)
             (V3R.RString "owner/toy") Toy.ready) = Ret tt
  /\ Forall (fun e => is_error e = false)
            (events (V3R.registerBower
                       (H:=Toy.host (Toy.mkParams
                                       ["bower register toy https://github.com/owner/toy.git"]
                                       true Toy.unauthorized))
                       Toy.clone_url
                       (Toy.config3 (Some (Toy.bare "1.2.3"))
                          (mkArgv (Some "patch") None None false false false false None
                                  false false)
                          false)
                       (V3R.RString "owner/toy") Toy.ready)).
Proof.
  apply (live_bower_registration_never_aborts
           (H:=Toy.host (Toy.mkParams
                           ["bower register toy https://github.com/owner/toy.git"]
                           true Toy.unauthorized))).
  - reflexivity.
  - eexists. reflexivity.
Defined.

(** X15: in the variant with [--skip-version-bumping] the address of the
    repository is read before the publications, with or without a token and
    in a dry run too: a release that is not docs-only, of a package whose
    manifest has no [repository], does not run to its end, and neither runs
    nor plans [npm publish]. *)
Theorem release3_without_repository_stops_before_npm {W : Type} `{Host W}
    (gh_clone_url : V3R.RepoValue -> option string)
    (cfg : V3.Config) (opts : VersionBumpOptions) (s : State W) :
  a_onlyDocs (V3.argv cfg) = false ->
  repository (npmjson s) = RepoMissing ->
  (exists h, outcome (V3R.release gh_clone_url cfg opts s) = Stop h)
  /\ Forall (fun e => npm_publish e = false /\ forall r, e <> EvRequest r)
            (events (V3R.release gh_clone_url cfg opts s)).
Proof.
  intros Ho Hs.
  pose proof (never_release3_without_repository gh_clone_url cfg opts Ho s Hs) as Hn.
  destruct (outcome (V3R.release gh_clone_url cfg opts s)) as [a|h];
    [destruct Hn as [[] _]|].
  split; [eauto | exact Hn].
Qed.

Lemma release3_without_repository_stops_before_npm_witness :
  (exists h,
     outcome (V3R.release (H:=Toy.host Toy.fine) Toy.clone_url
                (Toy.config3 None (Toy.argv_of (Some "patch") None false false) true)
                (V1.versionBumpOptions (Toy.argv_of (Some "patch") None false false))
                (mkState Toy.start (Toy.unlisted "1.2.3") None true)) = Stop h)
  /\ Forall (fun e => npm_publish e = false /\ forall r, e <> EvRequest r)
            (events (V3R.release (H:=Toy.host Toy.fine) Toy.clone_url
                       (Toy.config3 None (Toy.argv_of (Some "patch") None false false) true)
                       (V1.versionBumpOptions (Toy.argv_of (Some "patch") None false false))
                       (mkState Toy.start (Toy.unlisted "1.2.3") None true))).
Proof.
  apply (release3_without_repository_stops_before_npm (H:=Toy.host Toy.fine));
    reflexivity.
Defined.

(** X16: with [--skip-tests] the release never runs [npm run test],
    whatever the manifest configures. *)
Theorem skip_tests_runs_no_test {W : Type} `{Host W}
    (gh_clone_url : V3R.RepoValue -> option string)
    (cfg : V3.Config) (opts : VersionBumpOptions) (s : State W) :
  a_skipTests (V3.argv cfg) = true ->
  Forall (fun e => runs_tests e = false) (events (V3R.release gh_clone_url cfg opts s)).
Proof. intros Hs. apply (untested_release gh_clone_url cfg opts Hs). Qed.

Lemma skip_tests_runs_no_test_witness :
  Forall (fun e => runs_tests e = false)
         (events (V3R.release (H:=Toy.host Toy.fine) Toy.clone_url
                    (Toy.config3 None
                       (mkArgv (Some "patch") None None false false false false None true false)
                       false)
                    (V1.versionBumpOptions
                       (mkArgv (Some "patch") None None false false false false None true false))
                    Toy.ready)).
Proof.
  apply (skip_tests_runs_no_test (H:=Toy.host Toy.fine)). reflexivity.
Defined.

End SkipVariantProperties.

Section FirstVariantProperties.
Import Str Manifest Shell Contracts Logic LogicFacts.
Import Traces TraceFacts RunFacts ReleaseFacts V2Facts.

(** X17: the first variant reads a key of [devDependencies] also when
    the manifest has none: on a manifest that parses and has no
    [devDependencies] its start ends with an exception, before any check and
    before any line is printed.  The current variant, which brackets the
    test, does not end with an exception on such a manifest. *)
Theorem first_variant_needs_devDependencies {W : Type} `{Host W}
    (token : option string) (argv : Argv) (npm : Npm) (s : State W) :
  json_parse (sh_cat (path_join (sh_pwd (world s)) "package.json") (world s)) = Some npm ->
  devDependencies npm = None ->
  V2.startup argv s = mkResult (Stop Crash) (set_npmjson npm s) []
  /\ outcome (V1.startup token argv s) <> Stop Crash.
Proof.
  intros Hp Hd. split.
  - apply startup2_without_devDependencies; assumption.
  - apply (startup_parsed_no_crash token argv npm s Hp).
Qed.

Lemma first_variant_needs_devDependencies_witness :
  V2.startup (H:=Toy.host Toy.fine) (Toy.argv_of (Some "patch") None false false)
             (V1.init_state Toy.start)
    = mkResult (Stop Crash)
               (set_npmjson (Toy.the_manifest "1.2.3") (V1.init_state Toy.start)) []
  /\ outcome (V1.startup (H:=Toy.host Toy.fine) None
                (Toy.argv_of (Some "patch") None false false) (V1.init_state Toy.start))
     <> Stop Crash.
Proof.
  apply (first_variant_needs_devDependencies (H:=Toy.host Toy.fine) None
           (Toy.argv_of (Some "patch") None false false) (Toy.the_manifest "1.2.3")
           (V1.init_state Toy.start)); reflexivity.
Defined.

(** X18: the first variant runs the tests before it bumps the version:
    until [npm run test] has exited with 0 the script does nothing but
    print, ask the version-control tool and run the tests.  The manifest is
    not written in a run whose tests fail, and nothing is to be reverted. *)
Theorem first_variant_tests_before_it_writes {W : Type} `{Host W}
    (argv : Argv) (w : W) :
  EvExec "npm run test" 0 ∈ events (V2.script argv (V1.init_state w))
  \/ Forall (fun e => early_v2 e = true) (events (V2.script argv (V1.init_state w))).
Proof. apply until_script2. Qed.

(** X19: the build step of the first variant returns when
    [npm run build] exits with 0, and otherwise always ends the process with
    exit code 1, after the reset and, when the reset succeeded, the checkout
    of the manifest. *)
Theorem first_variant_failed_build_always_exits {W : Type} `{Host W} (s : State W) :
  let c0 := sh_exec "npm run build" (world s) in
  let c1 := sh_exec "git reset HEAD ." c0.2 in
  outcome (V2.build s) = (if (c0.1.1 =? 0)%Z then Ret tt else Stop (Exit 1))
  /\ executed (events (V2.build s)) =
       (if (c0.1.1 =? 0)%Z then ["npm run build"]
        else if (c1.1.1 =? 0)%Z
             then ["npm run build"; "git reset HEAD ."; "git checkout package.json"]
             else ["npm run build"; "git reset HEAD ."]).
Proof.
  cbv zeta. rewrite build_cases. cbv zeta.
  destruct ((sh_exec "npm run build" (world s)).1.1 =? 0)%Z; [split; reflexivity|].
  destruct ((sh_exec "git reset HEAD ." (sh_exec "npm run build" (world s)).2).1.1 =? 0)%Z;
    [|split; reflexivity].
  destruct ((sh_exec "git checkout package.json"
               (sh_exec "git reset HEAD ."
                  (sh_exec "npm run build" (world s)).2).2).1.1 =? 0)%Z;
    split; reflexivity.
Qed.



End FirstVariantProperties.

Section PublicationProperties.
Import Str StrFacts Manifest Shell V1 Contracts Logic LogicFacts.
Import Traces ReleaseFacts UrlFacts.

(** X21: the release on the host goes to the repository the manifest
    names.  In a live run with a token, when [repository] (or its [url])
    is the ssh or the git+https address of [owner/repo], the release makes
    one request: a POST to [repos/owner/repo/releases] of the host, for the
    tag of the version, named after the repository and the version, with the
    release notes as its body, marked as a pre-release exactly when a
    pre-release identifier is given, and authorized by the token. *)
Theorem github_release_goes_to_the_repository_of_the_manifest {W : Type}
    (cfg : Config) (preid : option string) (v : string) (s : State W)
    (token owner repo url : string) :
  dryRunMode cfg = false -> truthy (githubToken cfg) = Some token ->
  all_chars is_dot owner = true -> all_chars is_dot repo = true ->
  lacks "/" owner = true -> lacks "/" repo = true ->
  url = "git@github.com:" +:+ (owner +:+ "/" +:+ repo) +:+ ".git"
  \/ url = "git+https://github.com/" +:+ (owner +:+ "/" +:+ repo) +:+ ".git" ->
  repository (npmjson s) = RepoString url
  \/ repository (npmjson s) = RepoObject (Some url) ->
  outcome (publishToGitHub cfg preid v s) = Ret tt
  /\ requests (events (publishToGitHub cfg preid v s)) =
     [mkRequest
        ("https://api.github.com/repos/" +:+ owner +:+ "/" +:+ repo +:+ "/releases")
        v (repo +:+ " " +:+ v) (notesForRelease s) false (is_truthy preid)
        ("token " +:+ token)
        "release-script (https://github.com/alexkval/release-script)"].
Proof.
  intros Hd Ht Hdo Hdr Ho Hr Hu Hrepo.
  assert (Hp : getOwnerAndRepo url = [owner; repo]).
  { destruct Hu as [-> | ->];
      [apply getOwnerAndRepo_ssh | apply getOwnerAndRepo_https]; assumption. }
  assert (Hn : nonempty url = true) by (destruct Hu as [-> | ->]; reflexivity).
  rewrite (publishToGitHub_live cfg preid v s token url Hd Ht)
    by (destruct Hrepo as [Hs | Hs]; [left; exact Hs | right; split; [exact Hs | exact Hn]]).
  rewrite Hp. split; reflexivity.
Qed.

Lemma github_release_goes_to_the_repository_of_the_manifest_witness :
  outcome (publishToGitHub (W:=Toy.World)
             (Toy.configure false (Some "t0k3n") (Toy.argv_of (Some "patch") None false true)
                false)
             None "v1.2.4"
             (mkState Toy.start
                (mkNpm (Some "release-script") (Some "1.2.4") false None None None
                   (RepoObject (Some "git@github.com:AlexKVal/release-script.git"))
                   None false)
                (Some "v1.2.4") true)) = Ret tt
  /\ requests (events (publishToGitHub (W:=Toy.World)
             (Toy.configure false (Some "t0k3n") (Toy.argv_of (Some "patch") None false true)
                false)
             None "v1.2.4"
             (mkState Toy.start
                (mkNpm (Some "release-script") (Some "1.2.4") false None None None
                   (RepoObject (Some "git@github.com:AlexKVal/release-script.git"))
                   None false)
                (Some "v1.2.4") true))) =
     [mkRequest "https://api.github.com/repos/AlexKVal/release-script/releases"
        "v1.2.4" "release-script v1.2.4" (Some "v1.2.4") false false "token t0k3n"
        "release-script (https://github.com/alexkval/release-script)"].
Proof.
  exact (github_release_goes_to_the_repository_of_the_manifest (W:=Toy.World)
           (Toy.configure false (Some "t0k3n") (Toy.argv_of (Some "patch") None false true)
                false)
           None "v1.2.4"
           (mkState Toy.start
                (mkNpm (Some "release-script") (Some "1.2.4") false None None None
                   (RepoObject (Some "git@github.com:AlexKVal/release-script.git"))
                   None false)
                (Some "v1.2.4") true)
           "t0k3n" "AlexKVal" "release-script"
           "git@github.com:AlexKVal/release-script.git"
           eq_refl eq_refl eq_refl eq_refl eq_refl eq_refl
           (or_introl eq_refl) (or_intror eq_refl)).
Defined.

(** X22: an address without a slash has no repository name.  In a live run
    with a token, when [repository] (or its [url]) has no slash and does not
    end in [.git], the request goes to [repos/<address>/undefined/releases]
    and the release is named [undefined] and the version. *)
Theorem address_without_slash_names_no_repository {W : Type}
    (cfg : Config) (preid : option string) (v : string) (s : State W)
    (token url : string) :
  dryRunMode cfg = false -> truthy (githubToken cfg) = Some token ->
  lacks "/" url = true -> strip_suffix ".git" url = None -> nonempty url = true ->
  repository (npmjson s) = RepoString url
  \/ repository (npmjson s) = RepoObject (Some url) ->
  requests (events (publishToGitHub cfg preid v s)) =
     [mkRequest
        ("https://api.github.com/repos/" +:+ url +:+ "/undefined/releases")
        v ("undefined " +:+ v) (notesForRelease s) false (is_truthy preid)
        ("token " +:+ token)
        "release-script (https://github.com/alexkval/release-script)"].
Proof.
  intros Hd Ht Hl Hs Hn Hrepo.
  rewrite (publishToGitHub_live cfg preid v s token url Hd Ht)
    by (destruct Hrepo as [Hx | Hx]; [left; exact Hx | right; split; [exact Hx | exact Hn]]).
  rewrite (getOwnerAndRepo_single url Hl Hs). reflexivity.
Qed.

Lemma address_without_slash_names_no_repository_witness :
  requests (events (publishToGitHub (W:=Toy.World)
             (Toy.configure false (Some "t0k3n") (Toy.argv_of (Some "patch") None false true)
                false)
             None "v1.2.4"
             (mkState Toy.start
                (mkNpm (Some "toy") (Some "1.2.4") false None None None
                   (RepoString "toy") None false)
                None true))) =
     [mkRequest "https://api.github.com/repos/toy/undefined/releases"
        "v1.2.4" "undefined v1.2.4" None false false "token t0k3n"
        "release-script (https://github.com/alexkval/release-script)"].
Proof.
  exact (address_without_slash_names_no_repository (W:=Toy.World)
           (Toy.configure false (Some "t0k3n") (Toy.argv_of (Some "patch") None false true)
                false)
           None "v1.2.4"
           (mkState Toy.start
                (mkNpm (Some "toy") (Some "1.2.4") false None None None
                   (RepoString "toy") None false)
                None true)
           "t0k3n" "toy" eq_refl eq_refl eq_refl eq_refl eq_refl (or_introl eq_refl)).
Defined.

(** X23: a branch that is behind its upstream is reported with the count
    git prints.  When the arguments are usable, the working tree is clean
    and [git status -sb] prints a line with the word [behind], a count and
    a closing bracket (the first [behind] of the output, and the last
    bracket of its line), the checks end the run with exit status 1, and
    the last line printed is [Your repo is behind by <count> commits]. *)
Theorem stale_branch_is_reported_with_its_count {W : Type} `{Host W}
    (opts : VersionBumpOptions) (s : State W) (pre n rest : string) :
  type opts <> None \/ is_truthy (preid opts) = true ->
  (sh_exec "git diff-index --name-only HEAD --" (world s)).1.2 = EmptyString ->
  (sh_exec "git status -sb"
     (sh_exec "git fetch"
        (sh_exec "git diff-index --name-only HEAD --" (world s)).2).2).1.2
    = pre +:+ "behind " +:+ n +:+ "]" +:+ rest ->
  V3R.includes "behind " pre = false ->
  all_chars is_dot n = true -> lacks "]" (line_head rest) = true ->
  outcome (preflight opts s) = Stop (Exit 1)
  /\ last (events (preflight opts s))
     = Some (EvError ("Your repo is behind by " +:+ n +:+ " commits")).
Proof.
  intros Ha Hc Hst Hp Hn Hr.
  destruct (preflight_behind opts s n Ha Hc) as [Ho He].
  { rewrite Hst. apply behind_reads; assumption. }
  split; [exact Ho | rewrite He; reflexivity].
Qed.

Lemma stale_branch_is_reported_with_its_count_witness :
  outcome (preflight (H:=Toy.host_saying "## master...origin/master [ahead 1, behind 2]" Toy.fine)
             (mkVersionBumpOptions (Some "patch") None None) (init_state Toy.start))
    = Stop (Exit 1)
  /\ last (events (preflight
                     (H:=Toy.host_saying "## master...origin/master [ahead 1, behind 2]" Toy.fine)
                     (mkVersionBumpOptions (Some "patch") None None) (init_state Toy.start)))
     = Some (EvError "Your repo is behind by 2 commits").
Proof.
  refine (stale_branch_is_reported_with_its_count
            (H:=Toy.host_saying "## master...origin/master [ahead 1, behind 2]" Toy.fine)
            (mkVersionBumpOptions (Some "patch") None None) (init_state Toy.start)
            "## master...origin/master [ahead 1, " "2" EmptyString
            _ eq_refl eq_refl eq_refl eq_refl eq_refl).
  left. discriminate.
Defined.

(** X24: without a changelog tool, the notes of the release on the host
    are the tag and the custom notes.  Whatever the run does, the body of
    each request it sends is the name of the tag, followed by a space and
    the value of [--notes] when one was given. *)
Theorem without_changelog_the_release_body_is_the_tag_and_the_notes
    {W : Type} `{Host W} (cfg : Config) (opts : VersionBumpOptions) (s : State W) :
  isCommitsChangelogUsed cfg = false ->
  Forall (fun r => body r = Some (match truthy (notesForRelease s) with
                                  | Some x => tag_name r +:+ " " +:+ x
                                  | None => tag_name r
                                  end))
         (requests (events (release cfg opts s))).
Proof.
  intros Hc. apply requests_Forall.
  pose proof (release_notes cfg opts (notesForRelease s) Hc s eq_refl) as Hn.
  destruct (outcome (release cfg opts s)); [apply Hn | exact Hn].
Qed.

Lemma without_changelog_the_release_body_is_the_tag_and_the_notes_witness :
  Forall (fun r => body r = Some (tag_name r +:+ " bug fixes"))
         (requests (events (release (H:=Toy.host Toy.fine)
            (Toy.configure false (Some "t0k3n")
               (Toy.argv_of (Some "patch") None false true) false)
            (versionBumpOptions (Toy.argv_of (Some "patch") None false true))
            (mkState Toy.start (Toy.the_manifest "1.2.3") (Some "bug fixes") true)))).
Proof.
  exact (without_changelog_the_release_body_is_the_tag_and_the_notes
           (H:=Toy.host Toy.fine)
           (Toy.configure false (Some "t0k3n")
              (Toy.argv_of (Some "patch") None false true) false)
           (versionBumpOptions (Toy.argv_of (Some "patch") None false true))
           (mkState Toy.start (Toy.the_manifest "1.2.3") (Some "bug fixes") true)
           eq_refl).
Defined.

End PublicationProperties.
